(** * Spreadsheet: a shallow embedding of Spreadsheet.cpp

    The development follows the C++ source function by function:
    the character classes and the whitespace tokenizer used by every
    [iss >> token] loop, [std::stoi] and [std::to_string], the address
    codec, the postfix evaluator [calculate_postfix], the loader
    [parse_tokens], the recursive traversal [topological_dfs_helper], the
    driver [topological_sort_dependencies], the resolution phase
    [resolve_references] / [resolve_dependencies], and the table written
    by [print_output].

    Conventions.
    - [int] is a 32-bit signed integer, kept as a [Z] and wrapped by
      [wrap_int] after every arithmetic operation (signed overflow is
      undefined in C++; the two's-complement result is what the usual
      targets compute).  The exception is the quotient of [INT_MIN] by -1,
      on which the division instruction of the usual targets traps and the
      program is killed: [postfix_traps] tells when an evaluation reaches
      it, and [run_traps] when a run does.
    - A function that can throw returns [option]; [None] is the exception.
      Inside [calculate_postfix] the exception is caught, elsewhere it
      escapes and ends the program ([Throws]).
    - The iteration order of [std::unordered_map] is unspecified, so the
      driver takes the order of the registry's keys as an argument. *)

From Stdlib Require Import ZArith String Ascii List Lia Bool.
From Stdlib Require Import DecimalString DecimalPos.
From stdpp Require Import base option list gmap sets strings.

Local Open Scope Z_scope.
Set Warnings "-clear-no-such-hyp".

(** ** Characters *)

Definition char_code (c : ascii) : Z := Z.of_N (N_of_ascii c).

(** [std::isspace] in the "C" locale: space, \t, \n, \v, \f, \r. *)
Definition isspace (c : ascii) : bool :=
  let n := char_code c in (n =? 32) || ((9 <=? n) && (n <=? 13)).

Definition isupper (c : ascii) : bool :=
  let n := char_code c in (65 <=? n) && (n <=? 90).

Definition islower (c : ascii) : bool :=
  let n := char_code c in (97 <=? n) && (n <=? 122).

(** [std::isalpha] in the "C" locale. *)
Definition isalpha (c : ascii) : bool := isupper c || islower c.

Definition isdigit (c : ascii) : bool :=
  let n := char_code c in (48 <=? n) && (n <=? 57).

(** ** Strings *)

Definition string_empty (s : string) : bool :=
  match s with EmptyString => true | String _ _ => false end.

Fixpoint string_forallb (p : ascii -> bool) (s : string) : bool :=
  match s with
  | EmptyString => true
  | String c s' => p c && string_forallb p s'
  end.

Fixpoint string_existsb (p : ascii -> bool) (s : string) : bool :=
  match s with
  | EmptyString => false
  | String c s' => p c || string_existsb p s'
  end.

(** The longest prefix whose characters satisfy [p], and what follows it. *)
Fixpoint span (p : ascii -> bool) (s : string) : string * string :=
  match s with
  | EmptyString => (EmptyString, EmptyString)
  | String c s' =>
      if p c then let '(a, b) := span p s' in (String c a, b)
      else (EmptyString, s)
  end.

(** The token sequence read by [while (iss >> token)]: maximal runs of
    non-whitespace characters.  [cur] is the token being read. *)
Fixpoint tokens_from (s : string) (cur : string) : list string :=
  match s with
  | EmptyString => if string_empty cur then [] else [cur]
  | String c s' =>
      if isspace c
      then (if string_empty cur then tokens_from s' EmptyString
            else cur :: tokens_from s' EmptyString)
      else tokens_from s' (cur +:+ String c EmptyString)
  end.

Definition tokens (s : string) : list string := tokens_from s EmptyString.

(** ** int, std::stoi, std::to_string *)

Definition INT_MIN : Z := - 2 ^ 31.
Definition INT_MAX : Z := 2 ^ 31 - 1.

Definition in_int (z : Z) : bool := (INT_MIN <=? z) && (z <=? INT_MAX).

Definition wrap_int (z : Z) : Z := (z + 2 ^ 31) mod 2 ^ 32 - 2 ^ 31.

Fixpoint digits_value (s : string) (acc : Z) : Z :=
  match s with
  | EmptyString => acc
  | String c s' => digits_value s' (10 * acc + (char_code c - 48))
  end.

(** [std::stoi(s)] (base 10, no position argument): [strtol] skips leading
    whitespace, reads an optional sign and the longest run of digits, and
    ignores whatever follows.  No digit: [std::invalid_argument]; a value
    that does not fit [int]: [std::out_of_range].  Both are [None]. *)
Definition stoi (s : string) : option Z :=
  let rest := snd (span isspace s) in
  let '(neg, body) :=
    match rest with
    | String c r =>
        if Ascii.eqb c "-" then (true, r)
        else if Ascii.eqb c "+" then (false, r)
        else (false, rest)
    | EmptyString => (false, rest)
    end in
  let ds := fst (span isdigit body) in
  if string_empty ds then None
  else
    let v := digits_value ds 0 in
    let v := if neg then - v else v in
    if in_int v then Some v else None.

(** [std::to_string(int)]. *)
Definition to_string (n : Z) : string := NilZero.string_of_int (Z.to_int n).

(** ** Cell values *)

Inductive CellState := Empty | Error.

(** [std::variant<int, CellState>]. *)
Inductive CellValue :=
| Int (n : Z)
| State (s : CellState).

Definition is_empty (cell : CellValue) : bool :=
  match cell with State Empty => true | _ => false end.

Definition is_error (cell : CellValue) : bool :=
  match cell with State Error => true | _ => false end.

(** ** The postfix evaluator *)

Definition is_operator (token : string) : bool :=
  String.eqb token "+" || String.eqb token "-" ||
  String.eqb token "*" || String.eqb token "/".

(** The body of the [while] loop of [calculate_postfix].  The result is
    the operand stack (top first) and the [error] flag at the point where
    the loop is left, by [break] or at the end of the tokens. *)
Fixpoint postfix_loop (toks : list string) (operands : list Z)
  : list Z * bool :=
  match toks with
  | [] => (operands, false)
  | token :: rest =>
      if is_operator token then
        match operands with
        | op1 :: op2 :: below =>
            if String.eqb token "+" then
              postfix_loop rest (wrap_int (op1 + op2) :: below)
            else if String.eqb token "-" then
              postfix_loop rest (wrap_int (op1 - op2) :: below)
            else if String.eqb token "*" then
              postfix_loop rest (wrap_int (op1 * op2) :: below)
            else (* the operator left is "/" *)
              if op2 =? 0 then (below, true)
              else postfix_loop rest (wrap_int (Z.quot op1 op2) :: below)
        | _ => (operands, true)
        end
      else
        match stoi token with
        | Some number => postfix_loop rest (number :: operands)
        | None => (operands, true)
        end
  end.

(** The value stored by the last statement of [calculate_postfix]. *)
Definition postfix_value (expression : string) : CellValue :=
  let '(operands, error) := postfix_loop (tokens expression) [] in
  match operands with
  | [top] => if error then State Error else Int top
  | _ => State Error
  end.

(** The loop reaches [op1 / op2] with [op1 = INT_MIN] and [op2 = -1].
    The quotient does not fit [int] and the source guards the division by
    [op2 == 0] only: the behaviour is undefined, and on the usual targets
    the program is killed there.  [postfix_loop] goes on with the wrapped
    quotient; what is stated about a stored value or about a normal end
    holds for the evaluations that do not reach this division. *)
Fixpoint postfix_traps (toks : list string) (operands : list Z) : bool :=
  match toks with
  | [] => false
  | token :: rest =>
      if is_operator token then
        match operands with
        | op1 :: op2 :: below =>
            if String.eqb token "+" then
              postfix_traps rest (wrap_int (op1 + op2) :: below)
            else if String.eqb token "-" then
              postfix_traps rest (wrap_int (op1 - op2) :: below)
            else if String.eqb token "*" then
              postfix_traps rest (wrap_int (op1 * op2) :: below)
            else (* the operator left is "/" *)
              if op2 =? 0 then false
              else if (op1 =? INT_MIN) && (op2 =? -1) then true
              else postfix_traps rest (wrap_int (Z.quot op1 op2) :: below)
        | _ => false
        end
      else
        match stoi token with
        | Some number => postfix_traps rest (number :: operands)
        | None => false
        end
  end.

Definition traps (expression : string) : bool :=
  postfix_traps (tokens expression) [].

(** ** The address codec *)

(** [coord_to_col]: the loop runs while [n >= 0]; each round divides [n]
    by 26 and subtracts one, so [S (Z.to_nat n)] rounds are enough. *)
Fixpoint coord_to_col_loop (fuel : nat) (n : Z) (result : string) : string :=
  match fuel with
  | O => result
  | S fuel' =>
      if n <? 0 then result
      else coord_to_col_loop fuel' (n / 26 - 1)
             (String (ascii_of_N (Z.to_N (65 + n mod 26))) result)
  end.

Definition coord_to_col (n : Z) : string :=
  coord_to_col_loop (S (Z.to_nat n)) n EmptyString.

Fixpoint col_to_coord_loop (col : string) (result : Z) : Z :=
  match col with
  | EmptyString => result
  | String ch col' =>
      col_to_coord_loop col' (wrap_int (result * 26 + (char_code ch - 65)))
  end.

Definition col_to_coord (col : string) : Z := col_to_coord_loop col 0.

Definition coords_to_address (coords : Z * Z) : string :=
  coord_to_col coords.1 +:+ to_string coords.2.

(** [address_to_coords]: [None] when [std::stoi] throws on the row part;
    nothing in the program catches that exception. *)
Definition address_to_coords (address : string) : option (Z * Z) :=
  let '(col, rest) := span isalpha address in
  match stoi rest with
  | Some row => Some (col_to_coord col, row)
  | None => None
  end.

Definition contains_letter (str : string) : bool := string_existsb isalpha str.

(** [std::regex_match] against [^[A-Za-z]+[0-9]+$]. *)
Definition is_letter_number_format (cell : string) : bool :=
  let '(letters, rest) := span isalpha cell in
  negb (string_empty letters) && negb (string_empty rest) &&
  string_forallb isdigit rest.

(** ** The spreadsheet *)

(** [cells] is the nested [unordered_map] (column, then row);
    [dependencies] maps an address to its formula and to the addresses
    whose formulas mention it.  [max_col] and [max_row] only serve
    [print_output] and are left out. *)
Record Spreadsheet := mkSpreadsheet {
  cells : gmap Z (gmap Z CellValue);
  dependencies : gmap string (string * list string)
}.

Definition clear : Spreadsheet := mkSpreadsheet ∅ ∅.

(** What [print_output] finds at a coordinate: [None] when the column
    or the row is absent. *)
Definition cell_at (cs : gmap Z (gmap Z CellValue)) (coords : Z * Z)
  : option CellValue :=
  match cs !! coords.1 with
  | Some column => column !! coords.2
  | None => None
  end.

(** [cells[col][row] = v]. *)
Definition set_cell (coords : Z * Z) (v : CellValue)
    (cs : gmap Z (gmap Z CellValue)) : gmap Z (gmap Z CellValue) :=
  <[coords.1 := <[coords.2 := v]> (default ∅ (cs !! coords.1))]> cs.

(** [cells[col]] used as an rvalue: an absent column is created empty. *)
Definition touch_column (col : Z) (cs : gmap Z (gmap Z CellValue))
  : gmap Z (gmap Z CellValue) :=
  match cs !! col with
  | Some _ => cs
  | None => <[col := ∅]> cs
  end.

Definition formula_of (deps : gmap string (string * list string))
    (address : string) : string :=
  match deps !! address with Some (f, _) => f | None => EmptyString end.

Definition dependents (deps : gmap string (string * list string))
    (address : string) : list string :=
  match deps !! address with Some (_, ds) => ds | None => [] end.

Definition calculate_postfix (coords : Z * Z) (expression : string)
    (s : Spreadsheet) : Spreadsheet :=
  mkSpreadsheet (set_cell coords (postfix_value expression) (cells s))
                (dependencies s).

(** [dependencies[token].second.push_back(cell_address)]. *)
Definition push_dependent (cell_address : string)
    (deps : gmap string (string * list string)) (token : string)
  : gmap string (string * list string) :=
  if is_letter_number_format token
  then <[token := (formula_of deps token,
                   dependents deps token ++ [cell_address])]> deps
  else deps.

Definition parse_tokens (cell_coords : Z * Z) (cell_contents : string)
    (s : Spreadsheet) : Spreadsheet :=
  if contains_letter cell_contents then
    let cell_address := coords_to_address cell_coords in
    let deps1 :=
      <[cell_address := (cell_contents, dependents (dependencies s) cell_address)]>
        (dependencies s) in
    mkSpreadsheet (cells s)
      (fold_left (push_dependent cell_address) (tokens cell_contents) deps1)
  else calculate_postfix cell_coords cell_contents s.

(** The pieces read by [while (std::getline(in, piece, delim))]: a piece
    ends at [delim] or at the end of the text, and the read fails when
    nothing is left. *)
Fixpoint getlines_from (delim : ascii) (s : string) (cur : string)
  : list string :=
  match s with
  | EmptyString => if string_empty cur then [] else [cur]
  | String c s' =>
      if Ascii.eqb c delim then cur :: getlines_from delim s' EmptyString
      else getlines_from delim s' (cur +:+ String c EmptyString)
  end.

Definition getlines (delim : ascii) (s : string) : list string :=
  getlines_from delim s EmptyString.

Fixpoint parse_row (row col : Z) (row_cells : list string) (s : Spreadsheet)
  : Spreadsheet :=
  match row_cells with
  | [] => s
  | cell :: rest => parse_row row (col + 1) rest (parse_tokens (col, row) cell s)
  end.

Fixpoint parse_lines (row : Z) (lines : list string) (s : Spreadsheet)
  : Spreadsheet :=
  match lines with
  | [] => s
  | line :: rest =>
      parse_lines (row + 1) rest (parse_row row 0 (getlines "," line) s)
  end.

(** The loading phase of [parse_input], on the text of the file. *)
Definition load (contents : string) : Spreadsheet :=
  parse_lines 0 (getlines "010" contents) clear.

(** ** Outcomes *)

(** [Throws]: an exception left the program.  [OutOfFuel]: the traversal
    below was given too little fuel (shown not to happen). *)
Inductive outcome (A : Type) :=
| Done (a : A)
| Throws
| OutOfFuel.
Arguments Done {A} a.
Arguments Throws {A}.
Arguments OutOfFuel {A}.

Definition obind {A B} (m : outcome A) (k : A -> outcome B) : outcome B :=
  match m with
  | Done a => k a
  | Throws => Throws
  | OutOfFuel => OutOfFuel
  end.

Definition or_throws {A} (m : option A) : outcome A :=
  match m with Some a => Done a | None => Throws end.

(** ** The dependency traversal *)

Record dfs_state := mkDfs {
  marked : gset string;
  recStack : gset string;
  res : list string
}.

Definition dfs_enter (x : string) (st : dfs_state) : dfs_state :=
  mkDfs ({[x]} ∪ marked st) ({[x]} ∪ recStack st) (res st).

(** The [for] loop of [topological_dfs_helper] over the dependents of [x];
    [rec] is the recursive call. *)
Fixpoint dfs_children (rec : string -> dfs_state -> option (bool * dfs_state))
    (x : string) (ws : list string) (has_cycle : bool) (st : dfs_state)
  : option (bool * dfs_state) :=
  match ws with
  | [] =>
      Some (has_cycle,
            mkDfs (marked st) (recStack st ∖ {[x]}) (x :: res st))
  | w :: ws' =>
      if decide (w ∈ recStack st) then
        Some (true, mkDfs (marked st) (recStack st) (x :: res st))
      else if decide (w ∈ marked st) then
        dfs_children rec x ws' has_cycle st
      else
        match rec w st with
        | Some (b, st') => dfs_children rec x ws' (has_cycle || b) st'
        | None => None
        end
  end.

(** [None]: out of fuel. *)
Fixpoint topological_dfs_helper (deps : gmap string (string * list string))
    (fuel : nat) (x : string) (st : dfs_state) : option (bool * dfs_state) :=
  match fuel with
  | O => None
  | S fuel' =>
      dfs_children (topological_dfs_helper deps fuel') x
        (dependents deps x) false (dfs_enter x st)
  end.

(** The inner loop of [topological_sort_dependencies]: every address of
    [res] gets [Error]. *)
Fixpoint mark_errors (l : list string) (cs : gmap Z (gmap Z CellValue))
  : option (gmap Z (gmap Z CellValue)) :=
  match l with
  | [] => Some cs
  | cell :: rest =>
      match address_to_coords cell with
      | Some coords => mark_errors rest (set_cell coords (State Error) cs)
      | None => None
      end
  end.

(** The outer loop, over the keys of [dependencies] in the order [order]. *)
Fixpoint sort_loop (deps : gmap string (string * list string)) (fuel : nat)
    (order : list string) (st : dfs_state) (cs : gmap Z (gmap Z CellValue))
  : outcome (dfs_state * gmap Z (gmap Z CellValue)) :=
  match order with
  | [] => Done (st, cs)
  | key :: rest =>
      if decide (key ∈ marked st) then sort_loop deps fuel rest st cs
      else
        match topological_dfs_helper deps fuel key st with
        | None => OutOfFuel
        | Some (true, st') =>
            match mark_errors (res st') cs with
            | Some cs' => sort_loop deps fuel rest st' cs'
            | None => Throws
            end
        | Some (false, st') => sort_loop deps fuel rest st' cs
        end
  end.

Definition topological_sort_dependencies (order : list string)
    (s : Spreadsheet) : outcome (list string * Spreadsheet) :=
  obind (sort_loop (dependencies s) (S (size (dependencies s))) order
           (mkDfs ∅ ∅ []) (cells s))
        (fun '(st, cs) => Done (res st, mkSpreadsheet cs (dependencies s))).

(** ** Resolution *)

(** The [while] loop of [resolve_references]. *)
Fixpoint resolve_tokens (toks : list string) (resolved_formula : string)
    (cs : gmap Z (gmap Z CellValue))
  : option (string * gmap Z (gmap Z CellValue)) :=
  match toks with
  | [] => Some (resolved_formula, cs)
  | token :: rest =>
      if is_letter_number_format token then
        match address_to_coords token with
        | None => None
        | Some coords =>
            let cs1 := touch_column coords.1 cs in
            match cell_at cs1 coords with
            | Some (Int n) =>
                resolve_tokens rest
                  (resolved_formula +:+ " " +:+ to_string n) cs1
            | Some (State _) => Some ("#ERR"%string, cs1)
            | None => Some ("#ERR"%string, cs1)
            end
        end
      else resolve_tokens rest (resolved_formula +:+ " " +:+ token) cs
  end.

Definition resolve_references (cell_address : string) (s : Spreadsheet)
  : option Spreadsheet :=
  let deps := dependencies s in
  match resolve_tokens (tokens (formula_of deps cell_address)) EmptyString
          (cells s) with
  | Some (resolved_formula, cs) =>
      Some (mkSpreadsheet cs
              (<[cell_address := (resolved_formula, dependents deps cell_address)]>
                 deps))
  | None => None
  end.

(** The body of the [for] loop of [resolve_dependencies]. *)
Definition resolve_cell (cell_address : string) (s : Spreadsheet)
  : option Spreadsheet :=
  match resolve_references cell_address s with
  | None => None
  | Some s1 =>
      let formula := formula_of (dependencies s1) cell_address in
      if string_empty formula then Some s1
      else
        match address_to_coords cell_address with
        | Some coords => Some (calculate_postfix coords formula s1)
        | None => None
        end
  end.

Fixpoint resolve_loop (sorted_dependencies : list string) (s : Spreadsheet)
  : option Spreadsheet :=
  match sorted_dependencies with
  | [] => Some s
  | cell_address :: rest =>
      match resolve_cell cell_address s with
      | Some s1 => resolve_loop rest s1
      | None => None
      end
  end.

Definition resolve_dependencies (order : list string) (s : Spreadsheet)
  : outcome Spreadsheet :=
  obind (topological_sort_dependencies order s)
        (fun '(sorted, s1) => or_throws (resolve_loop sorted s1)).

(** [parse_input] on the text of the file. *)
Definition parse_input (order : list string) (contents : string)
  : outcome Spreadsheet :=
  resolve_dependencies order (load contents).

(** The keys of the registry; the driver visits them in some order. *)
Definition keys_of (s : Spreadsheet) : list string :=
  elements (dom (dependencies s)).

(** ** Runs that reach the division of [INT_MIN] by -1 *)

(** Loading evaluates the cells without letter. *)
Definition load_traps (contents : string) : bool :=
  existsb
    (λ line,
       existsb (λ cell, negb (contains_letter cell) && traps cell)
               (getlines "," line))
    (getlines "010" contents).

(** The loop of [resolve_dependencies] evaluates, for each address, the
    formula that [resolve_references] has left for it, unless it is empty
    (the empty formula has no token and does not trap); an exception of
    [address_to_coords] comes before the evaluation. *)
Fixpoint resolve_traps (sorted_dependencies : list string) (s : Spreadsheet)
  : bool :=
  match sorted_dependencies with
  | [] => false
  | cell_address :: rest =>
      match resolve_cell cell_address s with
      | Some s1 =>
          traps (formula_of (dependencies s1) cell_address) ||
          resolve_traps rest s1
      | None => false
      end
  end.

(** Some evaluation of the run of [parse_input] reaches that division. *)
Definition run_traps (order : list string) (contents : string) : bool :=
  load_traps contents ||
  match topological_sort_dependencies order (load contents) with
  | Done (sorted, s1) => resolve_traps sorted s1
  | _ => false
  end.

(** ** The printed table *)

(** [max_col] and [max_row] as [parse_input] leaves them for a sheet that
    was empty before ([max_col] starts at 0): the largest index of a cell in
    a line, and the index of the last line. *)
Definition max_col_of (lines : list string) (max_col : Z) : Z :=
  fold_left
    (λ m line, Z.max m (Z.of_nat (length (getlines "," line)) - 1))
    lines max_col.

Definition dimensions (contents : string) : Z * Z :=
  let lines := getlines "010" contents in
  (max_col_of lines 0, Z.of_nat (length lines) - 1).

Definition TAB : string := String "009" EmptyString.

(** [std::endl]. *)
Definition ENDL : string := String "010" EmptyString.

(** The body of the inner loop of [print_output]: what is written for
    the column [col] in the line of the row [row]; nothing when the grid has
    no such column. *)
Definition print_cell (cs : gmap Z (gmap Z CellValue)) (col row : Z)
  : string :=
  match cs !! col with
  | Some column =>
      match column !! row with
      | Some cell =>
          match cell with
          | Int n => to_string n +:+ TAB
          | _ =>
              if is_empty cell then TAB
              else if is_error cell then "#ERR" +:+ TAB
              else EmptyString
          end
      | None => TAB
      end
  | None => EmptyString
  end.

(** The header line: a tab, then the letters of every column up to
    [max_col], each followed by a tab. *)
Definition print_header (max_col : Z) : string :=
  TAB +:+
  foldr (λ col out, (coord_to_col col +:+ TAB) +:+ out) ENDL
        (seqZ 0 (max_col + 1)).

(** The line of a row: its number and a tab, then what the inner loop
    writes for every column up to [max_col]. *)
Definition print_row (cs : gmap Z (gmap Z CellValue)) (max_col row : Z)
  : string :=
  to_string row +:+ TAB +:+
  foldr (λ col out, print_cell cs col row +:+ out) ENDL
        (seqZ 0 (max_col + 1)).

(** What [print_output] writes to [std::cout]. *)
Definition print_output (max_col max_row : Z)
    (cs : gmap Z (gmap Z CellValue)) : string :=
  print_header max_col +:+
  foldr (λ row out, print_row cs max_col row +:+ out) EmptyString
        (seqZ 0 (max_row + 1)).

(** ** Notions used by the statements *)

(** An operator is reached, after [before] was consumed without failure,
    with fewer than two operands on the stack. *)
Definition underflow_reached (expression : string) : Prop :=
  ∃ before token rest operands,
    tokens expression = before ++ token :: rest ∧
    postfix_loop before [] = (operands, false) ∧
    is_operator token = true ∧
    (length operands < 2)%nat.

(** All tokens are consumed and the stack does not hold exactly one value. *)
Definition leftover_stack (expression : string) : Prop :=
  ∃ operands,
    postfix_loop (tokens expression) [] = (operands, false) ∧
    length operands ≠ 1%nat.

(** Every value held by the grid is an integer or [Error]. *)
Definition no_empty (cs : gmap Z (gmap Z CellValue)) : Prop :=
  ∀ coords v, cell_at cs coords = Some v → v ≠ State Empty.

(** Postfix expressions as trees, and their usual meaning: the operand
    written first is the left one, division truncates toward zero and a
    zero divisor has no value. *)
Inductive binop := Add | Sub | Mul | Div.

Inductive expr :=
| Lit (n : Z)
| Bin (op : binop) (l r : expr).

Definition binop_token (op : binop) : string :=
  match op with Add => "+" | Sub => "-" | Mul => "*" | Div => "/" end.

Fixpoint postfix_of (e : expr) : list string :=
  match e with
  | Lit n => [to_string n]
  | Bin op l r => postfix_of l ++ postfix_of r ++ [binop_token op]
  end.

Definition apply_binop (op : binop) (a b : Z) : option Z :=
  match op with
  | Add => Some (a + b)
  | Sub => Some (a - b)
  | Mul => Some (a * b)
  | Div => if b =? 0 then None else Some (Z.quot a b)
  end.

Fixpoint standard_value (e : expr) : option Z :=
  match e with
  | Lit n => Some n
  | Bin op l r =>
      match standard_value l, standard_value r with
      | Some a, Some b => apply_binop op a b
      | _, _ => None
      end
  end.

(** The literals of the expression fit [int]. *)
Fixpoint literals_fit (e : expr) : bool :=
  match e with
  | Lit n => in_int n
  | Bin _ l r => literals_fit l && literals_fit r
  end.

(** What the loop computes instead: the operand popped first, which is
    the one written last, is taken as the left one. *)
Fixpoint popped_value (e : expr) : option Z :=
  match e with
  | Lit n => Some n
  | Bin op l r =>
      match popped_value l, popped_value r with
      | Some a, Some b => wrap_int <$> apply_binop op b a
      | _, _ => None
      end
  end.

(** Reference substitution for a given address pattern, the cell of an
    address being the one that the code reads from it with
    [address_to_coords]: an address token becomes the decimal form of the
    integer held by that cell, any other token is kept, each piece follows
    one space, and one address without an integer makes the whole result
    the sentinel. *)
Definition substitute_token (is_address : string → bool)
    (cs : gmap Z (gmap Z CellValue)) (token : string) : option string :=
  if is_address token then
    match address_to_coords token with
    | Some coords =>
        match cell_at cs coords with
        | Some (Int n) => Some (to_string n)
        | _ => None
        end
    | None => None
    end
  else Some token.

Fixpoint substitute_all (is_address : string → bool)
    (cs : gmap Z (gmap Z CellValue)) (toks : list string) : option string :=
  match toks with
  | [] => Some EmptyString
  | token :: rest =>
      match substitute_token is_address cs token,
            substitute_all is_address cs rest with
      | Some piece, Some out => Some (" " +:+ piece +:+ out)
      | _, _ => None
      end
  end.

Definition substituted (is_address : string → bool)
    (cs : gmap Z (gmap Z CellValue)) (formula : string) : string :=
  default "#ERR"%string (substitute_all is_address cs (tokens formula)).

(** The address pattern of the specification: uppercase letters, digits. *)
Definition is_upper_address (token : string) : bool :=
  let '(letters, rest) := span isupper token in
  negb (string_empty letters) && negb (string_empty rest) &&
  string_forallb isdigit rest.

(** Every address token of the formula has a row that [std::stoi] reads. *)
Definition rows_readable (formula : string) : Prop :=
  ∀ token, token ∈ tokens formula → is_letter_number_format token = true →
           is_Some (address_to_coords token).

(** The dependency graph: an edge goes from an address to each address
    recorded as its dependent. *)
Definition edge (deps : gmap string (string * list string)) (x w : string)
  : Prop :=
  w ∈ dependents deps x.

Definition acyclic (deps : gmap string (string * list string)) : Prop :=
  ∀ x, ¬ tc (edge deps) x x.

(** The formula of [c] mentions the address [t]. *)
Definition references (deps : gmap string (string * list string))
    (c t : string) : Prop :=
  t ∈ tokens (formula_of deps c) ∧ is_letter_number_format t = true.

(** [a] occurs in [l] at an earlier position than [b]. *)
Definition precedes (l : list string) (a b : string) : Prop :=
  ∃ l1 l2 l3, l = l1 ++ a :: l2 ++ b :: l3.

(** Every address of the list has all its dependents further down. *)
Fixpoint topo_sorted (deps : gmap string (string * list string))
    (l : list string) : Prop :=
  match l with
  | [] => True
  | y :: l' => (∀ w, edge deps y w → w ∈ l') ∧ topo_sorted deps l'
  end.

(** What loading establishes: dependents are keys, and every address
    mentioned by a formula has the formula's cell among its dependents. *)
Definition registry_ok (deps : gmap string (string * list string)) : Prop :=
  (∀ x w, edge deps x w → w ∈ dom deps) ∧
  (∀ c t, references deps c t → t ∈ dom deps ∧ edge deps t c).

(** The state of the traversal between two calls, on a graph without
    cycle. *)
Definition dfs_inv (deps : gmap string (string * list string))
    (st : dfs_state) : Prop :=
  (∀ y, y ∈ marked st ↔ y ∈ res st ∨ y ∈ recStack st) ∧
  NoDup (res st) ∧
  (∀ y, y ∈ res st → y ∉ recStack st) ∧
  topo_sorted deps (res st) ∧
  (∀ y, y ∈ marked st → y ∈ dom deps).

(** The number of keys not yet marked bounds the depth of the recursion. *)
Definition unmarked (deps : gmap string (string * list string))
    (st : dfs_state) : nat :=
  size (dom deps ∖ marked st).

(** What one call of the traversal achieves on a graph without cycle:
    no cycle is reported, the invariant is kept, marks and results are only
    added, and [x] is among the results. *)
Definition visits (deps : gmap string (string * list string)) (x : string)
    (st : dfs_state) (r : option (bool * dfs_state)) : Prop :=
  ∃ st', r = Some (false, st') ∧ dfs_inv deps st' ∧
         (∀ y, y ∈ marked st → y ∈ marked st') ∧
         x ∈ res st' ∧ (∀ y, y ∈ res st → y ∈ res st').

(** The coordinates present in the grid, with their values. *)
Definition grid_entries (cs : gmap Z (gmap Z CellValue))
  : list ((Z * Z) * CellValue) :=
  flat_map (λ '(col, column),
              map (λ '(row, v), ((col, row), v)) (map_to_list column))
           (map_to_list cs).

(** A numbering of the addresses that grows along every edge. *)
Definition ranked (deps : gmap string (string * list string))
    (rank : string → nat) : bool :=
  forallb (λ '(x, (_, ds)), forallb (λ w, rank x <? rank w)%nat ds)
          (map_to_list deps).

(** What any call of the traversal does to the marks and the results:
    marks are only added, and the results gain the newly marked addresses. *)
Definition extends (st st' : dfs_state) : Prop :=
  (∀ y, y ∈ marked st → y ∈ marked st') ∧
  (∀ y, y ∈ res st' ↔ y ∈ res st ∨ (y ∈ marked st' ∧ y ∉ marked st)).

(** The text of the input cell at a coordinate, row by row as
    [parse_input] reads it. *)
Definition text_at (lines : list string) (coords : Z * Z) : option string :=
  if (0 <=? coords.1) && (0 <=? coords.2) then
    match lines !! Z.to_nat coords.2 with
    | Some line => getlines "," line !! Z.to_nat coords.1
    | None => None
    end
  else None.

(** The sheet stays within columns A to Z (and within the rows an [int]
    can number). *)
Definition within_column_Z (contents : string) : bool :=
  let lines := getlines "010" contents in
  (Z.of_nat (length lines) <=? 2 ^ 31) &&
  forallb (λ line, (length (getlines "," line) <=? 26)%nat) lines.

(** How the registry and the grid reflect the cells read so far, [P]
    telling which text stands at which coordinate: a dependent is the
    address of a formula cell that mentions the address it depends on, a
    formula is the text of the cell it is registered for, and a value in the
    grid is the value of a cell without letter. *)
Definition loaded (P : Z * Z → string → Prop) (s : Spreadsheet) : Prop :=
  (∀ x a, edge (dependencies s) x a →
     formula_of (dependencies s) a ≠ EmptyString ∧
     ∃ coords t, P coords t ∧ a = coords_to_address coords ∧
                 x ∈ tokens t ∧ is_letter_number_format x = true) ∧
  (∀ a, formula_of (dependencies s) a ≠ EmptyString →
     ∃ coords, P coords (formula_of (dependencies s) a) ∧
               a = coords_to_address coords ∧
               contains_letter (formula_of (dependencies s) a) = true) ∧
  (∀ coords v, cell_at (cells s) coords = Some v →
     ∃ t, P coords t ∧ contains_letter t = false ∧ v = postfix_value t).

(** The results hold no address twice, only marked addresses, and only
    keys are marked. *)
Definition tidy (deps : gmap string (string * list string))
    (st : dfs_state) : Prop :=
  NoDup (res st) ∧
  (∀ y, y ∈ res st → y ∈ marked st) ∧
  (∀ y, y ∈ marked st → y ∈ dom deps).

(** [std::stoi] reads the row of every key of the registry. *)
Definition keys_readable (deps : gmap string (string * list string)) : Prop :=
  ∀ k, k ∈ dom deps → is_Some (address_to_coords k).

(** The state of the resolution loop with the addresses [l] still to
    evaluate, seen from a set [dead] of coordinates and a set [on] of
    addresses: a dead coordinate holds no integer, the addresses of [on]
    already evaluated hold [Error], and the addresses still to come have the
    formula that loading gave them. *)
Definition resolving (deps0 : gmap string (string * list string))
    (dead : Z * Z → Prop) (on : string → Prop) (l : list string)
    (s : Spreadsheet) : Prop :=
  (∀ p n, dead p → cell_at (cells s) p ≠ Some (Int n)) ∧
  (∀ c coords, on c → c ∉ l → address_to_coords c = Some coords →
               cell_at (cells s) coords = Some (State Error)) ∧
  (∀ k, k ∈ l → formula_of (dependencies s) k = formula_of deps0 k).

(** The formulas that cannot have a value: those mentioning an address
    whose coordinate has no input cell, or a cell without letter whose own
    evaluation fails, those on a cycle of the dependency graph, and those
    mentioning the coordinate of such a formula. *)
Inductive doomed (lines : list string)
    (deps : gmap string (string * list string)) : string → Prop :=
| doomed_undefined c t p :
    references deps c t → address_to_coords t = Some p →
    text_at lines p = None → doomed lines deps c
| doomed_plain_error c t p text :
    references deps c t → address_to_coords t = Some p →
    text_at lines p = Some text → contains_letter text = false →
    postfix_value text = State Error → doomed lines deps c
| doomed_cycle c :
    tc (edge deps) c c → doomed lines deps c
| doomed_reference c t p c' :
    references deps c t → address_to_coords t = Some p →
    doomed lines deps c' → address_to_coords c' = Some p →
    doomed lines deps c.

(** The coordinates that never hold an integer because of that. *)
Definition dead_cell (lines : list string)
    (deps : gmap string (string * list string)) (p : Z * Z) : Prop :=
  text_at lines p = None ∨
  (∃ text, text_at lines p = Some text ∧ contains_letter text = false ∧
           postfix_value text = State Error) ∨
  (∃ c, doomed lines deps c ∧ address_to_coords c = Some p).

(** ** Notions used by the further properties *)

(** The expression is built from sums and products only. *)
Fixpoint sums_and_products (e : expr) : bool :=
  match e with
  | Lit _ => true
  | Bin Add l r | Bin Mul l r => sums_and_products l && sums_and_products r
  | Bin _ _ _ => false
  end.

(** Every literal and every intermediate result of the expression, taken
    in its usual meaning, fits [int]. *)
Fixpoint results_fit (e : expr) : bool :=
  match e with
  | Lit n => in_int n
  | Bin _ l r =>
      results_fit l && results_fit r &&
      match standard_value e with Some v => in_int v | None => false end
  end.

(** The number of tokens that satisfy [p]. *)
Fixpoint count_tokens (p : string → bool) (toks : list string) : nat :=
  match toks with
  | [] => 0
  | token :: rest => (if p token then 1 else 0) + count_tokens p rest
  end.

(** [keys_readable], as a test on the keys. *)
Definition keys_readableb (s : Spreadsheet) : bool :=
  forallb (λ k, bool_decide (is_Some (address_to_coords k))) (keys_of s).

(** The cells read so far, as a relation between coordinates and texts. *)
Definition row_cell (row col : Z) (row_cells : list string)
    (coords : Z * Z) (t : string) : Prop :=
  ∃ j : nat, coords = (col + Z.of_nat j, row) ∧ row_cells !! j = Some t.

Definition lines_cell (row : Z) (lines : list string)
    (coords : Z * Z) (t : string) : Prop :=
  ∃ (i : nat) line (j : nat),
    coords = (Z.of_nat j, row + Z.of_nat i) ∧
    lines !! i = Some line ∧ getlines "," line !! j = Some t.

(** The dependents and the keys recorded for the cells of a relation. *)
Definition mentioned_by (P : Z * Z → string → Prop) (k w : string) : Prop :=
  ∃ coords t, P coords t ∧ contains_letter t = true ∧
              w = coords_to_address coords ∧
              k ∈ tokens t ∧ is_letter_number_format k = true.

Definition key_from (P : Z * Z → string → Prop) (k : string) : Prop :=
  ∃ coords t, P coords t ∧ contains_letter t = true ∧
              (k = coords_to_address coords ∨
               (k ∈ tokens t ∧ is_letter_number_format k = true)).

(** The state of the resolution loop with the addresses [l] still to
    evaluate, [deps0] being the registry and [cs0] the grid when the loop
    starts: the addresses to come have their formula of [deps0] and, when it
    is not empty, no integer at their coordinate; an address already
    evaluated whose formula is not empty has a value at its coordinate and,
    when that is an integer, it is the value of the formula with every
    address replaced by the integer now in the grid; every other coordinate
    is as in [cs0]. *)
Definition consistent (deps0 : gmap string (string * list string))
    (cs0 : gmap Z (gmap Z CellValue)) (l : list string) (s : Spreadsheet)
  : Prop :=
  (∀ k, k ∈ l → formula_of (dependencies s) k = formula_of deps0 k) ∧
  (∀ k ck n, k ∈ l → formula_of deps0 k ≠ EmptyString →
             address_to_coords k = Some ck →
             cell_at (cells s) ck ≠ Some (Int n)) ∧
  (∀ k ck, k ∉ l → formula_of deps0 k ≠ EmptyString →
           address_to_coords k = Some ck →
           ∃ v, cell_at (cells s) ck = Some v ∧
                ∀ n, v = Int n →
                     ∃ out,
                       substitute_all is_letter_number_format (cells s)
                         (tokens (formula_of deps0 k)) = Some out ∧
                       postfix_value out = Int n) ∧
  (∀ p, (∀ k, formula_of deps0 k ≠ EmptyString →
              address_to_coords k ≠ Some p) →
        cell_at (cells s) p = cell_at cs0 p).

(** Every address token of the input is written the way
    [coords_to_address] writes the coordinate that [address_to_coords] reads
    from it: capital letters, no leading zero. *)
Definition canonical_refs (contents : string) : bool :=
  forallb
    (λ line,
       forallb
         (λ t,
            forallb
              (λ token,
                 negb (is_letter_number_format token) ||
                 match address_to_coords token with
                 | Some p => String.eqb (coords_to_address p) token
                 | None => false
                 end)
              (tokens t))
         (getlines "," line))
    (getlines "010" contents).

(** The state of the resolution loop on a graph without cycle, [before]
    being the addresses already evaluated and [l] those to come: the latter
    have their formula of [deps0]; an address of [before] whose formula is
    not empty holds the value of that formula in the present grid; every
    other coordinate is as in [cs0]. *)
Definition settled (deps0 : gmap string (string * list string))
    (cs0 : gmap Z (gmap Z CellValue)) (before l : list string)
    (s : Spreadsheet) : Prop :=
  (∀ k, k ∈ l → formula_of (dependencies s) k = formula_of deps0 k) ∧
  (∀ k ck, k ∈ before → formula_of deps0 k ≠ EmptyString →
           address_to_coords k = Some ck →
           cell_at (cells s) ck =
           Some (postfix_value
                   (substituted is_letter_number_format (cells s)
                      (formula_of deps0 k)))) ∧
  (∀ p, (∀ k, k ∈ before → formula_of deps0 k ≠ EmptyString →
              address_to_coords k ≠ Some p) →
        cell_at (cells s) p = cell_at cs0 p).

(** What a sheet prescribes for a grid: a cell without letter holds the
    value of its text, a formula cell holds the value of its text with every
    address replaced by the integer the grid holds for it, and nothing else
    is held. *)
Definition evaluated (contents : string) (g : gmap Z (gmap Z CellValue))
  : Prop :=
  ∀ coords,
    cell_at g coords =
    match text_at (getlines "010" contents) coords with
    | Some t =>
        Some (postfix_value
                (if contains_letter t
                 then substituted is_letter_number_format g t
                 else t))
    | None => None
    end.

(** The number of occurrences of a character. *)
Fixpoint count_char (c : ascii) (s : string) : nat :=
  match s with
  | EmptyString => 0
  | String d s' => (if Ascii.eqb d c then 1 else 0) + count_char c s'
  end.

(** The text shown for what a coordinate holds. *)
Definition shown (v : option CellValue) : string :=
  match v with
  | Some (Int n) => to_string n
  | Some (State Error) => "#ERR"
  | _ => EmptyString
  end.

(** Some address token of the input is read by [address_to_coords] as the
    coordinate [coords]. *)
Definition mentioned (contents : string) (coords : Z * Z) : bool :=
  existsb
    (λ line,
       existsb
         (λ t,
            existsb
              (λ token,
                 is_letter_number_format token &&
                 bool_decide (address_to_coords token = Some coords))
              (tokens t))
         (getlines "," line))
    (getlines "010" contents).

(** * The postfix evaluator *)

Lemma postfix_loop_app before rest operands :
  postfix_loop (before ++ rest) operands =
  let '(ops, error) := postfix_loop before operands in
  if error then (ops, true) else postfix_loop rest ops.
Proof.
  revert operands.
  induction before as [|token before IH]; intros operands; simpl; [done|].
  destruct (is_operator token).
  - destruct operands as [|op1 [|op2 below]]; try done.
    repeat (case_match; try done); apply IH.
  - destruct (stoi token); [apply IH | done].
Qed.

Lemma postfix_loop_underflow token rest operands :
  is_operator token = true → (length operands < 2)%nat →
  postfix_loop (token :: rest) operands = (operands, true).
Proof.
  intros Hop Hlen. simpl. rewrite Hop.
  destruct operands as [|op1 [|op2 below]]; simpl in Hlen; try done; lia.
Qed.

Lemma postfix_value_error_flag expression operands :
  postfix_loop (tokens expression) [] = (operands, true) →
  postfix_value expression = State Error.
Proof.
  intros H. unfold postfix_value. rewrite H.
  by destruct operands as [|top [|]].
Qed.

Lemma postfix_value_not_empty expression :
  postfix_value expression ≠ State Empty.
Proof.
  unfold postfix_value.
  destruct (postfix_loop (tokens expression) []) as [operands error].
  destruct operands as [|top [|]]; try done. by destruct error.
Qed.

(** C7.  Whenever an operator is reached with fewer than two operands, or
    the tokens are used up with a stack that does not hold exactly one
    value, [calculate_postfix] stores [Error]; so it does for [7 +]. *)
Theorem postfix_underflow_or_leftover_is_error :
  (∀ expression,
     underflow_reached expression ∨ leftover_stack expression →
     postfix_value expression = State Error) ∧
  postfix_value "7 +" = State Error.
Proof.
  split; [|reflexivity].
  intros expression [(before & token & rest & operands & Htok & Hrun & Hop & Hlen)
                    | (operands & Hrun & Hlen)].
  - apply (postfix_value_error_flag _ operands).
    rewrite Htok, postfix_loop_app, Hrun.
    by apply postfix_loop_underflow.
  - unfold postfix_value. rewrite Hrun.
    destruct operands as [|top [|]]; simpl in Hlen; done.
Qed.

Lemma postfix_underflow_or_leftover_is_error_witness :
  postfix_value "7 +" = State Error ∧ postfix_value "1 2" = State Error.
Proof.
  split.
  - apply (proj1 postfix_underflow_or_leftover_is_error "7 +"%string).
    left. exists ["7"%string], "+"%string, [], [7].
    repeat split; try reflexivity. simpl; lia.
  - apply (proj1 postfix_underflow_or_leftover_is_error "1 2"%string).
    right. exists [2; 1]. split; [reflexivity | simpl; lia].
Defined.

(** ** Decimal literals *)

Lemma isdigit_not_space c : isdigit c = true → isspace c = false.
Proof. unfold isdigit, isspace. generalize (char_code c). lia. Qed.

Lemma isdigit_not_sign c :
  isdigit c = true → Ascii.eqb c "-" = false ∧ Ascii.eqb c "+" = false.
Proof.
  intros Hc. split.
  - destruct (Ascii.eqb_spec c "-") as [->|]; [discriminate Hc | done].
  - destruct (Ascii.eqb_spec c "+") as [->|]; [discriminate Hc | done].
Qed.

Lemma span_all p s :
  string_forallb p s = true → span p s = (s, EmptyString).
Proof.
  induction s as [|c s IH]; simpl; [done|].
  intros [Hc Hs]%andb_prop. by rewrite Hc, IH.
Qed.

Lemma span_none p c s : p c = false → span p (String c s) = (EmptyString, String c s).
Proof. intros Hc. simpl. by rewrite Hc. Qed.

(** On a nonempty run of digits, and on such a run after a minus sign,
    [std::stoi] reads the whole string. *)
Lemma stoi_digits s :
  s ≠ EmptyString → string_forallb isdigit s = true →
  stoi s = if in_int (digits_value s 0) then Some (digits_value s 0) else None.
Proof.
  destruct s as [|c s]; [done|]. intros _ Hs.
  pose proof Hs as [Hc _]%andb_prop.
  destruct (isdigit_not_sign c Hc) as [Hminus Hplus].
  unfold stoi.
  rewrite (span_none isspace) by by apply isdigit_not_space.
  cbn [snd]. rewrite Hminus, Hplus, (span_all isdigit) by done.
  done.
Qed.

Lemma stoi_minus_digits s :
  s ≠ EmptyString → string_forallb isdigit s = true →
  stoi (String "-" s) =
  if in_int (- digits_value s 0) then Some (- digits_value s 0) else None.
Proof.
  intros Hne Hs. unfold stoi.
  rewrite (span_none isspace) by done.
  cbn [snd]. change (Ascii.eqb "-" "-") with true. cbn iota.
  rewrite (span_all isdigit) by done.
  by destruct s.
Qed.

Lemma string_of_uint_digits d :
  string_forallb isdigit (NilEmpty.string_of_uint d) = true.
Proof. induction d; simpl; [done|by rewrite IHd..]. Qed.

Lemma string_of_uint_nonempty d :
  d ≠ Decimal.Nil → NilEmpty.string_of_uint d ≠ EmptyString.
Proof. by destruct d. Qed.

Lemma digits_value_of_uint_acc d p :
  digits_value (NilEmpty.string_of_uint d) (Z.pos p) =
  Z.pos (Pos.of_uint_acc d p).
Proof.
  revert p. induction d; intros p; simpl; [done|..];
    match goal with
    | |- digits_value _ ?acc = Z.pos (Pos.of_uint_acc _ ?q) =>
        replace acc with (Z.pos q) by (unfold char_code; simpl; lia); apply IHd
    end.
Qed.

Lemma digits_value_of_uint d :
  digits_value (NilEmpty.string_of_uint d) 0 = Z.of_N (Pos.of_uint d).
Proof.
  induction d; simpl; [done| |..];
    [exact IHd | apply (digits_value_of_uint_acc d)..].
Qed.

Lemma digits_value_to_uint p :
  digits_value (NilEmpty.string_of_uint (Pos.to_uint p)) 0 = Z.pos p.
Proof. by rewrite digits_value_of_uint, DecimalPos.Unsigned.of_to. Qed.

Lemma to_string_pos p :
  to_string (Z.pos p) = NilEmpty.string_of_uint (Pos.to_uint p).
Proof.
  unfold to_string. simpl.
  pose proof (DecimalPos.Unsigned.to_uint_nonnil p).
  by destruct (Pos.to_uint p).
Qed.

Lemma to_string_neg p :
  to_string (Z.neg p) = String "-" (NilEmpty.string_of_uint (Pos.to_uint p)).
Proof.
  unfold to_string. simpl.
  pose proof (DecimalPos.Unsigned.to_uint_nonnil p).
  by destruct (Pos.to_uint p).
Qed.

(** [std::stoi] reads back what [std::to_string] printed. *)
Lemma stoi_to_string n : in_int n = true → stoi (to_string n) = Some n.
Proof.
  intros Hn. destruct n as [|p|p].
  - reflexivity.
  - rewrite to_string_pos, stoi_digits.
    + by rewrite digits_value_to_uint, Hn.
    + apply string_of_uint_nonempty, DecimalPos.Unsigned.to_uint_nonnil.
    + apply string_of_uint_digits.
  - rewrite to_string_neg, stoi_minus_digits.
    + rewrite digits_value_to_uint.
      change (- Z.pos p) with (Z.neg p). by rewrite Hn.
    + apply string_of_uint_nonempty, DecimalPos.Unsigned.to_uint_nonnil.
    + apply string_of_uint_digits.
Qed.

Lemma to_string_not_operator n : is_operator (to_string n) = false.
Proof.
  destruct n as [|p|p].
  - reflexivity.
  - rewrite to_string_pos.
    pose proof (string_of_uint_digits (Pos.to_uint p)) as Hd.
    pose proof (DecimalPos.Unsigned.to_uint_nonnil p) as Hne.
    destruct (NilEmpty.string_of_uint (Pos.to_uint p)) as [|c s] eqn:Hs;
      [by apply string_of_uint_nonempty in Hs|].
    apply andb_prop in Hd as [Hc _].
    unfold is_operator. simpl.
    destruct (Ascii.eqb_spec c "+") as [->|]; [discriminate Hc|].
    destruct (Ascii.eqb_spec c "-") as [->|]; [discriminate Hc|].
    destruct (Ascii.eqb_spec c "*") as [->|]; [discriminate Hc|].
    destruct (Ascii.eqb_spec c "/") as [->|]; [discriminate Hc|].
    done.
  - rewrite to_string_neg.
    pose proof (DecimalPos.Unsigned.to_uint_nonnil p) as Hne.
    destruct (NilEmpty.string_of_uint (Pos.to_uint p)) as [|c s] eqn:Hs;
      [by apply string_of_uint_nonempty in Hs | reflexivity].
Qed.

(** ** Addresses of the first 26 columns *)

Lemma char_code_ascii_of_N n :
  (n < 256)%N → char_code (ascii_of_N n) = Z.of_N n.
Proof. intros Hn. unfold char_code. by rewrite N_ascii_embedding. Qed.

Lemma to_string_digits row :
  0 ≤ row → string_forallb isdigit (to_string row) = true.
Proof.
  intros Hrow. destruct row as [|p|p]; [done| |lia].
  rewrite to_string_pos. apply string_of_uint_digits.
Qed.

Lemma span_isalpha_digits s :
  string_forallb isdigit s = true → span isalpha s = (EmptyString, s).
Proof.
  destruct s as [|c s]; [done|]. intros [Hc _]%andb_prop.
  apply span_none. revert Hc.
  unfold isdigit, isalpha, isupper, islower. generalize (char_code c). lia.
Qed.

Lemma coord_to_col_letter col :
  0 ≤ col < 26 →
  coord_to_col col = String (ascii_of_N (Z.to_N (65 + col))) EmptyString.
Proof.
  intros Hcol. unfold coord_to_col. cbn [coord_to_col_loop].
  replace (col <? 0) with false by lia.
  rewrite Z.mod_small, Z.div_small by lia.
  by destruct (Z.to_nat col).
Qed.

(** In the first 26 columns the codec reads back the coordinates it
    printed. *)
Lemma address_to_coords_to_address col row :
  0 ≤ col < 26 → 0 ≤ row ≤ INT_MAX →
  address_to_coords (coords_to_address (col, row)) = Some (col, row).
Proof.
  intros Hcol Hrow. unfold coords_to_address, address_to_coords. cbn [fst snd].
  rewrite coord_to_col_letter by done.
  set (letter := ascii_of_N (Z.to_N (65 + col))).
  assert (char_code letter = 65 + col) as Hcode.
  { unfold letter. rewrite char_code_ascii_of_N by lia. lia. }
  change (String letter EmptyString +:+ to_string row)
    with (String letter (to_string row)).
  assert (isalpha letter = true) as Halpha.
  { unfold isalpha, isupper, islower. rewrite Hcode. lia. }
  cbn [span]. rewrite Halpha.
  rewrite span_isalpha_digits by (apply to_string_digits; lia).
  rewrite stoi_to_string by (unfold in_int, INT_MIN, INT_MAX in *; lia).
  unfold col_to_coord. cbn [col_to_coord_loop]. rewrite Hcode.
  do 2 f_equal. unfold wrap_int. rewrite Z.mod_small; lia.
Qed.

(** ** What the loop computes *)

Lemma binop_token_operator op : is_operator (binop_token op) = true.
Proof. by destruct op. Qed.

Lemma postfix_loop_binop op rest a b below :
  postfix_loop (binop_token op :: rest) (b :: a :: below) =
  match apply_binop op b a with
  | Some v => postfix_loop rest (wrap_int v :: below)
  | None => (below, true)
  end.
Proof. destruct op; simpl; [done..|]. by destruct (a =? 0). Qed.

(** On the postfix form of an expression the loop pushes [popped_value]. *)
Lemma postfix_loop_popped e :
  literals_fit e = true →
  ∀ v rest operands,
    popped_value e = Some v →
    postfix_loop (postfix_of e ++ rest) operands
    = postfix_loop rest (v :: operands).
Proof.
  induction e as [n|op l IHl r IHr]; intros Hfit v rest operands Hv; simpl in *.
  - simplify_eq. by rewrite to_string_not_operator, stoi_to_string.
  - apply andb_prop in Hfit as [Hl Hr].
    destruct (popped_value l) as [a|] eqn:Ha; [|done].
    destruct (popped_value r) as [b|] eqn:Hb; [|done].
    rewrite <- !app_assoc, (IHl Hl a), (IHr Hr b) by done.
    simpl app. rewrite postfix_loop_binop.
    by destruct (apply_binop op b a); simplify_eq/=.
Qed.

Lemma postfix_loop_popped_fails e :
  literals_fit e = true → popped_value e = None →
  ∀ rest operands,
    ∃ left_over, postfix_loop (postfix_of e ++ rest) operands = (left_over, true).
Proof.
  induction e as [n|op l IHl r IHr]; intros Hfit Hv rest operands; simpl in *;
    [done|].
  apply andb_prop in Hfit as [Hl Hr]. rewrite <- !app_assoc.
  destruct (popped_value l) as [a|] eqn:Ha; [|by apply IHl].
  rewrite (postfix_loop_popped l Hl a) by done.
  destruct (popped_value r) as [b|] eqn:Hb; [|by apply IHr].
  rewrite (postfix_loop_popped r Hr b) by done.
  simpl app. rewrite postfix_loop_binop.
  destruct (apply_binop op b a); [done | by eexists].
Qed.

(** For every expression whose literals fit [int], [calculate_postfix]
    stores the value obtained with the operands taken in pop order, and
    [Error] when that value does not exist. *)
Lemma postfix_value_is_popped_value expression e :
  tokens expression = postfix_of e → literals_fit e = true →
  postfix_value expression =
  match popped_value e with Some v => Int v | None => State Error end.
Proof.
  intros Htok Hfit. unfold postfix_value. rewrite Htok.
  rewrite <- (app_nil_r (postfix_of e)).
  destruct (popped_value e) as [v|] eqn:Hv.
  - by rewrite (postfix_loop_popped e Hfit v).
  - destruct (postfix_loop_popped_fails e Hfit Hv [] []) as [left_over ->].
    by destruct left_over as [|? [|]].
Qed.

(** C1.  [3 4 -] is a valid postfix expression of value [-1]; the loop
    pops 4 first and computes [4 - 3]. *)
Theorem postfix_subtraction_operands_swapped :
  postfix_of (Bin Sub (Lit 3) (Lit 4)) = tokens "3 4 -" ∧
  standard_value (Bin Sub (Lit 3) (Lit 4)) = Some (-1) ∧
  postfix_value "3 4 -" = Int 1.
Proof. repeat split; reflexivity. Qed.

(** C2.  [5 0 /] divides by zero, yet the loop tests the operand written
    first and stores [0 / 5]; it is [0 5 /] that fails. *)
Theorem postfix_division_checks_first_operand :
  standard_value (Bin Div (Lit 5) (Lit 0)) = None ∧
  postfix_of (Bin Div (Lit 5) (Lit 0)) = tokens "5 0 /" ∧
  postfix_value "5 0 /" = Int 0 ∧
  postfix_value "0 5 /" = State Error.
Proof. repeat split; reflexivity. Qed.

(** C8.  [std::stoi] reads the longest numeric prefix and ignores the
    rest of the token: [12+3] and [4 2abc +] are given values. *)
Theorem postfix_accepts_numeric_prefix :
  is_operator "12+3" = false ∧
  postfix_value "12+3" = Int 12 ∧
  postfix_value "4 2abc +" = Int 6.
Proof. repeat split; reflexivity. Qed.

(** What the code does reject: a token that is no operator and on which
    [std::stoi] throws ends the evaluation with [Error]. *)
Lemma postfix_rejects_unparsable expression before token rest operands :
  tokens expression = before ++ token :: rest →
  postfix_loop before [] = (operands, false) →
  is_operator token = false → stoi token = None →
  postfix_value expression = State Error.
Proof.
  intros Htok Hrun Hop Hstoi.
  apply (postfix_value_error_flag _ operands).
  rewrite Htok, postfix_loop_app, Hrun. simpl. by rewrite Hop, Hstoi.
Qed.

(** * The grid *)

Lemma cell_at_empty coords : cell_at ∅ coords = None.
Proof. unfold cell_at. by rewrite lookup_empty. Qed.

Lemma cell_at_set_cell coords coords' v cs :
  cell_at (set_cell coords v cs) coords' =
  if decide (coords = coords') then Some v else cell_at cs coords'.
Proof.
  destruct coords as [c r], coords' as [c' r'].
  unfold cell_at, set_cell; simpl.
  destruct (decide (c = c')) as [->|Hc].
  - rewrite lookup_insert_eq.
    destruct (decide (r = r')) as [->|Hr].
    + rewrite lookup_insert_eq. by rewrite decide_True.
    + rewrite lookup_insert_ne by done.
      rewrite decide_False by congruence.
      destruct (cs !! c'); simpl; [done | apply lookup_empty].
  - rewrite lookup_insert_ne by done.
    by rewrite decide_False by congruence.
Qed.

Lemma cell_at_set_cell_eq coords v cs :
  cell_at (set_cell coords v cs) coords = Some v.
Proof. rewrite cell_at_set_cell. by rewrite decide_True. Qed.

Lemma cell_at_set_cell_ne coords coords' v cs :
  coords ≠ coords' → cell_at (set_cell coords v cs) coords' = cell_at cs coords'.
Proof. intros. rewrite cell_at_set_cell. by rewrite decide_False. Qed.

Lemma cell_at_touch_column col cs coords :
  cell_at (touch_column col cs) coords = cell_at cs coords.
Proof.
  unfold touch_column, cell_at.
  destruct (cs !! col) eqn:Hcol; [done|].
  destruct (decide (col = coords.1)) as [<-|Hne].
  - rewrite lookup_insert_eq, Hcol. apply lookup_empty.
  - by rewrite lookup_insert_ne.
Qed.

Lemma no_empty_set_cell coords v cs :
  v ≠ State Empty → no_empty cs → no_empty (set_cell coords v cs).
Proof.
  intros Hv Hcs coords' v'. rewrite cell_at_set_cell.
  case_decide; [congruence | apply Hcs].
Qed.

Lemma no_empty_calculate_postfix coords expression s :
  no_empty (cells s) → no_empty (cells (calculate_postfix coords expression s)).
Proof. apply no_empty_set_cell, postfix_value_not_empty. Qed.

Lemma no_empty_parse_tokens coords text s :
  no_empty (cells s) → no_empty (cells (parse_tokens coords text s)).
Proof.
  unfold parse_tokens. destruct (contains_letter text); [done|].
  apply no_empty_calculate_postfix.
Qed.

Lemma no_empty_parse_row row row_cells col s :
  no_empty (cells s) → no_empty (cells (parse_row row col row_cells s)).
Proof.
  revert col s. induction row_cells as [|cell rest IH]; intros col s H; [done|].
  simpl. by apply IH, no_empty_parse_tokens.
Qed.

Lemma no_empty_parse_lines lines row s :
  no_empty (cells s) → no_empty (cells (parse_lines row lines s)).
Proof.
  revert row s. induction lines as [|line rest IH]; intros row s H; [done|].
  simpl. by apply IH, no_empty_parse_row.
Qed.

Lemma no_empty_load contents : no_empty (cells (load contents)).
Proof.
  apply no_empty_parse_lines. intros coords v. simpl.
  by rewrite cell_at_empty.
Qed.

Lemma no_empty_mark_errors l cs cs' :
  mark_errors l cs = Some cs' → no_empty cs → no_empty cs'.
Proof.
  revert cs. induction l as [|cell rest IH]; intros cs Hrun Hcs; simpl in Hrun.
  - by simplify_eq.
  - destruct (address_to_coords cell) as [coords|]; [|done].
    eapply IH; [done|]. by apply no_empty_set_cell.
Qed.

Lemma no_empty_sort_loop deps fuel order st cs st' cs' :
  sort_loop deps fuel order st cs = Done (st', cs') →
  no_empty cs → no_empty cs'.
Proof.
  revert st cs. induction order as [|key rest IH]; intros st cs Hrun Hcs;
    simpl in Hrun.
  - by simplify_eq.
  - destruct (decide (key ∈ marked st)); [by eapply IH|].
    destruct (topological_dfs_helper deps fuel key st) as [[[] st1]|]; [| |done].
    + destruct (mark_errors (res st1) cs) as [cs1|] eqn:Hmark; [|done].
      eapply IH; [done|]. by eapply no_empty_mark_errors.
    + by eapply IH.
Qed.

Lemma cell_at_resolve_tokens toks resolved cs out cs' :
  resolve_tokens toks resolved cs = Some (out, cs') →
  ∀ coords, cell_at cs' coords = cell_at cs coords.
Proof.
  revert resolved cs.
  induction toks as [|token rest IH]; intros resolved cs Hrun coords;
    simpl in Hrun.
  - by simplify_eq.
  - destruct (is_letter_number_format token); [|by eapply IH].
    destruct (address_to_coords token) as [p|]; [|done].
    destruct (cell_at (touch_column p.1 cs) p) as [[n|st]|];
      simplify_eq; try apply cell_at_touch_column.
    erewrite IH by done. apply cell_at_touch_column.
Qed.

Lemma cell_at_resolve_references address s s' :
  resolve_references address s = Some s' →
  ∀ coords, cell_at (cells s') coords = cell_at (cells s) coords.
Proof.
  unfold resolve_references. intros Hrun.
  destruct (resolve_tokens _ _ _) as [[out cs]|] eqn:Htok; [|done].
  simplify_eq. simpl. by eapply cell_at_resolve_tokens.
Qed.

Lemma no_empty_resolve_cell address s s' :
  resolve_cell address s = Some s' → no_empty (cells s) → no_empty (cells s').
Proof.
  unfold resolve_cell. intros Hrun Hs.
  destruct (resolve_references address s) as [s1|] eqn:Href; [|done].
  assert (no_empty (cells s1)) as Hs1.
  { intros coords v. rewrite (cell_at_resolve_references _ _ _ Href). apply Hs. }
  destruct (string_empty _); [by simplify_eq|].
  destruct (address_to_coords address); simplify_eq.
  by apply no_empty_calculate_postfix.
Qed.

Lemma no_empty_resolve_loop sorted s s' :
  resolve_loop sorted s = Some s' → no_empty (cells s) → no_empty (cells s').
Proof.
  revert s. induction sorted as [|address rest IH]; intros s Hrun Hs;
    simpl in Hrun.
  - by simplify_eq.
  - destruct (resolve_cell address s) as [s1|] eqn:Hcell; [|done].
    eapply IH; [done|]. by eapply no_empty_resolve_cell.
Qed.

Lemma no_empty_resolve_dependencies order s s' :
  resolve_dependencies order s = Done s' →
  no_empty (cells s) → no_empty (cells s').
Proof.
  unfold resolve_dependencies, topological_sort_dependencies.
  intros Hrun Hs.
  destruct (sort_loop _ _ _ _ _) as [[st cs]| |] eqn:Hsort; try done.
  simpl in Hrun.
  destruct (resolve_loop _ _) as [s2|] eqn:Hres; simpl in Hrun; simplify_eq.
  eapply no_empty_resolve_loop; [done|]. simpl.
  by eapply no_empty_sort_loop.
Qed.

Lemma tokens_from_blank text :
  string_forallb isspace text = true → tokens_from text EmptyString = [].
Proof.
  induction text as [|c text IH]; simpl; [done|].
  intros [Hc Htext]%andb_prop. rewrite Hc. auto.
Qed.

Lemma isspace_not_alpha c : isspace c = true → isalpha c = false.
Proof.
  unfold isspace, isalpha, isupper, islower. generalize (char_code c). lia.
Qed.

Lemma contains_letter_blank text :
  string_forallb isspace text = true → contains_letter text = false.
Proof.
  unfold contains_letter.
  induction text as [|c text IH]; simpl; [done|].
  intros [Hc Htext]%andb_prop. by rewrite (isspace_not_alpha _ Hc), IH.
Qed.

Lemma parse_tokens_blank coords text s :
  string_forallb isspace text = true →
  cell_at (cells (parse_tokens coords text s)) coords = Some (State Error).
Proof.
  intros Hblank. unfold parse_tokens.
  rewrite contains_letter_blank by done. simpl.
  rewrite cell_at_set_cell_eq. unfold postfix_value, tokens.
  by rewrite tokens_from_blank.
Qed.

(** C10.  After loading, and after a resolution that ran to its end, no
    coordinate of the grid holds [Empty]: each holds an integer or
    [Error].  A cell whose text is empty or blank is stored as [Error]. *)
Theorem grid_never_holds_empty :
  (∀ contents, no_empty (cells (load contents))) ∧
  (∀ order contents s,
     parse_input order contents = Done s →
     ∀ coords v, cell_at (cells s) coords = Some v →
                 (∃ n, v = Int n) ∨ v = State Error) ∧
  (∀ coords text s,
     string_forallb isspace text = true →
     cell_at (cells (parse_tokens coords text s)) coords = Some (State Error)).
Proof.
  split; [apply no_empty_load|]. split; [|apply parse_tokens_blank].
  intros order contents s Hrun coords v Hv.
  assert (no_empty (cells s)) as Hs
    by (eapply no_empty_resolve_dependencies; [done | apply no_empty_load]).
  specialize (Hs coords v Hv).
  destruct v as [n|[]]; [eauto | done | by right].
Qed.

(** * Reference substitution *)

Lemma append_assoc (a b c : string) : (a +:+ b) +:+ c = a +:+ b +:+ c.
Proof.
  induction a as [|x a IH]; [done|].
  change (String x ((a +:+ b) +:+ c) = String x (a +:+ b +:+ c)).
  by f_equal.
Qed.

Lemma append_empty_r (a : string) : a +:+ EmptyString = a.
Proof.
  induction a as [|x a IH]; [done|].
  change (String x (a +:+ EmptyString) = String x a). by f_equal.
Qed.

Lemma substitute_all_ext is_address cs cs' toks :
  (∀ coords, cell_at cs' coords = cell_at cs coords) →
  substitute_all is_address cs' toks = substitute_all is_address cs toks.
Proof.
  intros Hext. induction toks as [|token rest IH]; simpl; [done|].
  rewrite IH. unfold substitute_token.
  destruct (is_address token); [|done].
  destruct (address_to_coords token); [|done]. by rewrite Hext.
Qed.

Lemma resolve_tokens_spec toks resolved cs :
  (∀ token, token ∈ toks → is_letter_number_format token = true →
            is_Some (address_to_coords token)) →
  ∃ cs',
    resolve_tokens toks resolved cs =
      Some (match substitute_all is_letter_number_format cs toks with
            | Some out => resolved +:+ out
            | None => "#ERR"%string
            end, cs') ∧
    ∀ coords, cell_at cs' coords = cell_at cs coords.
Proof.
  revert resolved cs.
  induction toks as [|token rest IH]; intros resolved cs Hrows; simpl.
  - exists cs. by rewrite append_empty_r.
  - assert (∀ t, t ∈ rest → is_letter_number_format t = true →
                 is_Some (address_to_coords t)) as Hrest
      by (intros t Ht; apply Hrows; by right).
    unfold substitute_token.
    destruct (is_letter_number_format token) eqn:Hfmt.
    + destruct (Hrows token) as [p Hp]; [by left | done |]. rewrite Hp.
      rewrite cell_at_touch_column.
      destruct (cell_at cs p) as [[n|st]|] eqn:Hcell.
      * destruct (IH (resolved +:+ " " +:+ to_string n)
                     (touch_column p.1 cs) Hrest) as (cs' & Hrun & Hsame).
        exists cs'. rewrite Hrun. split.
        -- rewrite (substitute_all_ext _ cs (touch_column p.1 cs))
             by apply cell_at_touch_column.
           destruct (substitute_all _ cs rest); [|done].
           by rewrite !append_assoc.
        -- intros coords. by rewrite Hsame, cell_at_touch_column.
      * exists (touch_column p.1 cs). split; [done|].
        apply cell_at_touch_column.
      * exists (touch_column p.1 cs). split; [done|].
        apply cell_at_touch_column.
    + destruct (IH (resolved +:+ " " +:+ token) cs Hrest) as (cs' & Hrun & Hsame).
      exists cs'. rewrite Hrun. split; [|done].
      destruct (substitute_all _ cs rest); [|done].
      by rewrite !append_assoc.
Qed.

(** What [resolve_references] computes.  It replaces the formula of the
    address by [substituted] for the pattern "letters of either case, then
    digits": those tokens are looked up, at the coordinate that
    [address_to_coords] reads from them, and replaced by the integer found
    there, the others are kept, each piece after one space, and the result
    is the sentinel as soon as one looked-up coordinate is absent or holds
    no integer.  The grid reads the same afterwards, and so do the
    dependents of the address and the entries of the other addresses.  (The
    rows of the address tokens are assumed to fit [int].) *)
Theorem resolve_references_substitutes address s :
  rows_readable (formula_of (dependencies s) address) →
  ∃ s',
    resolve_references address s = Some s' ∧
    formula_of (dependencies s') address =
      substituted is_letter_number_format (cells s)
        (formula_of (dependencies s) address) ∧
    dependents (dependencies s') address = dependents (dependencies s) address ∧
    (∀ other, other ≠ address →
              dependencies s' !! other = dependencies s !! other) ∧
    (∀ coords, cell_at (cells s') coords = cell_at (cells s) coords).
Proof.
  intros Hrows. unfold resolve_references.
  destruct (resolve_tokens_spec _ EmptyString (cells s) Hrows)
    as (cs' & Hrun & Hsame).
  rewrite Hrun. eexists. split; [done|]. simpl.
  split; [|split; [|split; [|done]]].
  - unfold formula_of at 1. rewrite lookup_insert_eq.
    unfold substituted. by destruct (substitute_all _ _ _).
  - unfold dependents at 1. by rewrite lookup_insert_eq.
  - intros other Hne. by rewrite lookup_insert_ne.
Qed.

Lemma resolve_references_substitutes_witness :
  ∃ s', resolve_references "B0" (load "5,A0 2 *") = Some s' ∧
        formula_of (dependencies s') "B0" = " 5 2 *"%string.
Proof.
  destruct (resolve_references_substitutes "B0" (load "5,A0 2 *"))
    as (s' & Hrun & Hformula & _).
  - intros token Htoken Hfmt.
    assert (tokens (formula_of (dependencies (load "5,A0 2 *")) "B0")
            = ["A0"; "2"; "*"]%string) as Htoks by reflexivity.
    rewrite Htoks in Htoken.
    apply list_elem_of_In in Htoken.
    destruct Htoken as [<-|[<-|[<-|[]]]];
      [by eexists | discriminate Hfmt | discriminate Hfmt].
  - exists s'. split; [done|]. rewrite Hformula. reflexivity.
Defined.

(** With the uppercase pattern in place of the code's the equation fails:
    the token [a0] is looked up as well, and here the formula becomes the
    sentinel instead of keeping [a0]. *)
Lemma resolve_references_not_uppercase_only :
  ¬ (∀ address s s',
       resolve_references address s = Some s' →
       formula_of (dependencies s') address =
         substituted is_upper_address (cells s)
           (formula_of (dependencies s) address)).
Proof.
  intros H.
  destruct (resolve_references "A0" (load "a0 1 +")) as [s'|] eqn:Hrun;
    [|by vm_compute in Hrun].
  specialize (H _ _ _ Hrun).
  assert (formula_of (dependencies s') "A0" = "#ERR"%string) as Hcode.
  { vm_compute in Hrun. injection Hrun as <-. reflexivity. }
  rewrite Hcode in H. by vm_compute in H.
Qed.

(** * Loading *)

Lemma formula_of_push a deps t k :
  formula_of (push_dependent a deps t) k = formula_of deps k.
Proof.
  unfold push_dependent. destruct (is_letter_number_format t); [|done].
  unfold formula_of at 1.
  destruct (decide (t = k)) as [->|Hne];
    [by rewrite lookup_insert_eq | by rewrite lookup_insert_ne].
Qed.

Lemma dependents_push a deps t k w :
  w ∈ dependents (push_dependent a deps t) k ↔
  w ∈ dependents deps k ∨ (w = a ∧ k = t ∧ is_letter_number_format t = true).
Proof.
  unfold push_dependent. destruct (is_letter_number_format t); [|naive_solver].
  unfold dependents at 1.
  destruct (decide (t = k)) as [->|Hne].
  - rewrite lookup_insert_eq, elem_of_app, list_elem_of_singleton. naive_solver.
  - rewrite lookup_insert_ne by done. naive_solver.
Qed.

Lemma dom_push a deps t k :
  k ∈ dom (push_dependent a deps t) ↔
  k ∈ dom deps ∨ (k = t ∧ is_letter_number_format t = true).
Proof.
  unfold push_dependent. destruct (is_letter_number_format t); [|naive_solver].
  rewrite dom_insert. set_solver.
Qed.

Lemma formula_of_fold_push a toks deps k :
  formula_of (fold_left (push_dependent a) toks deps) k = formula_of deps k.
Proof.
  revert deps. induction toks as [|t toks IH]; intros deps; simpl; [done|].
  by rewrite IH, formula_of_push.
Qed.

Lemma dependents_fold_push a toks deps k w :
  w ∈ dependents (fold_left (push_dependent a) toks deps) k ↔
  w ∈ dependents deps k ∨
  (w = a ∧ k ∈ toks ∧ is_letter_number_format k = true).
Proof.
  revert deps. induction toks as [|t toks IH]; intros deps; simpl.
  - rewrite elem_of_nil. naive_solver.
  - rewrite IH, dependents_push, elem_of_cons. naive_solver.
Qed.

Lemma dom_fold_push a toks deps k :
  k ∈ dom (fold_left (push_dependent a) toks deps) ↔
  k ∈ dom deps ∨ (k ∈ toks ∧ is_letter_number_format k = true).
Proof.
  revert deps. induction toks as [|t toks IH]; intros deps; simpl.
  - rewrite elem_of_nil. naive_solver.
  - rewrite IH, dom_push, elem_of_cons. naive_solver.
Qed.

Lemma registry_ok_empty : registry_ok ∅.
Proof.
  split.
  - intros x w. unfold edge, dependents. rewrite lookup_empty.
    by intros ?%elem_of_nil.
  - intros c t [Ht _]. unfold formula_of in Ht. rewrite lookup_empty in Ht.
    by apply elem_of_nil in Ht.
Qed.

Lemma registry_ok_parse_tokens coords text s :
  registry_ok (dependencies s) →
  registry_ok (dependencies (parse_tokens coords text s)).
Proof.
  intros [Hclosed Hrefs]. unfold parse_tokens.
  destruct (contains_letter text); [|done]. simpl.
  set (a := coords_to_address coords).
  set (deps1 := <[a := (text, dependents (dependencies s) a)]> (dependencies s)).
  assert (∀ k, dependents deps1 k = dependents (dependencies s) k) as Hdeps1.
  { intros k. unfold deps1, dependents at 1.
    destruct (decide (a = k)) as [->|Hne];
      [by rewrite lookup_insert_eq | by rewrite lookup_insert_ne]. }
  assert (∀ k, k ≠ a → formula_of deps1 k = formula_of (dependencies s) k)
    as Hform1.
  { intros k Hne. unfold deps1, formula_of at 1. by rewrite lookup_insert_ne. }
  assert (formula_of deps1 a = text) as Hforma.
  { unfold deps1, formula_of. by rewrite lookup_insert_eq. }
  assert (∀ k, k ∈ dom deps1 ↔ k = a ∨ k ∈ dom (dependencies s)) as Hdom1.
  { intros k. unfold deps1. rewrite dom_insert. set_solver. }
  split.
  - intros x w. unfold edge.
    rewrite dependents_fold_push, dom_fold_push, Hdeps1, Hdom1.
    intros [Hw|(-> & _)]; [|by auto].
    left. right. by eapply Hclosed.
  - intros c t [Ht Hfmt]. unfold edge.
    rewrite formula_of_fold_push in Ht.
    rewrite dependents_fold_push, dom_fold_push, Hdeps1, Hdom1.
    destruct (decide (c = a)) as [->|Hne].
    + rewrite Hforma in Ht. auto.
    + rewrite Hform1 in Ht by done.
      destruct (Hrefs c t) as [Hin Hedge]; [done|]. auto.
Qed.

Lemma registry_ok_parse_row row row_cells col s :
  registry_ok (dependencies s) →
  registry_ok (dependencies (parse_row row col row_cells s)).
Proof.
  revert col s. induction row_cells as [|cell rest IH]; intros col s H; [done|].
  simpl. by apply IH, registry_ok_parse_tokens.
Qed.

Lemma registry_ok_parse_lines lines row s :
  registry_ok (dependencies s) →
  registry_ok (dependencies (parse_lines row lines s)).
Proof.
  revert row s. induction lines as [|line rest IH]; intros row s H; [done|].
  simpl. by apply IH, registry_ok_parse_row.
Qed.

Lemma registry_ok_load contents : registry_ok (dependencies (load contents)).
Proof. apply registry_ok_parse_lines, registry_ok_empty. Qed.

Lemma loaded_parse_tokens P coords text s :
  P coords text → loaded P s → loaded P (parse_tokens coords text s).
Proof.
  intros HP (Hedges & Hformulas & Hcells). unfold parse_tokens.
  destruct (contains_letter text) eqn:Hletter.
  - simpl. set (a0 := coords_to_address coords).
    set (deps1 := <[a0 := (text, dependents (dependencies s) a0)]> (dependencies s)).
    assert (text ≠ EmptyString) as Htext by (by destruct text).
    assert (∀ k, dependents deps1 k = dependents (dependencies s) k) as Hdeps1.
    { intros k. unfold deps1, dependents at 1.
      destruct (decide (a0 = k)) as [->|Hne];
        [by rewrite lookup_insert_eq | by rewrite lookup_insert_ne]. }
    assert (∀ k, k ≠ a0 → formula_of deps1 k = formula_of (dependencies s) k)
      as Hform1.
    { intros k Hne. unfold deps1, formula_of at 1. by rewrite lookup_insert_ne. }
    assert (formula_of deps1 a0 = text) as Hforma.
    { unfold deps1, formula_of. by rewrite lookup_insert_eq. }
    split_and!; simpl.
    + intros x a. unfold edge.
      rewrite dependents_fold_push, formula_of_fold_push, Hdeps1.
      intros [Hold|(-> & Hx & Hfmt)].
      * destruct (Hedges x a Hold) as [Hne Hwit]. split; [|done].
        destruct (decide (a = a0)) as [->|Hne0];
          [by rewrite Hforma | by rewrite Hform1].
      * rewrite Hforma. split; [done|]. by exists coords, text.
    + intros a. rewrite formula_of_fold_push.
      destruct (decide (a = a0)) as [->|Hne0].
      * rewrite Hforma. intros _. by exists coords.
      * rewrite Hform1 by done. apply Hformulas.
    + done.
  - split_and!; simpl; [done..|].
    intros coords' v. rewrite cell_at_set_cell.
    case_decide as Heq; [|by apply Hcells].
    intros [= <-]. subst coords'. by exists text.
Qed.

Lemma loaded_parse_row P row row_cells col s :
  (∀ j t, row_cells !! j = Some t → P (col + Z.of_nat j, row) t) →
  loaded P s → loaded P (parse_row row col row_cells s).
Proof.
  revert col s. induction row_cells as [|cell rest IH]; intros col s HP Hs;
    [done|].
  simpl. apply IH.
  - intros j t Hj. replace (col + 1 + Z.of_nat j) with (col + Z.of_nat (S j))
      by lia. by apply HP.
  - apply loaded_parse_tokens; [|done].
    replace col with (col + Z.of_nat 0) by lia. by apply HP.
Qed.

Lemma loaded_parse_lines P lines row s :
  (∀ i line j t, lines !! i = Some line → getlines "," line !! j = Some t →
                 P (Z.of_nat j, row + Z.of_nat i) t) →
  loaded P s → loaded P (parse_lines row lines s).
Proof.
  revert row s. induction lines as [|line rest IH]; intros row s HP Hs; [done|].
  simpl. apply IH.
  - intros i line' j t Hi Hj.
    replace (row + 1 + Z.of_nat i) with (row + Z.of_nat (S i)) by lia.
    by apply (HP (S i) line').
  - apply loaded_parse_row; [|done].
    intros j t Hj. replace row with (row + Z.of_nat 0) by lia.
    replace (0 + Z.of_nat j) with (Z.of_nat j) by lia.
    by apply (HP 0%nat line).
Qed.

Lemma loaded_load contents :
  loaded (λ coords t, text_at (getlines "010" contents) coords = Some t)
         (load contents).
Proof.
  apply loaded_parse_lines.
  - intros i line j t Hi Hj. unfold text_at. cbn [fst snd].
    rewrite !(proj2 (Z.leb_le _ _)) by lia.
    replace (Z.to_nat (0 + Z.of_nat i)) with i by lia.
    rewrite Nat2Z.id. cbn. by rewrite Hi.
  - split_and!.
    + intros x a. unfold edge, dependents. simpl. rewrite lookup_empty.
      by intros ?%elem_of_nil.
    + intros a. unfold formula_of. simpl. by rewrite lookup_empty.
    + intros coords v. simpl. by rewrite cell_at_empty.
Qed.

Lemma text_at_within contents col row t :
  within_column_Z contents = true →
  text_at (getlines "010" contents) (col, row) = Some t →
  0 ≤ col < 26 ∧ 0 ≤ row ≤ INT_MAX.
Proof.
  unfold within_column_Z, text_at. cbn [fst snd].
  intros [Hrows Hcols]%andb_prop Htext.
  destruct ((0 <=? col) && (0 <=? row)) eqn:Hpos; [|done].
  destruct (getlines "010" contents !! Z.to_nat row) as [line|] eqn:Hline;
    [|done].
  pose proof (lookup_lt_Some _ _ _ Hline) as Hrow.
  pose proof (lookup_lt_Some _ _ _ Htext) as Hcol.
  rewrite forallb_forall in Hcols.
  apply list_elem_of_lookup_2, list_elem_of_In, Hcols in Hline.
  apply Nat.leb_le in Hline. unfold INT_MAX. lia.
Qed.

(** * The traversal *)

Lemma edge_source_in_dom deps x w : edge deps x w → x ∈ dom deps.
Proof.
  unfold edge, dependents. intros H. apply elem_of_dom.
  destruct (deps !! x); [done | by apply elem_of_nil in H].
Qed.

Lemma topo_sorted_precedes deps l x w :
  topo_sorted deps l → x ∈ l → edge deps x w → precedes l x w.
Proof.
  induction l as [|y l IH]; intros Hsorted Hx Hedge.
  - by apply elem_of_nil in Hx.
  - destruct Hsorted as [Hy Hl].
    apply elem_of_cons in Hx as [->|Hx].
    + apply Hy, list_elem_of_split in Hedge as (l2 & l3 & ->).
      by exists [], l2, l3.
    + destruct (IH Hl Hx Hedge) as (l1 & l2 & l3 & ->).
      by exists (y :: l1), l2, l3.
Qed.

Section traversal.
Variable deps : gmap string (string * list string).
Hypothesis closed : ∀ x w, edge deps x w → w ∈ dom deps.

Lemma unmarked_enter x st :
  x ∈ dom deps → x ∉ marked st →
  (unmarked deps (dfs_enter x st) < unmarked deps st)%nat.
Proof.
  intros Hx Hmk. unfold unmarked. apply subset_size. simpl. set_solver.
Qed.

Lemma unmarked_mono st st' :
  (∀ y, y ∈ marked st → y ∈ marked st') →
  (unmarked deps st' ≤ unmarked deps st)%nat.
Proof. intros H. unfold unmarked. apply subseteq_size. set_solver. Qed.

Lemma unmarked_bound st : (unmarked deps st ≤ size deps)%nat.
Proof.
  unfold unmarked. rewrite <- (size_dom (D := gset string) deps).
  apply subseteq_size. set_solver.
Qed.

(** With fuel above the number of unmarked keys the traversal returns, on
    any graph. *)
Lemma dfs_children_total rec (fuel : nat) x ws st has_cycle :
  (∀ w st0,
     w ∈ dom deps → w ∉ marked st0 → (unmarked deps st0 ≤ fuel)%nat →
     tidy deps st0 →
     ∃ b st', rec w st0 = Some (b, st') ∧ extends st0 st' ∧ tidy deps st') →
  (∀ w, w ∈ ws → w ∈ dom deps) →
  (unmarked deps st ≤ fuel)%nat →
  tidy deps st → x ∈ marked st → x ∉ res st →
  ∃ b st',
    dfs_children rec x ws has_cycle st = Some (b, st') ∧
    (∀ y, y ∈ marked st → y ∈ marked st') ∧
    (∀ y, y ∈ res st' ↔
          y ∈ res st ∨ y = x ∨ (y ∈ marked st' ∧ y ∉ marked st)) ∧
    tidy deps st'.
Proof.
  intros Hrec. revert st has_cycle.
  induction ws as [|w ws IH];
    intros st has_cycle Hws Hfuel (Hnd & Hsub & Hdom) Hx Hfresh; simpl.
  - eexists _, _. split; [done|]. simpl. split_and!; [done| |].
    + intros y. rewrite elem_of_cons. naive_solver.
    + split_and!; simpl; [by apply NoDup_cons | | done].
      intros y [->|Hy]%elem_of_cons; auto.
  - assert (∀ w', w' ∈ ws → w' ∈ dom deps) as Hws'
      by (intros w' Hw'; apply Hws; by right).
    destruct (decide (w ∈ recStack st)).
    { eexists _, _. split; [done|]. simpl. split_and!; [done| |].
      - intros y. rewrite elem_of_cons. naive_solver.
      - split_and!; simpl; [by apply NoDup_cons | | done].
        intros y [->|Hy]%elem_of_cons; auto. }
    destruct (decide (w ∈ marked st)) as [Hmk|Hmk]; [by apply IH|].
    destruct (Hrec w st) as (b & st1 & Hrun & [Hmono Hres] & Htidy); try done.
    { apply Hws. by left. }
    rewrite Hrun.
    destruct (IH st1 (has_cycle || b))
      as (b2 & st2 & Hrun2 & Hmono2 & Hres2 & Htidy2); try done.
    { etrans; [by apply unmarked_mono | done]. }
    { by apply Hmono. }
    { rewrite Hres. intros [?|[_ ?]]; done. }
    exists b2, st2. split; [done|]. split_and!; [by auto | | done].
    intros y. rewrite Hres2, Hres.
    destruct (decide (y ∈ marked st1)); naive_solver.
Qed.

Lemma dfs_total fuel x st :
  x ∈ dom deps → x ∉ marked st → (unmarked deps st ≤ fuel)%nat →
  tidy deps st →
  ∃ b st', topological_dfs_helper deps fuel x st = Some (b, st') ∧
           extends st st' ∧ tidy deps st' ∧ x ∈ marked st'.
Proof.
  revert x st. induction fuel as [|fuel IH]; intros x st Hx Hmk Hfuel Htidy.
  { pose proof (unmarked_enter x st Hx Hmk). lia. }
  simpl. destruct Htidy as (Hnd & Hsub & Hdom).
  destruct (dfs_children_total (topological_dfs_helper deps fuel) fuel x
              (dependents deps x) (dfs_enter x st) false)
    as (b & st' & Hrun & Hmono & Hres & Htidy').
  - intros w st0 Hw Hw' Hfuel0 Htidy0.
    destruct (IH w st0 Hw Hw' Hfuel0 Htidy0) as (b & st' & ? & ? & ? & _).
    by exists b, st'.
  - intros w Hw. by apply (closed x).
  - pose proof (unmarked_enter x st Hx Hmk). lia.
  - split_and!; simpl; [done | |].
    + intros y Hy. apply elem_of_union. right. by apply Hsub.
    + intros y [->%elem_of_singleton|Hy]%elem_of_union; auto.
  - simpl. apply elem_of_union. left. by apply elem_of_singleton.
  - simpl. intros Hin. by apply Hmk, Hsub.
  - exists b, st'. split; [done|]. simpl in Hmono, Hres.
    assert (x ∈ marked st') as Hx'
      by (apply Hmono, elem_of_union; left; by apply elem_of_singleton).
    split; [|done]. split.
    + intros y Hy. apply Hmono, elem_of_union. by right.
    + intros y. rewrite Hres, elem_of_union, elem_of_singleton.
      destruct (decide (y = x)) as [->|Hne]; [|tauto].
      split; [|tauto]. intros [?|[_|[_ Hout]]]; [by left | by right | ].
      exfalso. apply Hout. by left.
Qed.

Lemma mark_errors_cells l cs cs' :
  mark_errors l cs = Some cs' →
  ∀ coords, cell_at cs' coords = cell_at cs coords ∨
            cell_at cs' coords = Some (State Error).
Proof.
  revert cs. induction l as [|cell rest IH]; intros cs Hrun coords;
    simpl in Hrun.
  - simplify_eq. by left.
  - destruct (address_to_coords cell) as [p|]; [|done].
    destruct (IH _ Hrun coords) as [Hsame|Herr]; [|by right].
    rewrite Hsame, cell_at_set_cell. case_decide; [by right | by left].
Qed.

Lemma mark_errors_returns l cs :
  (∀ k, k ∈ l → is_Some (address_to_coords k)) →
  is_Some (mark_errors l cs).
Proof.
  revert cs. induction l as [|cell rest IH]; intros cs Hl; simpl; [done|].
  destruct (Hl cell) as [p ->]; [by left|].
  apply IH. intros k Hk. apply Hl. by right.
Qed.

(** What the driver returns on any graph: nothing is out of fuel, the
    results are the marked addresses, each once, every key of the order is
    among them, and a coordinate of the grid is as before or holds
    [Error]. *)
Lemma sort_loop_done fuel order st cs :
  (size deps ≤ fuel)%nat →
  (∀ k, k ∈ order → k ∈ dom deps) →
  tidy deps st → (∀ y, y ∈ marked st → y ∈ res st) →
  match sort_loop deps fuel order st cs with
  | Done (st', cs') =>
      tidy deps st' ∧ (∀ y, y ∈ marked st' → y ∈ res st') ∧
      (∀ k, k ∈ order → k ∈ marked st') ∧
      (∀ y, y ∈ marked st → y ∈ marked st') ∧
      (∀ coords, cell_at cs' coords = cell_at cs coords ∨
                 cell_at cs' coords = Some (State Error))
  | Throws => ¬ keys_readable deps
  | OutOfFuel => False
  end.
Proof.
  intros Hfuel. revert st cs.
  induction order as [|key rest IH]; intros st cs Hkeys Htidy Hall; simpl.
  { split_and!; try done. - by intros k ?%elem_of_nil. - by left. }
  assert (∀ k, k ∈ rest → k ∈ dom deps) as Hrest
    by (intros k Hk; apply Hkeys; by right).
  destruct (decide (key ∈ marked st)) as [Hmk|Hmk].
  { specialize (IH st cs Hrest Htidy Hall).
    destruct (sort_loop deps fuel rest st cs) as [[st' cs']| |]; [|done..].
    destruct IH as (? & ? & Hin & Hmono & ?). split_and!; try done.
    intros k [->|Hk]%elem_of_cons; auto. }
  destruct (dfs_total fuel key st)
    as (b & st1 & Hrun & [Hmono1 Hres1] & Htidy1 & Hkey); try done.
  { apply Hkeys. by left. }
  { etrans; [apply unmarked_bound | done]. }
  rewrite Hrun.
  assert (∀ y, y ∈ marked st1 → y ∈ res st1) as Hall1.
  { intros y Hy. apply Hres1.
    destruct (decide (y ∈ marked st)); [left; by apply Hall | by right]. }
  assert (∀ cs1,
            (∀ coords, cell_at cs1 coords = cell_at cs coords ∨
                       cell_at cs1 coords = Some (State Error)) →
            match sort_loop deps fuel rest st1 cs1 with
            | Done (st', cs') =>
                tidy deps st' ∧ (∀ y, y ∈ marked st' → y ∈ res st') ∧
                (∀ k, k ∈ key :: rest → k ∈ marked st') ∧
                (∀ y, y ∈ marked st → y ∈ marked st') ∧
                (∀ coords, cell_at cs' coords = cell_at cs coords ∨
                           cell_at cs' coords = Some (State Error))
            | Throws => ¬ keys_readable deps
            | OutOfFuel => False
            end) as Hnext.
  { intros cs1 Hcs1. specialize (IH st1 cs1 Hrest Htidy1 Hall1).
    destruct (sort_loop deps fuel rest st1 cs1) as [[st' cs']| |]; [|done..].
    destruct IH as (? & ? & Hin & Hmono & Hcells). split_and!; try done.
    - intros k [->|Hk]%elem_of_cons; auto.
    - auto.
    - intros coords. destruct (Hcells coords) as [->|?]; [apply Hcs1 | by right]. }
  destruct b; [|apply Hnext; by left].
  destruct (mark_errors (res st1) cs) as [cs1|] eqn:Hmark.
  - apply Hnext. by eapply mark_errors_cells.
  - intros Hreadable.
    destruct (mark_errors_returns (res st1) cs) as [? Hsome];
      [|by rewrite Hsome in Hmark].
    intros k Hk. destruct Htidy1 as (_ & Hsub1 & Hdom1). auto.
Qed.

Lemma sort_loop_fuel_suffices fuel order st cs :
  (size deps ≤ fuel)%nat →
  (∀ k, k ∈ order → k ∈ dom deps) →
  tidy deps st → (∀ y, y ∈ marked st → y ∈ res st) →
  sort_loop deps fuel order st cs ≠ OutOfFuel.
Proof.
  intros Hfuel Hkeys Htidy Hall Hrun.
  pose proof (sort_loop_done fuel order st cs Hfuel Hkeys Htidy Hall) as H.
  by rewrite Hrun in H.
Qed.

Section without_cycle.
Hypothesis no_cycle : acyclic deps.

Lemma dfs_children_acyclic rec (fuel : nat) x ws st :
  (∀ w st0,
     dfs_inv deps st0 → w ∈ dom deps → w ∉ marked st0 →
     (∀ r, r ∈ recStack st0 → rtc (edge deps) r w) →
     (unmarked deps st0 ≤ fuel)%nat →
     ∃ st', rec w st0 = Some (false, st') ∧ recStack st' = recStack st0 ∧
            visits deps w st0 (rec w st0)) →
  dfs_inv deps st → x ∈ recStack st →
  (∀ r, r ∈ recStack st → rtc (edge deps) r x) →
  (∀ w, w ∈ ws → edge deps x w) →
  (∀ w, edge deps x w → w ∈ ws ∨ w ∈ res st) →
  (unmarked deps st ≤ fuel)%nat →
  ∃ st', dfs_children rec x ws false st = Some (false, st') ∧
         recStack st' = recStack st ∖ {[x]} ∧
         visits deps x st (dfs_children rec x ws false st).
Proof.
  intros Hrec. revert st.
  induction ws as [|w ws IH]; intros st Hinv Hx Hpath Hws Hdone Hfuel; simpl.
  - eexists. split; [done|]. split; [done|].
    eexists. split; [done|]. simpl.
    destruct Hinv as (Hm & Hnd & Hdisj & Htopo & Hdom).
    repeat split; simpl; try done.
    + rewrite Hm. intros [Hy|Hy].
      * left. by right.
      * destruct (decide (y = x)) as [->|Hne]; [left; by left|].
        right. set_solver.
    + rewrite elem_of_cons. intros [[->|Hy]|Hy].
      * apply Hm. by right.
      * apply Hm. by left.
      * apply Hm. right. set_solver.
    + apply NoDup_cons. split; [|done]. intros Hin. by apply (Hdisj x).
    + intros y [->|Hy]%elem_of_cons; [set_solver|].
      intros Hin. apply (Hdisj y Hy). set_solver.
    + intros w Hw. destruct (Hdone w Hw) as [Hin|Hin]; [|done].
      by apply elem_of_nil in Hin.
    + by left.
    + intros y Hy. by right.
  - assert (edge deps x w) as Hxw by (apply Hws; by left).
    destruct (decide (w ∈ recStack st)) as [Hin|Hout].
    { exfalso. apply (no_cycle x).
      eapply tc_rtc_r; [by apply tc_once | by apply Hpath]. }
    assert (∀ w', w' ∈ ws → edge deps x w') as Hws'
      by (intros w' Hw'; apply Hws; by right).
    destruct (decide (w ∈ marked st)) as [Hmk|Hmk].
    { apply IH; try done.
      intros w' Hw'. destruct (Hdone w' Hw') as [[->|Hin]%elem_of_cons|Hin];
        [|by left|by right].
      right. destruct Hinv as (Hm & _). apply Hm in Hmk as [?|?]; done. }
    destruct (Hrec w st) as (st1 & Hrun & Hstack & st1' & Hrun' & Hinv1 & Hmono & Hw & Hres);
      try done.
    { by apply (closed x). }
    { intros r Hr. eapply rtc_r; [by apply Hpath | done]. }
    rewrite Hrun in Hrun'. simplify_eq. rewrite Hrun. simpl.
    destruct (IH st1') as (st2 & Hrun2 & Hstack2 & st2' & Hrun2' & Hinv2 & Hmono2 & Hx2 & Hres2);
      try done.
    { by rewrite Hstack. }
    { intros r. rewrite Hstack. apply Hpath. }
    { intros w' Hw'. destruct (Hdone w' Hw') as [[->|Hin]%elem_of_cons|Hin];
        [by right | by left | right; by apply Hres]. }
    { etrans; [by apply unmarked_mono | done]. }
    rewrite Hrun2 in Hrun2'. simplify_eq.
    exists st2'. split; [done|]. split; [by rewrite Hstack2, Hstack|].
    exists st2'. split_and!; try done.
    + intros y Hy. by apply Hmono2, Hmono.
    + intros y Hy. by apply Hres2, Hres.
Qed.

Lemma dfs_acyclic fuel x st :
  dfs_inv deps st → x ∈ dom deps → x ∉ marked st →
  (∀ r, r ∈ recStack st → rtc (edge deps) r x) →
  (unmarked deps st ≤ fuel)%nat →
  ∃ st', topological_dfs_helper deps fuel x st = Some (false, st') ∧
         recStack st' = recStack st ∧
         visits deps x st (topological_dfs_helper deps fuel x st).
Proof.
  revert x st.
  induction fuel as [|fuel IH]; intros x st Hinv Hx Hmk Hpath Hfuel.
  { pose proof (unmarked_enter x st Hx Hmk). lia. }
  simpl.
  assert (x ∉ recStack st) as Hstack.
  { intros Hin. apply Hmk. destruct Hinv as (Hm & _). apply Hm. by right. }
  assert (x ∉ res st) as Hres.
  { intros Hin. apply Hmk. destruct Hinv as (Hm & _). apply Hm. by left. }
  destruct (dfs_children_acyclic (topological_dfs_helper deps fuel) fuel x
              (dependents deps x) (dfs_enter x st))
    as (st1 & Hrun & Hstack1 & st1' & Hrun' & Hinv1 & Hmono & Hx1 & Hres1).
  - intros w st0 ? ? ? ? ?. by apply IH.
  - destruct Hinv as (Hm & Hnd & Hdisj & Htopo & Hdom).
    repeat split; simpl; try done.
    + specialize (Hm y). set_solver.
    + specialize (Hm y). set_solver.
    + intros y Hy Hin. apply elem_of_union in Hin as [->%elem_of_singleton|Hin];
        [done | by apply (Hdisj y)].
    + intros y [->%elem_of_singleton|Hy]%elem_of_union; [done | by apply Hdom].
  - simpl. set_solver.
  - simpl. intros r [->%elem_of_singleton|Hr]%elem_of_union;
      [done | by apply Hpath].
  - done.
  - intros w Hw. by left.
  - pose proof (unmarked_enter x st Hx Hmk). lia.
  - rewrite Hrun in Hrun'. simplify_eq.
    exists st1'. split; [done|]. split.
    + rewrite Hstack1. simpl. set_solver.
    + exists st1'. split_and!; try done.
      intros y Hy. apply Hmono. simpl. set_solver.
Qed.

Lemma sort_loop_acyclic fuel order st cs :
  (size deps ≤ fuel)%nat →
  dfs_inv deps st → recStack st = ∅ →
  (∀ k, k ∈ order → k ∈ dom deps) →
  ∃ st', sort_loop deps fuel order st cs = Done (st', cs) ∧
         dfs_inv deps st' ∧ recStack st' = ∅ ∧
         (∀ y, y ∈ marked st → y ∈ marked st') ∧
         (∀ k, k ∈ order → k ∈ marked st').
Proof.
  intros Hfuel. revert st.
  induction order as [|key rest IH]; intros st Hinv Hstack Hkeys; simpl.
  - exists st. split_and!; try done. by intros k ?%elem_of_nil.
  - assert (∀ k, k ∈ rest → k ∈ dom deps) as Hrest
      by (intros k Hk; apply Hkeys; by right).
    destruct (decide (key ∈ marked st)) as [Hmk|Hmk].
    + destruct (IH st) as (st' & Hrun & Hinv' & Hstack' & Hmono & Hall);
        try done.
      exists st'. split_and!; try done.
      intros k [->|Hk]%elem_of_cons; [by apply Hmono | by apply Hall].
    + destruct (dfs_acyclic fuel key st)
        as (st1 & Hrun & Hstack1 & st1' & Hrun' & Hinv1 & Hmono1 & Hkey & _);
        try done.
      { apply Hkeys. by left. }
      { intros r. rewrite Hstack. by intros ?%elem_of_empty. }
      { etrans; [apply unmarked_bound | done]. }
      rewrite Hrun in Hrun'. simplify_eq. rewrite Hrun.
      destruct (IH st1') as (st' & Hrun2 & Hinv' & Hstack' & Hmono & Hall);
        try done.
      { by rewrite Hstack1. }
      exists st'. split_and!; try done.
      * intros y Hy. by apply Hmono, Hmono1.
      * intros k [->|Hk]%elem_of_cons; [|by apply Hall].
        apply Hmono. destruct Hinv1 as (Hm & _). apply Hm. by left.
Qed.
End without_cycle.
End traversal.

(** The order of the keys.  When the dependency graph built by loading
    has no cycle, the driver returns, whatever the order in which it visits
    the keys, a list that holds every key once and in which every key comes
    before each of its dependents: the key of a formula comes after every
    key that the formula mentions.  This orders the spellings of the
    addresses, not the cells that [address_to_coords] reads from them.  The
    grid is left as loading built it. *)
Theorem topological_order_respects_references contents order :
  order ≡ₚ keys_of (load contents) →
  acyclic (dependencies (load contents)) →
  ∃ sorted,
    topological_sort_dependencies order (load contents)
      = Done (sorted, load contents) ∧
    resolve_dependencies order (load contents)
      = or_throws (resolve_loop sorted (load contents)) ∧
    sorted ≡ₚ keys_of (load contents) ∧
    (∀ x w, edge (dependencies (load contents)) x w → precedes sorted x w) ∧
    (∀ c t, references (dependencies (load contents)) c t →
            precedes sorted t c).
Proof.
  set (s := load contents). intros Horder Hacyclic.
  destruct (registry_ok_load contents) as [Hclosed Hrefs]. fold s in Hclosed, Hrefs.
  assert (∀ k, k ∈ order ↔ k ∈ dom (dependencies s)) as Hkeys.
  { intros k. rewrite Horder. unfold keys_of. apply elem_of_elements. }
  destruct (sort_loop_acyclic (dependencies s) Hclosed Hacyclic
              (S (size (dependencies s))) order (mkDfs ∅ ∅ []) (cells s))
    as (st & Hrun & (Hm & Hnd & _ & Htopo & Hdom) & Hstack & _ & Hall).
  - lia.
  - unfold dfs_inv. simpl. split_and!; try done.
    + set_solver.
    + apply NoDup_nil_2.
  - done.
  - intros k. apply Hkeys.
  - assert (∀ k, k ∈ res st ↔ k ∈ dom (dependencies s)) as Hres.
    { intros k. split.
      - intros Hk. apply Hdom, Hm. by left.
      - intros Hk. apply Hkeys, Hall, Hm in Hk as [Hk|Hk]; [done|].
        rewrite Hstack in Hk. by apply elem_of_empty in Hk. }
    assert (topological_sort_dependencies order s = Done (res st, s)) as Hsort.
    { unfold topological_sort_dependencies. rewrite Hrun. simpl.
      by destruct s. }
    exists (res st). split; [done|]. split.
    { unfold resolve_dependencies. by rewrite Hsort. }
    split.
    { apply NoDup_Permutation; [done | unfold keys_of; apply NoDup_elements |].
      intros k. rewrite Hres. unfold keys_of. symmetry. apply elem_of_elements. }
    assert (∀ x w, edge (dependencies s) x w → precedes (res st) x w) as Hedges.
    { intros x w Hedge. apply (topo_sorted_precedes (dependencies s)); try done.
      by apply Hres, (edge_source_in_dom _ x w). }
    split; [done|].
    intros c t Href. by apply Hedges, Hrefs.
Qed.

Lemma rank_grows_along_paths deps (rank : string → nat) x y :
  (∀ a b, edge deps a b → (rank a < rank b)%nat) →
  tc (edge deps) x y → (rank x < rank y)%nat.
Proof.
  intros Hrank Hpath.
  induction Hpath as [x y Hxy|x y z Hxy _ IH].
  - by apply Hrank.
  - specialize (Hrank x y Hxy). lia.
Qed.

Lemma ranked_acyclic deps rank : ranked deps rank = true → acyclic deps.
Proof.
  intros Hranked x Hcycle.
  enough ((rank x < rank x)%nat) by lia.
  apply (rank_grows_along_paths deps); [|done].
  intros a b Hab. unfold edge, dependents in Hab.
  destruct (deps !! a) as [[f ds]|] eqn:Ha; [|by apply elem_of_nil in Hab].
  unfold ranked in Hranked. rewrite forallb_forall in Hranked.
  apply elem_of_map_to_list, list_elem_of_In, Hranked in Ha.
  rewrite forallb_forall in Ha.
  apply list_elem_of_In, Ha in Hab. by apply Nat.ltb_lt in Hab.
Qed.

Lemma topological_order_respects_references_witness :
  ∃ sorted,
    topological_sort_dependencies ["B0"; "A0"] (load "5,A0 2 *")
      = Done (sorted, load "5,A0 2 *") ∧
    precedes sorted "A0" "B0".
Proof.
  destruct (topological_order_respects_references "5,A0 2 *" ["B0"; "A0"])
    as (sorted & Hrun & _ & _ & _ & Hrefs).
  - change (keys_of (load "5,A0 2 *")) with ["A0"; "B0"]. apply perm_swap.
  - apply (ranked_acyclic _ (λ a, if String.eqb a "B0" then 1 else 0)%nat).
    reflexivity.
  - exists sorted. split; [done|]. apply Hrefs. split; [|reflexivity].
    change (tokens (formula_of (dependencies (load "5,A0 2 *")) "B0"))
      with ["A0"; "2"; "*"]. by left.
Defined.

Lemma grid_never_holds_empty_witness :
  cell_at (cells (parse_tokens (2, 0) "  " clear)) (2, 0) = Some (State Error) ∧
  ∃ s v, parse_input ["A0"; "B0"] "5,A0 2 *" = Done s ∧
         cell_at (cells s) (1, 0) = Some v ∧
         ((∃ n, v = Int n) ∨ v = State Error).
Proof.
  split.
  - apply (proj2 (proj2 grid_never_holds_empty)). reflexivity.
  - destruct (parse_input ["A0"; "B0"] "5,A0 2 *") as [s| |] eqn:Hrun;
      [|by vm_compute in Hrun..].
    assert (cell_at (cells s) (1, 0) = Some (Int 10)) as Hcell.
    { vm_compute in Hrun. injection Hrun as <-. reflexivity. }
    exists s, (Int 10). split_and!; [done..|].
    by apply (proj1 (proj2 grid_never_holds_empty) _ _ s Hrun (1, 0)).
Defined.

(** The fuel given by the driver is always enough: a run ends normally
    or by an exception. *)
Lemma parse_input_fuel_suffices order contents :
  (∀ k, k ∈ order → k ∈ keys_of (load contents)) →
  parse_input order contents ≠ OutOfFuel.
Proof.
  intros Hkeys. unfold parse_input, resolve_dependencies,
    topological_sort_dependencies.
  destruct (registry_ok_load contents) as [Hclosed _].
  pose proof (sort_loop_fuel_suffices (dependencies (load contents)) Hclosed
                (S (size (dependencies (load contents)))) order
                (mkDfs ∅ ∅ []) (cells (load contents))) as Hfuel.
  destruct (sort_loop _ _ _ _ _) as [[st cs]| |]; simpl.
  - by destruct (resolve_loop _ _).
  - done.
  - exfalso. apply Hfuel; [lia | | | done | done].
    + intros k Hk. apply Hkeys in Hk. unfold keys_of in Hk.
      by apply elem_of_elements in Hk.
    + split_and!; simpl; [apply NoDup_nil_2 | by intros y ?%elem_of_nil |].
      by intros y ?%elem_of_empty.
Qed.

(** * Undefined references *)

(** Replace the keys of a loaded text by their value, and split a
    permutation of two keys into its two cases. *)
Ltac eval_keys H :=
  match type of H with
  | _ ≡ₚ ?k => let v := eval vm_compute in k in change k with v in H
  end.

Ltac two_orders H :=
  eval_keys H; symmetry in H;
  apply Permutation_length_2_inv in H as [->| ->].

Lemma substitute_all_no_integer cs toks token target :
  token ∈ toks → is_letter_number_format token = true →
  address_to_coords token = Some target →
  (∀ n, cell_at cs target ≠ Some (Int n)) →
  substitute_all is_letter_number_format cs toks = None.
Proof.
  intros Hin Hfmt Hcoords Hcell.
  induction toks as [|t toks IH]; [by apply elem_of_nil in Hin|].
  simpl. apply elem_of_cons in Hin as [<-|Hin].
  - unfold substitute_token. rewrite Hfmt, Hcoords.
    destruct (cell_at cs target) as [[n|st]|] eqn:Hv; [|done..].
    by destruct (Hcell n).
  - rewrite IH by done. by destruct (substitute_token _ _ _).
Qed.

Lemma substitute_all_undefined cs toks token target :
  token ∈ toks → is_letter_number_format token = true →
  address_to_coords token = Some target → cell_at cs target = None →
  substitute_all is_letter_number_format cs toks = None.
Proof.
  intros Hin Hfmt Hcoords Hcell.
  apply (substitute_all_no_integer _ _ token target); try done.
  intros n. by rewrite Hcell.
Qed.

(** One step of the resolution loop on an undefined reference: when the
    coordinate read from a mentioned address is absent from the grid, the
    step stores [Error] at the coordinate read from the formula's own
    address and changes no other coordinate.  With A0 = [B5 1 +] as the
    only cell, whatever the order of the keys, the run ends with [Error] at
    A0 as the only entry of the grid and nothing at B5. *)
Theorem undefined_reference_is_error_for_referrer_only :
  (∀ s address token coords target,
     references (dependencies s) address token →
     rows_readable (formula_of (dependencies s) address) →
     address_to_coords token = Some target →
     cell_at (cells s) target = None →
     address_to_coords address = Some coords →
     coords ≠ target →
     ∃ s', resolve_cell address s = Some s' ∧
           cell_at (cells s') coords = Some (State Error) ∧
           cell_at (cells s') target = None ∧
           ∀ other, other ≠ coords →
                    cell_at (cells s') other = cell_at (cells s) other) ∧
  (∀ order,
     order ≡ₚ keys_of (load "B5 1 +") →
     ∃ s, parse_input order "B5 1 +" = Done s ∧
          cell_at (cells s) (0, 0) = Some (State Error) ∧
          cell_at (cells s) (1, 5) = None ∧
          length (grid_entries (cells s)) = 1%nat).
Proof.
  split.
  - intros s address token coords target [Hin Hfmt] Hrows Htoken Hcell Haddr Hne.
    destruct (resolve_references_substitutes address s Hrows)
      as (s1 & Hrun & Hformula & _ & _ & Hsame).
    unfold resolve_cell. rewrite Hrun, Hformula.
    unfold substituted.
    rewrite (substitute_all_undefined _ _ token target) by done. simpl.
    rewrite Haddr. eexists. split; [done|]. simpl.
    split_and!.
    + by rewrite cell_at_set_cell_eq.
    + by rewrite cell_at_set_cell_ne, Hsame.
    + intros other Hother. by rewrite cell_at_set_cell_ne, Hsame.
  - intros order Horder.
    two_orders Horder;
      (eexists; split; [vm_compute; reflexivity|]); split_and!; reflexivity.
Qed.

Lemma undefined_reference_is_error_for_referrer_only_witness :
  ∃ s', resolve_cell "A0" (load "B5 1 +") = Some s' ∧
        cell_at (cells s') (0, 0) = Some (State Error) ∧
        cell_at (cells s') (1, 5) = None.
Proof.
  destruct (proj1 undefined_reference_is_error_for_referrer_only
              (load "B5 1 +") "A0" "B5" (0, 0) (1, 5))
    as (s' & Hrun & Hcell & Htarget & _); try reflexivity.
  - split; [|reflexivity].
    change (tokens (formula_of (dependencies (load "B5 1 +")) "A0"))
      with ["B5"; "1"; "+"]. by left.
  - intros token Htoken Hfmt.
    change (tokens (formula_of (dependencies (load "B5 1 +")) "A0"))
      with ["B5"; "1"; "+"] in Htoken.
    apply list_elem_of_In in Htoken.
    destruct Htoken as [<-|[<-|[<-|[]]]];
      [by eexists | discriminate Hfmt | discriminate Hfmt].
  - done.
  - by exists s'.
Defined.

(** * Cycles *)

(** Scenario C: A0 = [A1 1 +] and A1 = [A0 1 +] both end with [Error],
    whichever key the driver starts from. *)
Lemma two_cell_cycle_is_error order :
  order ≡ₚ keys_of (load "A1 1 +
A0 1 +") →
  ∃ s, parse_input order "A1 1 +
A0 1 +" = Done s ∧
       cell_at (cells s) (0, 0) = Some (State Error) ∧
       cell_at (cells s) (0, 1) = Some (State Error) ∧
       length (grid_entries (cells s)) = 2%nat.
Proof.
  intros Horder.
  two_orders Horder;
    (eexists; split; [vm_compute; reflexivity|]); split_and!; reflexivity.
Qed.

(** C3.  C0 = [5] and D0 = [C0 1 +] have nothing to do with the cycle
    between A0 and B0.  When the driver starts from A0 they get 5 and 6;
    when it reaches the cycle after C0 and D0 were visited, the sweep over
    [res] turns both into [Error], and C0, which has no formula, is never
    computed again. *)
Theorem cycle_sweep_reaches_unrelated_cells :
  let contents := "B0 1 +,A0 1 +,5,C0 1 +"%string in
  let deps := dependencies (load contents) in
  (["A0"; "B0"; "C0"; "D0"] ≡ₚ keys_of (load contents) ∧
   ["C0"; "D0"; "B0"; "A0"] ≡ₚ keys_of (load contents)) ∧
  (dependents deps "A0" = ["B0"] ∧ dependents deps "B0" = ["A0"] ∧
   dependents deps "C0" = ["D0"] ∧ dependents deps "D0" = []) ∧
  (∃ s, parse_input ["A0"; "B0"; "C0"; "D0"] contents = Done s ∧
        cell_at (cells s) (0, 0) = Some (State Error) ∧
        cell_at (cells s) (1, 0) = Some (State Error) ∧
        cell_at (cells s) (2, 0) = Some (Int 5) ∧
        cell_at (cells s) (3, 0) = Some (Int 6)) ∧
  (∃ s, parse_input ["C0"; "D0"; "B0"; "A0"] contents = Done s ∧
        cell_at (cells s) (0, 0) = Some (State Error) ∧
        cell_at (cells s) (1, 0) = Some (State Error) ∧
        cell_at (cells s) (2, 0) = Some (State Error) ∧
        cell_at (cells s) (3, 0) = Some (State Error)).
Proof.
  intros contents deps. split_and!; try reflexivity.
  - change (keys_of (load contents)) with ["C0"; "A0"; "B0"; "D0"].
    solve_Permutation.
  - change (keys_of (load contents)) with ["C0"; "A0"; "B0"; "D0"].
    solve_Permutation.
  - eexists. split; [vm_compute; reflexivity|]. split_and!; reflexivity.
  - eexists. split; [vm_compute; reflexivity|]. split_and!; reflexivity.
Qed.

(** C5.  In a row of 28 cells the last two, AA0 and AB0, mention each
    other.  [col_to_coord] reads [AA] as column 0 and [AB] as column 1, so
    [Error] is written over A0 and B0, which held 1, and the two cells of
    the cycle stay absent from the grid, in every order of the keys. *)
Theorem cycle_past_column_Z_stays_empty :
  let contents :=
    "1,1,1,1,1,1,1,1,1,1,1,1,1,1,1,1,1,1,1,1,1,1,1,1,1,1,AB0 1 +,AA0 1 +"%string in
  let deps := dependencies (load contents) in
  (coords_to_address (26, 0) = "AA0"%string ∧
   coords_to_address (27, 0) = "AB0"%string ∧
   address_to_coords "AA0" = Some (0, 0) ∧
   address_to_coords "AB0" = Some (1, 0)) ∧
  (edge deps "AA0" "AB0" ∧ edge deps "AB0" "AA0") ∧
  (cell_at (cells (load contents)) (0, 0) = Some (Int 1) ∧
   cell_at (cells (load contents)) (1, 0) = Some (Int 1)) ∧
  ∀ order,
    order ≡ₚ keys_of (load contents) →
    ∃ s, parse_input order contents = Done s ∧
         cell_at (cells s) (26, 0) = None ∧
         cell_at (cells s) (27, 0) = None ∧
         cell_at (cells s) (0, 0) = Some (State Error) ∧
         cell_at (cells s) (1, 0) = Some (State Error).
Proof.
  intros contents deps. split_and!; try reflexivity.
  - unfold edge. change (dependents deps "AA0") with ["AB0"]. by left.
  - unfold edge. change (dependents deps "AB0") with ["AA0"]. by left.
  - intros order Horder.
    two_orders Horder;
      (eexists; split; [vm_compute; reflexivity|]); split_and!; reflexivity.
Qed.

(** * Cycles within columns A to Z *)

Lemma resolve_tokens_result toks resolved cs out cs' :
  resolve_tokens toks resolved cs = Some (out, cs') →
  out = match substitute_all is_letter_number_format cs toks with
        | Some o => resolved +:+ o
        | None => "#ERR"%string
        end.
Proof.
  revert resolved cs.
  induction toks as [|token rest IH]; intros resolved cs Hrun; simpl in *.
  - simplify_eq. by rewrite append_empty_r.
  - unfold substitute_token.
    destruct (is_letter_number_format token).
    + destruct (address_to_coords token) as [p|]; [|done].
      rewrite cell_at_touch_column in Hrun.
      destruct (cell_at cs p) as [[n|st]|]; simplify_eq; try done.
      apply IH in Hrun.
      rewrite (substitute_all_ext _ cs (touch_column p.1 cs)) in Hrun
        by apply cell_at_touch_column.
      destruct (substitute_all _ cs rest); [|done].
      by rewrite !append_assoc in Hrun.
    + apply IH in Hrun.
      destruct (substitute_all _ cs rest); [|done].
      by rewrite !append_assoc in Hrun.
Qed.

Lemma resolve_references_result address s s' :
  resolve_references address s = Some s' →
  formula_of (dependencies s') address =
    substituted is_letter_number_format (cells s)
      (formula_of (dependencies s) address) ∧
  (∀ other, other ≠ address →
            formula_of (dependencies s') other
            = formula_of (dependencies s) other) ∧
  (∀ coords, cell_at (cells s') coords = cell_at (cells s) coords).
Proof.
  intros Hrun. pose proof (cell_at_resolve_references _ _ _ Hrun) as Hcells.
  unfold resolve_references in Hrun.
  destruct (resolve_tokens _ _ _) as [[out cs]|] eqn:Htok; [|done].
  simplify_eq. simpl in *. split_and!; [| |done].
  - unfold formula_of at 1. rewrite lookup_insert_eq.
    rewrite (resolve_tokens_result _ _ _ _ _ Htok). unfold substituted.
    by destruct (substitute_all _ _ _).
  - intros other Hne. unfold formula_of. by rewrite lookup_insert_ne.
Qed.

Lemma tc_cycle_pred {A} (R : relation A) a :
  tc R a a → ∃ x, R x a ∧ tc R x x.
Proof.
  assert (∀ b c, tc R b c → ∃ x, rtc R b x ∧ R x c) as Hlast.
  { intros b c Hbc. induction Hbc as [b c Hbc|b y c Hby _ (x & Hyx & Hxc)].
    - by exists b.
    - exists x. split; [by eapply rtc_l | done]. }
  intros Hcycle. destruct (Hlast a a Hcycle) as (x & Hax & Hxa).
  exists x. split; [done|]. eapply tc_rtc_r; [by apply tc_once | done].
Qed.

Section resolution.
Variable deps0 : gmap string (string * list string).
Variable dead : Z * Z → Prop.
Variable on : string → Prop.
Hypothesis on_mentions :
  ∀ c, on c → ∃ x cx, references deps0 c x ∧
                      address_to_coords x = Some cx ∧ dead cx.
Hypothesis on_dead :
  ∀ c coords, on c → address_to_coords c = Some coords → dead coords.
Hypothesis dead_formula_on :
  ∀ k coords,
    formula_of deps0 k ≠ EmptyString → address_to_coords k = Some coords →
    dead coords → on k.

Lemma resolve_cell_resolving k rest s s1 :
  k ∉ rest → resolving deps0 dead on (k :: rest) s →
  resolve_cell k s = Some s1 → resolving deps0 dead on rest s1.
Proof.
  intros Hfresh (Hnoint & Hdone & Hformulas) Hrun. unfold resolve_cell in Hrun.
  destruct (resolve_references k s) as [sr|] eqn:Href; [|done].
  destruct (resolve_references_result _ _ _ Href) as (Hf & Hothers & Hcells).
  rewrite Hformulas in Hf by by left.
  set (f' := formula_of (dependencies sr) k) in *.
  assert (on k → f' = "#ERR"%string) as Hon.
  { intros Hk. destruct (on_mentions k Hk) as (x & cx & [Hin Hfmt] & Hcx & Hx).
    rewrite Hf. unfold substituted.
    rewrite (substitute_all_no_integer _ _ x cx); try done.
    intros n. by apply Hnoint. }
  assert (∀ k', k' ∈ rest → formula_of (dependencies sr) k' = formula_of deps0 k')
    as Hrest.
  { intros k' Hk'. rewrite Hothers by (intros ->; done).
    apply Hformulas. by right. }
  destruct (string_empty f') eqn:Hempty.
  - injection Hrun as <-. split_and!.
    + intros p n Hp. rewrite Hcells. by apply Hnoint.
    + intros c coords Hc Hout Hcoords. rewrite Hcells.
      apply (Hdone c); try done.
      intros [->|?]%elem_of_cons; [|done].
      rewrite (Hon Hc) in Hempty. discriminate Hempty.
    + done.
  - destruct (address_to_coords k) as [ck|] eqn:Hck; [|done].
    injection Hrun as <-.
    assert (formula_of deps0 k ≠ EmptyString) as Hformula.
    { intros Hnil. rewrite Hnil in Hf. rewrite Hf in Hempty.
      discriminate Hempty. }
    assert (dead ck → postfix_value f' = State Error) as Hvalue.
    { intros Hdead. by rewrite (Hon (dead_formula_on k ck Hformula Hck Hdead)). }
    split_and!; simpl.
    + intros p n Hp. rewrite cell_at_set_cell.
      case_decide as Heq; [subst p; by rewrite (Hvalue Hp)|].
      rewrite Hcells. by apply Hnoint.
    + intros c coords Hc Hout Hcoords. rewrite cell_at_set_cell.
      case_decide as Heq.
      { subst coords. by rewrite (Hvalue (on_dead c ck Hc Hcoords)). }
      rewrite Hcells. apply (Hdone c); try done.
      intros [->|?]%elem_of_cons; [|done]. congruence.
    + done.
Qed.

Lemma resolve_loop_resolving l s s' :
  NoDup l → resolving deps0 dead on l s → resolve_loop l s = Some s' →
  resolving deps0 dead on [] s'.
Proof.
  revert s. induction l as [|k rest IH]; intros s Hnd Hs Hrun; simpl in Hrun.
  - by simplify_eq.
  - apply NoDup_cons in Hnd as [Hfresh Hnd].
    destruct (resolve_cell k s) as [s1|] eqn:Hcell; [|done].
    eapply IH; [done | | done]. by eapply resolve_cell_resolving.
Qed.
End resolution.

(** What loading tells about a formula within columns A to Z. *)
Lemma formula_key_address contents a :
  within_column_Z contents = true →
  formula_of (dependencies (load contents)) a ≠ EmptyString →
  ∃ coords,
    text_at (getlines "010" contents) coords
      = Some (formula_of (dependencies (load contents)) a) ∧
    a = coords_to_address coords ∧
    address_to_coords a = Some coords ∧
    contains_letter (formula_of (dependencies (load contents)) a) = true.
Proof.
  intros Hwithin Hformula.
  destruct (loaded_load contents) as (_ & Hformulas & _).
  destruct (Hformulas a Hformula) as ([col row] & Htext & -> & Hletter).
  exists (col, row). split_and!; try done.
  destruct (text_at_within _ _ _ _ Hwithin Htext).
  by apply address_to_coords_to_address.
Qed.

Lemma dependent_mentions contents x a :
  within_column_Z contents = true →
  edge (dependencies (load contents)) x a →
  formula_of (dependencies (load contents)) a ≠ EmptyString ∧
  references (dependencies (load contents)) a x.
Proof.
  intros Hwithin Hedge.
  destruct (loaded_load contents) as (Hedges & _ & _).
  destruct (Hedges x a Hedge) as (Hformula & [col row] & t & Htext & Ha & Hin & Hfmt).
  split; [done|].
  destruct (formula_key_address contents a Hwithin Hformula)
    as (coords & Htext' & _ & Hcoords & _).
  destruct (text_at_within _ _ _ _ Hwithin Htext).
  rewrite Ha, address_to_coords_to_address in Hcoords by done.
  simplify_eq. by split.
Qed.

Lemma references_formula_nonempty deps c x :
  references deps c x → formula_of deps c ≠ EmptyString.
Proof.
  intros [Hin _] Hnil. rewrite Hnil in Hin. by apply elem_of_nil in Hin.
Qed.

Lemma doomed_formula_nonempty contents c :
  within_column_Z contents = true →
  doomed (getlines "010" contents) (dependencies (load contents)) c →
  formula_of (dependencies (load contents)) c ≠ EmptyString.
Proof.
  intros Hwithin [c0 t p Href _ _|c0 t p text Href _ _ _ _|c0 Hcycle
                 |c0 t p c' Href _ _ _];
    try by eapply references_formula_nonempty.
  apply tc_cycle_pred in Hcycle as (x & Hxc & _).
  by destruct (dependent_mentions contents x c0 Hwithin Hxc).
Qed.

(** After loading, a dead coordinate holds no integer. *)
Lemma dead_cell_loaded contents p n :
  within_column_Z contents = true →
  dead_cell (getlines "010" contents) (dependencies (load contents)) p →
  cell_at (cells (load contents)) p ≠ Some (Int n).
Proof.
  intros Hwithin Hdead Hcell.
  destruct (loaded_load contents) as (_ & _ & Hcells).
  destruct (Hcells _ _ Hcell) as (t & Htext & Hplain & Hvalue).
  destruct Hdead as [Hnone|[(text & Htext' & _ & Herror)|(c & Hc & Hcoords)]].
  - congruence.
  - congruence.
  - destruct (formula_key_address contents c Hwithin
                (doomed_formula_nonempty contents c Hwithin Hc))
      as (coords & Htext' & _ & Hcoords' & Hletter).
    congruence.
Qed.

(** Within columns A to Z, whatever the order of the keys, when the run
    ends normally every doomed formula is the formula of an input cell, and
    that cell ends with [Error]: an undefined reference, a reference to a
    failed cell and a cycle all give [Error], and so does every formula that
    mentions such a cell. *)
Theorem doomed_cells_end_as_error contents order s c :
  within_column_Z contents = true →
  order ≡ₚ keys_of (load contents) →
  parse_input order contents = Done s →
  doomed (getlines "010" contents) (dependencies (load contents)) c →
  ∃ coords,
    c = coords_to_address coords ∧
    text_at (getlines "010" contents) coords
      = Some (formula_of (dependencies (load contents)) c) ∧
    cell_at (cells s) coords = Some (State Error).
Proof.
  set (s0 := load contents). set (deps0 := dependencies s0).
  set (lines := getlines "010" contents).
  intros Hwithin Horder Hrun Hc.
  set (on := doomed lines deps0). set (dead := dead_cell lines deps0).
  destruct (registry_ok_load contents) as [Hclosed Hrefs].
  fold s0 deps0 in Hclosed, Hrefs.
  assert (∀ c, on c → formula_of deps0 c ≠ EmptyString) as Hon_formula
    by (intros c0; by apply doomed_formula_nonempty).
  assert (∀ c coords, on c → address_to_coords c = Some coords → dead coords)
    as Hon_dead.
  { intros c0 coords Hc0 Hcoords. right. right. by exists c0. }
  assert (∀ c, on c → ∃ x cx, references deps0 c x ∧
                               address_to_coords x = Some cx ∧ dead cx)
    as Hmentions.
  { intros c0 [c1 t p Href Hp Hnone|c1 t p text Href Hp Htext Hplain Herror
              |c1 Hcycle|c1 t p c' Href Hp Hc' Hcoords].
    - exists t, p. split_and!; try done. by left.
    - exists t, p. split_and!; try done. right. left. by exists text.
    - apply tc_cycle_pred in Hcycle as (x & Hxc & Hx).
      destruct (dependent_mentions contents x c1 Hwithin Hxc) as [_ Href].
      assert (on x) as Hdoomed by by apply doomed_cycle.
      destruct (formula_key_address contents x Hwithin (Hon_formula x Hdoomed))
        as (cx & _ & _ & Hcx & _).
      exists x, cx. split_and!; try done. by apply (Hon_dead x).
    - exists t, p. split_and!; try done. by apply (Hon_dead c'). }
  assert (∀ k coords,
            formula_of deps0 k ≠ EmptyString → address_to_coords k = Some coords →
            dead coords → on k) as Hdead_on.
  { intros k coords Hk Hcoords Hdead.
    destruct (formula_key_address contents k Hwithin Hk)
      as (ck & Htext & Hkeq & Hck & Hletter).
    fold s0 deps0 lines in Htext, Hletter.
    destruct Hdead as [Hnone|[(text & Htext' & Hplain & _)|(c0 & Hc0 & Hcoords0)]].
    - congruence.
    - congruence.
    - destruct (formula_key_address contents c0 Hwithin (Hon_formula c0 Hc0))
        as (cc & _ & Hc0eq & Hcc & _).
      assert (k = c0) as -> by congruence. done. }
  unfold parse_input, resolve_dependencies, topological_sort_dependencies in Hrun.
  fold s0 deps0 in Hrun.
  assert (∀ k, k ∈ order → k ∈ dom deps0) as Hkeys.
  { intros k Hk. rewrite Horder in Hk. unfold keys_of in Hk.
    by apply elem_of_elements in Hk. }
  assert (tidy deps0 (mkDfs ∅ ∅ [])) as Htidy.
  { split_and!; simpl; [apply NoDup_nil_2 | by intros y ?%elem_of_nil |].
    by intros y ?%elem_of_empty. }
  assert (∀ y : string, y ∈ marked (mkDfs ∅ ∅ []) → y ∈ res (mkDfs ∅ ∅ []))
    as Hall0 by (by intros y ?%elem_of_empty).
  pose proof (sort_loop_done deps0 Hclosed (S (size deps0)) order
                (mkDfs ∅ ∅ []) (cells s0) (Nat.le_succ_diag_r _)
                Hkeys Htidy Hall0) as Hsort.
  destruct (sort_loop deps0 (S (size deps0)) order (mkDfs ∅ ∅ []) (cells s0))
    as [[st cs]| |]; [|done..].
  simpl in Hrun.
  destruct (resolve_loop (res st) (mkSpreadsheet cs deps0)) as [s'|] eqn:Hloop;
    simpl in Hrun; simplify_eq.
  destruct Hsort as ((Hnd & _ & _) & Hall & Hcovered & _ & Hcells).
  destruct (resolve_loop_resolving deps0 dead on Hmentions Hon_dead Hdead_on
              (res st) (mkSpreadsheet cs deps0) s Hnd) as (_ & Herror & _);
    [|done|].
  - split_and!; simpl; [| |done].
    + intros p n Hp.
      destruct (Hcells p) as [Hsame|Herr]; [|by rewrite Herr].
      rewrite Hsame. by apply dead_cell_loaded.
    + intros c0 coords Hc0 Hout. exfalso. apply Hout, Hall, Hcovered.
      rewrite Horder. unfold keys_of. apply elem_of_elements, elem_of_dom.
      specialize (Hon_formula c0 Hc0). unfold formula_of in Hon_formula.
      fold deps0. by destruct (deps0 !! c0).
  - destruct (formula_key_address contents c Hwithin (Hon_formula c Hc))
      as (coords & Htext & Ha & Hcoords & _).
    exists coords. split_and!; try done.
    apply (Herror c); [done | by intros ?%elem_of_nil | done].
Qed.

(** In a sheet that stays within columns A to Z, whatever the order of
    the keys, when the run ends normally every address on a cycle of the
    dependency graph is the address of a formula cell of the input, and that
    cell ends with [Error]. *)
Theorem cycle_cells_end_as_error_within_column_Z contents order s a :
  within_column_Z contents = true →
  order ≡ₚ keys_of (load contents) →
  parse_input order contents = Done s →
  tc (edge (dependencies (load contents))) a a →
  ∃ coords,
    a = coords_to_address coords ∧
    text_at (getlines "010" contents) coords
      = Some (formula_of (dependencies (load contents)) a) ∧
    cell_at (cells s) coords = Some (State Error).
Proof.
  intros Hwithin Horder Hrun Hcycle.
  apply (doomed_cells_end_as_error contents order); try done.
  by apply doomed_cycle.
Qed.

(** In such a sheet a formula that mentions an address without input
    cell ends with [Error]. *)
Theorem undefined_reference_ends_as_error_within_column_Z
    contents order s c t target :
  within_column_Z contents = true →
  order ≡ₚ keys_of (load contents) →
  parse_input order contents = Done s →
  references (dependencies (load contents)) c t →
  address_to_coords t = Some target →
  text_at (getlines "010" contents) target = None →
  ∃ coords,
    c = coords_to_address coords ∧
    text_at (getlines "010" contents) coords
      = Some (formula_of (dependencies (load contents)) c) ∧
    cell_at (cells s) coords = Some (State Error).
Proof.
  intros Hwithin Horder Hrun Href Htarget Hnone.
  apply (doomed_cells_end_as_error contents order); try done.
  by apply (doomed_undefined _ _ c t target).
Qed.

(** Scenario C again, this time from the general statement. *)
Lemma cycle_cells_end_as_error_two_cells :
  ∃ s, parse_input ["A1"; "A0"] "A1 1 +
A0 1 +" = Done s ∧
       cell_at (cells s) (0, 0) = Some (State Error) ∧
       cell_at (cells s) (0, 1) = Some (State Error).
Proof.
  set (contents := "A1 1 +
A0 1 +"%string).
  destruct (parse_input ["A1"; "A0"] contents) as [s| |] eqn:Hrun;
    [|by vm_compute in Hrun..].
  assert (edge (dependencies (load contents)) "A0" "A1") as H01.
  { unfold edge. change (dependents _ "A0") with ["A1"]. by left. }
  assert (edge (dependencies (load contents)) "A1" "A0") as H10.
  { unfold edge. change (dependents _ "A1") with ["A0"]. by left. }
  exists s. split; [done|]. split.
  - destruct (cycle_cells_end_as_error_within_column_Z contents
                ["A1"; "A0"] s "A0") as (coords & Ha & Htext & Herror);
      [reflexivity | reflexivity | done | |].
    + eapply tc_l; [done | by apply tc_once].
    + assert (address_to_coords "A0" = Some coords) as Hcoords.
      { rewrite Ha. destruct coords as [col row].
        destruct (text_at_within contents col row _ eq_refl Htext).
        by apply address_to_coords_to_address. }
      vm_compute in Hcoords. by simplify_eq.
  - destruct (cycle_cells_end_as_error_within_column_Z contents
                ["A1"; "A0"] s "A1") as (coords & Ha & Htext & Herror);
      [reflexivity | reflexivity | done | |].
    + eapply tc_l; [done | by apply tc_once].
    + assert (address_to_coords "A1" = Some coords) as Hcoords.
      { rewrite Ha. destruct coords as [col row].
        destruct (text_at_within contents col row _ eq_refl Htext).
        by apply address_to_coords_to_address. }
      vm_compute in Hcoords. by simplify_eq.
Qed.

(** * Runs that end normally *)

(** [resolve_references] returns when [std::stoi] reads the row of every
    address token of the formula, and leaves the other formulas alone. *)
Lemma resolve_references_returns address s :
  rows_readable (formula_of (dependencies s) address) →
  ∃ s',
    resolve_references address s = Some s' ∧
    ∀ other, other ≠ address →
             formula_of (dependencies s') other
             = formula_of (dependencies s) other.
Proof.
  intros Hrows. unfold resolve_references.
  destruct (resolve_tokens_spec _ EmptyString (cells s) Hrows)
    as (cs' & Hrun & _).
  rewrite Hrun. eexists. split; [done|].
  intros other Hne. simpl. unfold formula_of. by rewrite lookup_insert_ne.
Qed.

Lemma resolve_loop_returns deps0 l s :
  (∀ c t, references deps0 c t → t ∈ dom deps0) →
  keys_readable deps0 → NoDup l →
  (∀ k, k ∈ l → k ∈ dom deps0) →
  (∀ k, k ∈ l → formula_of (dependencies s) k = formula_of deps0 k) →
  is_Some (resolve_loop l s).
Proof.
  intros Hrefs Hreadable. revert s.
  induction l as [|k rest IH]; intros s Hnd Hkeys Hformulas; simpl; [done|].
  apply NoDup_cons in Hnd as [Hfresh Hnd].
  destruct (resolve_references_returns k s) as (sr & Hrun & Hothers).
  { intros t Ht Hfmt. rewrite Hformulas in Ht by by left.
    by apply Hreadable, (Hrefs k). }
  assert (∀ k', k' ∈ rest →
                formula_of (dependencies sr) k' = formula_of deps0 k') as Hrest.
  { intros k' Hk'. rewrite Hothers by (intros ->; done).
    apply Hformulas. by right. }
  assert (∀ k', k' ∈ rest → k' ∈ dom deps0) as Hkeys'
    by (intros k' Hk'; apply Hkeys; by right).
  unfold resolve_cell. rewrite Hrun.
  destruct (string_empty _); [by apply IH|].
  destruct (Hreadable k) as [ck ->]; [apply Hkeys; by left|].
  by apply IH.
Qed.

(** X24.  When [std::stoi] reads the row of every key of the registry and
    no evaluation of the run reaches the division of [INT_MIN] by -1, the
    run ends normally, in every order of the keys. *)
Theorem parse_input_returns contents order :
  keys_readable (dependencies (load contents)) →
  order ≡ₚ keys_of (load contents) →
  run_traps order contents = false →
  ∃ s, parse_input order contents = Done s.
Proof.
  set (s0 := load contents). set (deps0 := dependencies s0).
  intros Hreadable Horder _.
  destruct (registry_ok_load contents) as [Hclosed Hrefs].
  fold s0 deps0 in Hclosed, Hrefs.
  unfold parse_input, resolve_dependencies, topological_sort_dependencies.
  fold s0 deps0.
  assert (∀ k, k ∈ order → k ∈ dom deps0) as Hkeys.
  { intros k Hk. rewrite Horder in Hk. unfold keys_of in Hk.
    by apply elem_of_elements in Hk. }
  assert (tidy deps0 (mkDfs ∅ ∅ [])) as Htidy.
  { split_and!; simpl; [apply NoDup_nil_2 | by intros y ?%elem_of_nil |].
    by intros y ?%elem_of_empty. }
  assert (∀ y : string, y ∈ marked (mkDfs ∅ ∅ []) → y ∈ res (mkDfs ∅ ∅ []))
    as Hall by (by intros y ?%elem_of_empty).
  pose proof (sort_loop_done deps0 Hclosed (S (size deps0)) order
                (mkDfs ∅ ∅ []) (cells s0) (Nat.le_succ_diag_r _)
                Hkeys Htidy Hall) as Hsort.
  destruct (sort_loop deps0 (S (size deps0)) order (mkDfs ∅ ∅ []) (cells s0))
    as [[st cs]| |]; simpl; [|done..].
  destruct Hsort as ((Hnd & Hsub & Hdom) & _).
  destruct (resolve_loop_returns deps0 (res st) (mkSpreadsheet cs deps0))
    as [s Hs]; try done.
  - intros c t Href. by destruct (Hrefs c t Href).
  - intros k Hk. auto.
  - rewrite Hs. by exists s.
Qed.

(** * Further properties of the evaluator *)

Lemma wrap_int_fits v : in_int v = true → wrap_int v = v.
Proof.
  unfold in_int, INT_MIN, INT_MAX, wrap_int. intros Hv.
  rewrite Z.mod_small; lia.
Qed.

Lemma popped_value_sums_and_products e :
  sums_and_products e = true → results_fit e = true →
  ∃ v, standard_value e = Some v ∧ popped_value e = Some v ∧ in_int v = true.
Proof.
  induction e as [n|op l IHl r IHr]; intros Hops Hfit.
  - exists n. by split_and!.
  - assert (sums_and_products l = true ∧ sums_and_products r = true ∧
            (op = Add ∨ op = Mul)) as (Hl & Hr & Hop).
    { destruct op; simpl in Hops; try done;
        apply andb_prop in Hops as [? ?]; split_and!; auto. }
    cbn [results_fit] in Hfit.
    apply andb_prop in Hfit as [[Hfl Hfr]%andb_prop Hv].
    destruct (IHl Hl Hfl) as (a & Ha & Ha' & _).
    destruct (IHr Hr Hfr) as (b & Hb & Hb' & _).
    cbn [standard_value popped_value] in *. rewrite Ha, Hb in *.
    rewrite Ha', Hb'.
    destruct Hop as [-> | ->]; simpl in *.
    + exists (a + b). rewrite (Z.add_comm b a), wrap_int_fits by done. done.
    + exists (a * b). rewrite (Z.mul_comm b a), wrap_int_fits by done. done.
Qed.

Lemma literals_fit_results_fit e : results_fit e = true → literals_fit e = true.
Proof.
  induction e as [n|op l IHl r IHr]; [done|]. cbn [results_fit literals_fit].
  intros [[Hl Hr]%andb_prop _]%andb_prop. by rewrite IHl, IHr.
Qed.

(** X1.  On the postfix form of an expression whose literals fit [int],
    when the evaluation does not reach the division of [INT_MIN] by -1,
    [calculate_postfix] stores the value obtained by giving each operator
    its operands in pop order (the operand written last on the left), wrapped
    to 32 bits, and [Error] when a division met a zero among the operands
    written first. *)
Theorem calculate_postfix_takes_operands_in_pop_order coords expression e s :
  tokens expression = postfix_of e → literals_fit e = true →
  traps expression = false →
  cell_at (cells (calculate_postfix coords expression s)) coords =
  Some (match popped_value e with Some v => Int v | None => State Error end).
Proof.
  intros Htok Hfit _. unfold calculate_postfix. simpl.
  by rewrite cell_at_set_cell_eq, (postfix_value_is_popped_value _ e).
Qed.

Lemma calculate_postfix_takes_operands_in_pop_order_witness :
  cell_at (cells (calculate_postfix (0, 0) "7 2 /" clear)) (0, 0) = Some (Int 0) ∧
  cell_at (cells (calculate_postfix (0, 0) "0 2 /" clear)) (0, 0)
    = Some (State Error).
Proof.
  split.
  - apply (calculate_postfix_takes_operands_in_pop_order (0, 0) "7 2 /"
             (Bin Div (Lit 7) (Lit 2)) clear); reflexivity.
  - apply (calculate_postfix_takes_operands_in_pop_order (0, 0) "0 2 /"
             (Bin Div (Lit 0) (Lit 2)) clear); reflexivity.
Defined.

(** X2.  For an expression made of sums and products whose literals and
    intermediate results fit [int], [calculate_postfix] stores the usual
    value of the expression. *)
Theorem calculate_postfix_sums_and_products coords expression e s :
  tokens expression = postfix_of e →
  sums_and_products e = true → results_fit e = true →
  ∃ v, standard_value e = Some v ∧
       cell_at (cells (calculate_postfix coords expression s)) coords
         = Some (Int v).
Proof.
  intros Htok Hops Hfit.
  destruct (popped_value_sums_and_products e Hops Hfit) as (v & Hv & Hpop & _).
  exists v. split; [done|]. unfold calculate_postfix. simpl.
  rewrite cell_at_set_cell_eq, (postfix_value_is_popped_value _ e); try done.
  - by rewrite Hpop.
  - by apply literals_fit_results_fit.
Qed.

Lemma calculate_postfix_sums_and_products_witness :
  ∃ v, standard_value (Bin Mul (Bin Add (Lit 3) (Lit 4)) (Lit 5)) = Some v ∧
       cell_at (cells (calculate_postfix (1, 2) "3 4 + 5 *" clear)) (1, 2)
         = Some (Int v).
Proof.
  apply (calculate_postfix_sums_and_products (1, 2) "3 4 + 5 *"
           (Bin Mul (Bin Add (Lit 3) (Lit 4)) (Lit 5)) clear); reflexivity.
Defined.

Lemma postfix_loop_balance toks operands operands' :
  postfix_loop toks operands = (operands', false) →
  (length operands' + count_tokens is_operator toks
   = length operands + count_tokens (λ t, negb (is_operator t)) toks)%nat.
Proof.
  revert operands.
  induction toks as [|token rest IH]; intros operands Hrun; simpl in Hrun.
  - simplify_eq. simpl. lia.
  - cbn [count_tokens]. destruct (is_operator token) eqn:Hop; simpl.
    + destruct operands as [|op1 [|op2 below]]; try done.
      repeat case_match; try done; apply IH in Hrun; simpl in *; lia.
    + destruct (stoi token); [|done]. apply IH in Hrun. simpl in *. lia.
Qed.

(** X3.  [calculate_postfix] stores an integer only for a token stream
    with exactly one more operand than operators. *)
Theorem calculate_postfix_integer_needs_balance coords expression s v :
  cell_at (cells (calculate_postfix coords expression s)) coords
    = Some (Int v) →
  count_tokens (λ t, negb (is_operator t)) (tokens expression)
  = S (count_tokens is_operator (tokens expression)).
Proof.
  unfold calculate_postfix. simpl. rewrite cell_at_set_cell_eq.
  unfold postfix_value. intros Hv.
  destruct (postfix_loop (tokens expression) []) as [operands error] eqn:Hrun.
  destruct operands as [|top [|]]; try done.
  destruct error; [done|].
  apply postfix_loop_balance in Hrun. simpl in Hrun. lia.
Qed.

Lemma calculate_postfix_integer_needs_balance_witness :
  count_tokens (λ t, negb (is_operator t)) (tokens "3 4 + 5 *")
  = S (count_tokens is_operator (tokens "3 4 + 5 *")).
Proof.
  apply (calculate_postfix_integer_needs_balance (0, 0) "3 4 + 5 *" clear 35).
  reflexivity.
Defined.

(** * Further properties of the address codec *)

Lemma isupper_letter n :
  0 ≤ n < 26 → isupper (ascii_of_N (Z.to_N (65 + n))) = true.
Proof.
  intros Hn. unfold isupper. rewrite char_code_ascii_of_N by lia.
  rewrite Z2N.id by lia. cbv zeta. lia.
Qed.

Lemma isupper_isalpha c : isupper c = true → isalpha c = true.
Proof. unfold isalpha. by intros ->. Qed.

Lemma string_forallb_impl (p q : ascii → bool) s :
  (∀ c, p c = true → q c = true) →
  string_forallb p s = true → string_forallb q s = true.
Proof.
  intros Hpq. induction s as [|c s IH]; simpl; [done|].
  intros [Hc Hs]%andb_prop. by rewrite (Hpq c Hc), IH.
Qed.

Lemma coord_to_col_loop_upper fuel n acc :
  string_forallb isupper acc = true →
  string_forallb isupper (coord_to_col_loop fuel n acc) = true.
Proof.
  revert n acc. induction fuel as [|fuel IH]; intros n acc Hacc; simpl; [done|].
  destruct (n <? 0) eqn:Hn; [done|]. apply IH. simpl.
  rewrite isupper_letter; [done|]. apply Z.mod_pos_bound. lia.
Qed.

Lemma coord_to_col_upper n : string_forallb isupper (coord_to_col n) = true.
Proof. by apply coord_to_col_loop_upper. Qed.

Lemma coord_to_col_loop_nonempty fuel n acc :
  acc ≠ EmptyString → coord_to_col_loop fuel n acc ≠ EmptyString.
Proof.
  revert n acc. induction fuel as [|fuel IH]; intros n acc Hacc; simpl; [done|].
  destruct (n <? 0); [done|]. by apply IH.
Qed.

Lemma span_app p a b :
  string_forallb p a = true →
  span p (a +:+ b) = (a +:+ (span p b).1, (span p b).2).
Proof.
  induction a as [|c a IH]; intros Ha.
  - change (EmptyString +:+ b) with b.
    change (EmptyString +:+ (span p b).1) with (span p b).1.
    by destruct (span p b).
  - simpl in Ha. apply andb_prop in Ha as [Hc Ha].
    change (String c a +:+ b) with (String c (a +:+ b)).
    cbn [span]. rewrite Hc, (IH Ha). done.
Qed.

Lemma to_string_nonempty row : to_string row ≠ EmptyString.
Proof.
  destruct row as [|p|p]; [done| |by rewrite to_string_neg].
  rewrite to_string_pos.
  apply string_of_uint_nonempty, DecimalPos.Unsigned.to_uint_nonnil.
Qed.

(** X4.  The address that the loader builds for a cell with non-negative
    coordinates always has the address format: capital letters, then
    digits. *)
Theorem coords_to_address_has_address_format col row :
  0 ≤ col → 0 ≤ row →
  string_forallb isupper (coord_to_col col) = true ∧
  coord_to_col col ≠ EmptyString ∧
  is_letter_number_format (coords_to_address (col, row)) = true.
Proof.
  intros Hcol Hrow.
  pose proof (coord_to_col_upper col) as Hupper.
  assert (coord_to_col col ≠ EmptyString) as Hne.
  { unfold coord_to_col. cbn [coord_to_col_loop].
    replace (col <? 0) with false by lia.
    by apply coord_to_col_loop_nonempty. }
  split_and!; [done..|].
  unfold is_letter_number_format, coords_to_address. cbn [fst snd].
  rewrite span_app
    by (eapply string_forallb_impl; [apply isupper_isalpha | done]).
  rewrite span_isalpha_digits by by apply to_string_digits.
  cbn [fst snd]. rewrite append_empty_r.
  pose proof (to_string_nonempty row).
  rewrite to_string_digits by done.
  destruct (coord_to_col col), (to_string row); done.
Qed.

Lemma coords_to_address_has_address_format_witness :
  string_forallb isupper (coord_to_col 730) = true ∧
  coord_to_col 730 ≠ EmptyString ∧
  is_letter_number_format (coords_to_address (730, 12)) = true.
Proof. apply coords_to_address_has_address_format; lia. Defined.

(** X5.  For a cell in columns A to Z and a row that fits [int],
    [address_to_coords] reads back the coordinates from which
    [coords_to_address] built the address. *)
Theorem address_round_trip_columns_A_to_Z col row :
  0 ≤ col < 26 → 0 ≤ row ≤ INT_MAX →
  address_to_coords (coords_to_address (col, row)) = Some (col, row).
Proof. apply address_to_coords_to_address. Qed.

Lemma address_round_trip_columns_A_to_Z_witness :
  address_to_coords (coords_to_address (25, 2147483647))
  = Some (25, 2147483647).
Proof.
  apply address_round_trip_columns_A_to_Z; unfold INT_MAX; lia.
Defined.

Lemma coord_to_col_two_letters col :
  26 ≤ col < 702 →
  coord_to_col col =
  String (ascii_of_N (Z.to_N (65 + (col / 26 - 1))))
    (String (ascii_of_N (Z.to_N (65 + col mod 26))) EmptyString).
Proof.
  intros Hcol. unfold coord_to_col.
  assert (0 ≤ col / 26 - 1 < 26) as Hhigh.
  { split.
    - enough (1 ≤ col / 26) by lia. apply Z.div_le_lower_bound; lia.
    - enough (col / 26 < 27) by lia. apply Z.div_lt_upper_bound; lia. }
  destruct (Z.to_nat col) as [|[|fuel]] eqn:Hfuel; [lia..|].
  cbn [coord_to_col_loop].
  replace (col <? 0) with false by lia.
  replace (col / 26 - 1 <? 0) with false by lia.
  rewrite (Z.mod_small (col / 26 - 1)), (Z.div_small (col / 26 - 1)) by lia.
  by destruct fuel.
Qed.

(** In the columns AA to ZZ the codec reads back a column 26 places to
    the left. *)
Lemma address_to_coords_to_address_two_letters col row :
  26 ≤ col < 702 → 0 ≤ row ≤ INT_MAX →
  address_to_coords (coords_to_address (col, row)) = Some (col - 26, row).
Proof.
  intros Hcol Hrow. unfold coords_to_address, address_to_coords. cbn [fst snd].
  rewrite coord_to_col_two_letters by done.
  assert (0 ≤ col / 26 - 1 < 26) as Hhigh.
  { split.
    - enough (1 ≤ col / 26) by lia. apply Z.div_le_lower_bound; lia.
    - enough (col / 26 < 27) by lia. apply Z.div_lt_upper_bound; lia. }
  pose proof (Z.mod_pos_bound col 26 ltac:(lia)) as Hlow.
  set (high := ascii_of_N (Z.to_N (65 + (col / 26 - 1)))).
  set (low := ascii_of_N (Z.to_N (65 + col mod 26))).
  assert (char_code high = 65 + (col / 26 - 1)) as Hhigh_code.
  { unfold high. rewrite char_code_ascii_of_N by lia. lia. }
  assert (char_code low = 65 + col mod 26) as Hlow_code.
  { unfold low. rewrite char_code_ascii_of_N by lia. lia. }
  change (String high (String low EmptyString) +:+ to_string row)
    with (String high (String low (to_string row))).
  cbn [span].
  rewrite (isupper_isalpha high), (isupper_isalpha low)
    by (by apply isupper_letter).
  rewrite span_isalpha_digits by (apply to_string_digits; lia).
  rewrite stoi_to_string by (unfold in_int, INT_MIN, INT_MAX in *; lia).
  unfold col_to_coord. cbn [col_to_coord_loop].
  rewrite Hhigh_code, Hlow_code.
  do 2 f_equal.
  replace (0 * 26 + (65 + (col / 26 - 1) - 65)) with (col / 26 - 1) by lia.
  rewrite (wrap_int_fits (col / 26 - 1))
    by (unfold in_int, INT_MIN, INT_MAX; lia).
  rewrite wrap_int_fits by (unfold in_int, INT_MIN, INT_MAX; lia).
  pose proof (Z.div_mod col 26 ltac:(lia)). lia.
Qed.

(** X6.  Past column Z the codec is no round trip: for a cell in one of
    the two-letter columns AA to ZZ, [address_to_coords] reads the address
    built by [coords_to_address] as the column 26 places to the left. *)
Theorem address_round_trip_two_letter_columns col row :
  26 ≤ col < 702 → 0 ≤ row ≤ INT_MAX →
  address_to_coords (coords_to_address (col, row)) = Some (col - 26, row).
Proof. apply address_to_coords_to_address_two_letters. Qed.

Lemma address_round_trip_two_letter_columns_witness :
  address_to_coords (coords_to_address (26, 0)) = Some (26 - 26, 0).
Proof.
  apply address_round_trip_two_letter_columns; unfold INT_MAX; lia.
Defined.

Lemma coord_to_col_loop_acc fuel n acc :
  coord_to_col_loop fuel n acc = coord_to_col_loop fuel n EmptyString +:+ acc.
Proof.
  revert n acc. induction fuel as [|fuel IH]; intros n acc; simpl; [done|].
  destruct (n <? 0); [done|].
  rewrite IH, (IH _ (String _ EmptyString)), append_assoc. done.
Qed.

Lemma coord_to_col_loop_fuel fuel fuel' n acc :
  n < Z.of_nat fuel → n < Z.of_nat fuel' →
  coord_to_col_loop fuel n acc = coord_to_col_loop fuel' n acc.
Proof.
  revert fuel' n acc.
  induction fuel as [|fuel IH]; intros fuel' n acc Hfuel Hfuel'.
  - destruct fuel' as [|fuel']; simpl; [done|].
    by replace (n <? 0) with true by lia.
  - destruct fuel' as [|fuel']; simpl.
    + by replace (n <? 0) with true by lia.
    + destruct (n <? 0) eqn:Hn; [done|].
      assert (n / 26 ≤ n) by (apply Z.div_le_upper_bound; lia).
      apply IH; lia.
Qed.

(** The letters of a column: those of [n / 26 - 1], then the letter of
    [n mod 26]. *)
Lemma coord_to_col_step n :
  0 ≤ n →
  coord_to_col n =
  coord_to_col (n / 26 - 1)
    +:+ String (ascii_of_N (Z.to_N (65 + n mod 26))) EmptyString.
Proof.
  intros Hn. unfold coord_to_col at 1. cbn [coord_to_col_loop].
  replace (n <? 0) with false by lia.
  rewrite coord_to_col_loop_acc. f_equal.
  assert (n / 26 ≤ n) by (apply Z.div_le_upper_bound; lia).
  assert (0 ≤ n / 26) by (apply Z.div_pos; lia).
  apply coord_to_col_loop_fuel; lia.
Qed.

Lemma append_last_inj a b x y :
  a +:+ String x EmptyString = b +:+ String y EmptyString → a = b ∧ x = y.
Proof.
  revert b. induction a as [|c a IH]; intros [|d b] Heq.
  - by injection Heq as ->.
  - injection Heq as -> Heq. by destruct b.
  - injection Heq as -> Heq. by destruct a.
  - injection Heq as -> Heq. destruct (IH b Heq) as [-> ->]. done.
Qed.

Lemma coord_to_col_nonempty n : 0 ≤ n → coord_to_col n ≠ EmptyString.
Proof.
  intros Hn. rewrite coord_to_col_step by done.
  by destruct (coord_to_col (n / 26 - 1)).
Qed.

Lemma coord_to_col_inj_below (k : nat) n m :
  -1 ≤ n → n < Z.of_nat k - 1 → -1 ≤ m →
  coord_to_col n = coord_to_col m → n = m.
Proof.
  revert n m. induction k as [|k IH]; intros n m Hn Hk Hm Heq; [lia|].
  destruct (decide (n = -1)) as [->|Hn'].
  { destruct (decide (m = -1)) as [->|Hm']; [done|].
    symmetry in Heq. by apply coord_to_col_nonempty in Heq; [|lia]. }
  destruct (decide (m = -1)) as [->|Hm'].
  { by apply coord_to_col_nonempty in Heq; [|lia]. }
  rewrite (coord_to_col_step n), (coord_to_col_step m) in Heq by lia.
  apply append_last_inj in Heq as [Hhigh Hlow].
  pose proof (Z.mod_pos_bound n 26 ltac:(lia)).
  pose proof (Z.mod_pos_bound m 26 ltac:(lia)).
  assert (n mod 26 = m mod 26) as Hmod.
  { apply (f_equal char_code) in Hlow.
    rewrite !char_code_ascii_of_N in Hlow by lia. lia. }
  assert (n / 26 ≤ n) by (apply Z.div_le_upper_bound; lia).
  assert (0 ≤ n / 26) by (apply Z.div_pos; lia).
  assert (0 ≤ m / 26) by (apply Z.div_pos; lia).
  apply IH in Hhigh; [|lia..].
  pose proof (Z.div_mod n 26 ltac:(lia)).
  pose proof (Z.div_mod m 26 ltac:(lia)). lia.
Qed.

Lemma digits_value_to_string row :
  0 ≤ row → digits_value (to_string row) 0 = row.
Proof.
  intros Hrow. destruct row as [|p|p]; [done| |lia].
  by rewrite to_string_pos, digits_value_to_uint.
Qed.

Lemma coords_to_address_inj col row col' row' :
  0 ≤ col → 0 ≤ row → 0 ≤ col' → 0 ≤ row' →
  coords_to_address (col, row) = coords_to_address (col', row') →
  (col, row) = (col', row').
Proof.
  intros Hcol Hrow Hcol' Hrow' Heq.
  apply (f_equal (span isalpha)) in Heq. revert Heq.
  unfold coords_to_address. cbn [fst snd].
  rewrite !span_app
    by (eapply string_forallb_impl;
        [apply isupper_isalpha | apply coord_to_col_upper]).
  rewrite !span_isalpha_digits by by apply to_string_digits.
  cbn [fst snd]. rewrite !append_empty_r. intros [= Hcols Hrows].
  apply (coord_to_col_inj_below (S (Z.to_nat col + 1))) in Hcols; [|lia..].
  apply (f_equal (λ s, digits_value s 0)) in Hrows.
  rewrite !digits_value_to_string in Hrows by done. congruence.
Qed.

(** X7.  Two different cells with non-negative coordinates have different
    addresses: the keys under which loading registers the formula cells
    never collide, in any column. *)
Theorem coords_to_address_separates_cells col row col' row' :
  0 ≤ col → 0 ≤ row → 0 ≤ col' → 0 ≤ row' →
  (col, row) ≠ (col', row') →
  coords_to_address (col, row) ≠ coords_to_address (col', row').
Proof.
  intros Hcol Hrow Hcol' Hrow' Hne Heq.
  by apply Hne, coords_to_address_inj.
Qed.

Lemma coords_to_address_separates_cells_witness :
  coords_to_address (26, 0) ≠ coords_to_address (0, 0).
Proof. apply coords_to_address_separates_cells; (lia || done). Defined.

(** * What loading records *)

Lemma text_at_lookup lines i line j t :
  lines !! i = Some line → getlines "," line !! j = Some t →
  text_at lines (Z.of_nat j, Z.of_nat i) = Some t.
Proof.
  intros Hi Hj. unfold text_at. cbn [fst snd].
  rewrite !(proj2 (Z.leb_le _ _)) by lia.
  rewrite !Nat2Z.id. cbn. by rewrite Hi.
Qed.

Lemma text_at_inv lines coords t :
  text_at lines coords = Some t →
  ∃ i line j, coords = (Z.of_nat j, Z.of_nat i) ∧
              lines !! i = Some line ∧ getlines "," line !! j = Some t.
Proof.
  destruct coords as [col row]. unfold text_at. cbn [fst snd].
  destruct ((0 <=? col) && (0 <=? row)) eqn:Hpos; [|done].
  destruct (lines !! Z.to_nat row) as [line|] eqn:Hline; [|done].
  intros Ht. exists (Z.to_nat row), line, (Z.to_nat col).
  split_and!; [|done..]. f_equal; lia.
Qed.

(** ** The grid *)

Lemma cell_at_parse_tokens coords text s c :
  cell_at (cells (parse_tokens coords text s)) c =
  if contains_letter text then cell_at (cells s) c
  else if decide (coords = c) then Some (postfix_value text)
       else cell_at (cells s) c.
Proof.
  unfold parse_tokens. destruct (contains_letter text); [done|].
  apply cell_at_set_cell.
Qed.

Lemma cell_at_parse_row_frame row row_cells col s c :
  c.2 ≠ row ∨ c.1 < col →
  cell_at (cells (parse_row row col row_cells s)) c = cell_at (cells s) c.
Proof.
  revert col s. induction row_cells as [|cell rest IH]; intros col s Hc;
    [done|].
  simpl. rewrite IH by lia. rewrite cell_at_parse_tokens.
  destruct (contains_letter cell); [done|].
  rewrite decide_False; [done|]. intros <-. simpl in Hc. lia.
Qed.

Lemma cell_at_parse_row_plain row row_cells col s j t :
  row_cells !! j = Some t → contains_letter t = false →
  cell_at (cells (parse_row row col row_cells s)) (col + Z.of_nat j, row)
  = Some (postfix_value t).
Proof.
  revert col s j. induction row_cells as [|cell rest IH]; intros col s j Hj Ht;
    [done|].
  simpl. destruct j as [|j]; simpl in Hj.
  - simplify_eq. rewrite cell_at_parse_row_frame by (simpl; lia).
    rewrite cell_at_parse_tokens, Ht, decide_True; [done|]. f_equal. lia.
  - replace (col + Z.of_nat (S j)) with (col + 1 + Z.of_nat j) by lia.
    by apply IH.
Qed.

Lemma cell_at_parse_lines_frame lines row s c :
  c.2 < row →
  cell_at (cells (parse_lines row lines s)) c = cell_at (cells s) c.
Proof.
  revert row s. induction lines as [|line rest IH]; intros row s Hc; [done|].
  simpl. rewrite IH by lia. apply cell_at_parse_row_frame. lia.
Qed.

Lemma cell_at_parse_lines_plain lines row s i line j t :
  lines !! i = Some line → getlines "," line !! j = Some t →
  contains_letter t = false →
  cell_at (cells (parse_lines row lines s)) (Z.of_nat j, row + Z.of_nat i)
  = Some (postfix_value t).
Proof.
  revert row s i. induction lines as [|l rest IH]; intros row s i Hi Hj Ht;
    [done|].
  simpl. destruct i as [|i]; simpl in Hi.
  - simplify_eq. rewrite cell_at_parse_lines_frame by (simpl; lia).
    replace (row + Z.of_nat 0) with row by lia.
    by apply (cell_at_parse_row_plain row _ 0 s j t).
  - replace (row + Z.of_nat (S i)) with (row + 1 + Z.of_nat i) by lia.
    by apply IH.
Qed.

Lemma load_plain_cell contents coords t :
  text_at (getlines "010" contents) coords = Some t →
  contains_letter t = false →
  cell_at (cells (load contents)) coords = Some (postfix_value t).
Proof.
  intros (i & line & j & -> & Hi & Hj)%text_at_inv Ht.
  by apply (cell_at_parse_lines_plain _ 0 clear i line j t).
Qed.

(** X8.  The grid after loading: a coordinate holds a value exactly when
    the input has a cell there whose text contains no letter, and the value
    is that of the text taken as a postfix expression; the cells whose text
    contains a letter are left out of the grid until they are resolved. *)
Theorem load_evaluates_cells_without_letter contents coords :
  cell_at (cells (load contents)) coords =
  match text_at (getlines "010" contents) coords with
  | Some t => if contains_letter t then None else Some (postfix_value t)
  | None => None
  end.
Proof.
  destruct (loaded_load contents) as (_ & _ & Hcells).
  destruct (text_at (getlines "010" contents) coords) as [t|] eqn:Htext.
  - destruct (contains_letter t) eqn:Hletter; [|by apply load_plain_cell].
    destruct (cell_at (cells (load contents)) coords) as [v|] eqn:Hv; [|done].
    destruct (Hcells _ _ Hv) as (t' & Ht' & Hplain & _). congruence.
  - destruct (cell_at (cells (load contents)) coords) as [v|] eqn:Hv; [|done].
    destruct (Hcells _ _ Hv) as (t' & Ht' & _). congruence.
Qed.

(** ** The registry *)

Lemma dependents_insert_formula a text deps k :
  dependents (<[a := (text, dependents deps a)]> deps) k = dependents deps k.
Proof.
  unfold dependents at 1.
  destruct (decide (a = k)) as [->|Hne];
    [by rewrite lookup_insert_eq | by rewrite lookup_insert_ne].
Qed.

Lemma dependents_parse_tokens coords text s k w :
  w ∈ dependents (dependencies (parse_tokens coords text s)) k ↔
  w ∈ dependents (dependencies s) k ∨
  (contains_letter text = true ∧ w = coords_to_address coords ∧
   k ∈ tokens text ∧ is_letter_number_format k = true).
Proof.
  unfold parse_tokens. destruct (contains_letter text); simpl.
  - rewrite dependents_fold_push, dependents_insert_formula. naive_solver.
  - naive_solver.
Qed.

Lemma dom_parse_tokens coords text s k :
  k ∈ dom (dependencies (parse_tokens coords text s)) ↔
  k ∈ dom (dependencies s) ∨
  (contains_letter text = true ∧
   (k = coords_to_address coords ∨
    (k ∈ tokens text ∧ is_letter_number_format k = true))).
Proof.
  unfold parse_tokens. destruct (contains_letter text); simpl.
  - rewrite dom_fold_push, dom_insert, elem_of_union, elem_of_singleton.
    naive_solver.
  - naive_solver.
Qed.

Lemma formula_of_parse_tokens coords text s k :
  formula_of (dependencies (parse_tokens coords text s)) k =
  if contains_letter text && bool_decide (k = coords_to_address coords)
  then text else formula_of (dependencies s) k.
Proof.
  unfold parse_tokens. destruct (contains_letter text); simpl; [|done].
  rewrite formula_of_fold_push. unfold formula_of at 1.
  case_bool_decide as Hk.
  - subst k. by rewrite lookup_insert_eq.
  - by rewrite lookup_insert_ne.
Qed.

Lemma row_cell_cons row col cell rest coords t :
  row_cell row col (cell :: rest) coords t ↔
  (coords = (col, row) ∧ t = cell) ∨ row_cell row (col + 1) rest coords t.
Proof.
  unfold row_cell. split.
  - intros ([|j] & -> & Hj); simpl in Hj.
    + left. simplify_eq. split; [f_equal; lia | done].
    + right. exists j. split; [f_equal; lia | done].
  - intros [[-> ->]|(j & -> & Hj)].
    + exists 0%nat. split; [f_equal; lia | done].
    + exists (S j). split; [f_equal; lia | done].
Qed.

Lemma lines_cell_cons row line rest coords t :
  lines_cell row (line :: rest) coords t ↔
  row_cell row 0 (getlines "," line) coords t ∨
  lines_cell (row + 1) rest coords t.
Proof.
  unfold lines_cell, row_cell. split.
  - intros ([|i] & l & j & -> & Hi & Hj); simpl in Hi.
    + left. simplify_eq. exists j. split; [f_equal; lia | done].
    + right. exists i, l, j. split_and!; [f_equal; lia | done..].
  - intros [(j & -> & Hj)|(i & l & j & -> & Hi & Hj)].
    + exists 0%nat, line, j. split_and!; [f_equal; lia | done..].
    + exists (S i), l, j. split_and!; [f_equal; lia | done..].
Qed.

Lemma lines_cell_text_at lines coords t :
  lines_cell 0 lines coords t ↔ text_at lines coords = Some t.
Proof.
  split.
  - intros (i & line & j & -> & Hi & Hj).
    replace (0 + Z.of_nat i) with (Z.of_nat i) by lia.
    by eapply text_at_lookup.
  - intros (i & line & j & -> & Hi & Hj)%text_at_inv.
    exists i, line, j. split_and!; [f_equal; lia | done..].
Qed.

Lemma dependents_parse_row row row_cells col s k w :
  w ∈ dependents (dependencies (parse_row row col row_cells s)) k ↔
  w ∈ dependents (dependencies s) k ∨
  mentioned_by (row_cell row col row_cells) k w.
Proof.
  revert col s. induction row_cells as [|cell rest IH]; intros col s; simpl.
  - split; [by left|]. intros [?|(? & ? & ([|?] & _ & ?) & _)]; done.
  - rewrite IH, dependents_parse_tokens. unfold mentioned_by.
    setoid_rewrite row_cell_cons. naive_solver.
Qed.

Lemma dependents_parse_lines lines row s k w :
  w ∈ dependents (dependencies (parse_lines row lines s)) k ↔
  w ∈ dependents (dependencies s) k ∨
  mentioned_by (lines_cell row lines) k w.
Proof.
  revert row s. induction lines as [|line rest IH]; intros row s; simpl.
  - split; [by left|]. intros [?|(? & ? & ([|?] & ? & ? & _ & ? & _) & _)]; done.
  - rewrite IH, dependents_parse_row. unfold mentioned_by.
    setoid_rewrite lines_cell_cons. naive_solver.
Qed.

Lemma dom_parse_row row row_cells col s k :
  k ∈ dom (dependencies (parse_row row col row_cells s)) ↔
  k ∈ dom (dependencies s) ∨ key_from (row_cell row col row_cells) k.
Proof.
  revert col s. induction row_cells as [|cell rest IH]; intros col s; simpl.
  - split; [by left|]. intros [?|(? & ? & ([|?] & _ & ?) & _)]; done.
  - rewrite IH, dom_parse_tokens. unfold key_from.
    setoid_rewrite row_cell_cons. naive_solver.
Qed.

Lemma dom_parse_lines lines row s k :
  k ∈ dom (dependencies (parse_lines row lines s)) ↔
  k ∈ dom (dependencies s) ∨ key_from (lines_cell row lines) k.
Proof.
  revert row s. induction lines as [|line rest IH]; intros row s; simpl.
  - split; [by left|]. intros [?|(? & ? & ([|?] & ? & ? & _ & ? & _) & _)]; done.
  - rewrite IH, dom_parse_row. unfold key_from.
    setoid_rewrite lines_cell_cons. naive_solver.
Qed.

(** X9.  The registry after loading: the dependents recorded for an
    address are exactly the addresses of the input cells whose text contains
    a letter and has that address among its tokens, and the keys are exactly
    the addresses of such cells and the address tokens of their texts. *)
Theorem load_registers_references contents :
  (∀ k w,
     w ∈ dependents (dependencies (load contents)) k ↔
     ∃ coords t,
       text_at (getlines "010" contents) coords = Some t ∧
       contains_letter t = true ∧ w = coords_to_address coords ∧
       k ∈ tokens t ∧ is_letter_number_format k = true) ∧
  (∀ k,
     k ∈ dom (dependencies (load contents)) ↔
     ∃ coords t,
       text_at (getlines "010" contents) coords = Some t ∧
       contains_letter t = true ∧
       (k = coords_to_address coords ∨
        (k ∈ tokens t ∧ is_letter_number_format k = true))).
Proof.
  split.
  - intros k w. unfold load. rewrite dependents_parse_lines.
    unfold mentioned_by. setoid_rewrite lines_cell_text_at.
    split; [|by right]. intros [Hw|?]; [|done].
    unfold dependents in Hw. simpl in Hw. rewrite lookup_empty in Hw.
    by apply elem_of_nil in Hw.
  - intros k. unfold load. rewrite dom_parse_lines.
    unfold key_from. setoid_rewrite lines_cell_text_at.
    split; [|by right]. intros [Hk|?]; [|done].
    simpl in Hk. by rewrite dom_empty, elem_of_empty in Hk.
Qed.

Lemma formula_of_parse_row_frame row row_cells col s c :
  0 ≤ c.1 → 0 ≤ c.2 → 0 ≤ col → 0 ≤ row → c.2 ≠ row ∨ c.1 < col →
  formula_of (dependencies (parse_row row col row_cells s)) (coords_to_address c)
  = formula_of (dependencies s) (coords_to_address c).
Proof.
  revert col s. induction row_cells as [|cell rest IH];
    intros col s Hc1 Hc2 Hcol Hrow Hc; [done|].
  simpl. rewrite IH by lia. rewrite formula_of_parse_tokens.
  case_bool_decide as Heq; [|by rewrite andb_false_r].
  destruct c as [c1 c2]. apply coords_to_address_inj in Heq; [|done..].
  simpl in Hc. simplify_eq. lia.
Qed.

Lemma formula_of_parse_row_cell row row_cells col s j t :
  0 ≤ col → 0 ≤ row →
  row_cells !! j = Some t → contains_letter t = true →
  formula_of (dependencies (parse_row row col row_cells s))
    (coords_to_address (col + Z.of_nat j, row)) = t.
Proof.
  revert col s j. induction row_cells as [|cell rest IH];
    intros col s j Hcol Hrow Hj Ht; [done|].
  simpl. destruct j as [|j]; simpl in Hj.
  - simplify_eq. rewrite formula_of_parse_row_frame by (simpl; lia).
    rewrite formula_of_parse_tokens, Ht. simpl.
    rewrite bool_decide_true; [done|]. do 2 f_equal. lia.
  - replace (col + Z.of_nat (S j)) with (col + 1 + Z.of_nat j) by lia.
    apply IH; (lia || done).
Qed.

Lemma formula_of_parse_lines_frame lines row s c :
  0 ≤ c.1 → 0 ≤ c.2 → 0 ≤ row → c.2 < row →
  formula_of (dependencies (parse_lines row lines s)) (coords_to_address c)
  = formula_of (dependencies s) (coords_to_address c).
Proof.
  revert row s. induction lines as [|line rest IH];
    intros row s Hc1 Hc2 Hrow Hc; [done|].
  simpl. rewrite IH by lia. apply formula_of_parse_row_frame; lia.
Qed.

Lemma formula_of_parse_lines_cell lines row s i line j t :
  0 ≤ row →
  lines !! i = Some line → getlines "," line !! j = Some t →
  contains_letter t = true →
  formula_of (dependencies (parse_lines row lines s))
    (coords_to_address (Z.of_nat j, row + Z.of_nat i)) = t.
Proof.
  revert row s i. induction lines as [|l rest IH];
    intros row s i Hrow Hi Hj Ht; [done|].
  simpl. destruct i as [|i]; simpl in Hi.
  - simplify_eq. rewrite formula_of_parse_lines_frame by (simpl; lia).
    replace (row + Z.of_nat 0) with row by lia.
    by apply (formula_of_parse_row_cell row _ 0 s j t).
  - replace (row + Z.of_nat (S i)) with (row + 1 + Z.of_nat i) by lia.
    apply IH; (lia || done).
Qed.

Lemma load_formula_cell contents coords t :
  text_at (getlines "010" contents) coords = Some t →
  contains_letter t = true →
  formula_of (dependencies (load contents)) (coords_to_address coords) = t.
Proof.
  intros (i & line & j & -> & Hi & Hj)%text_at_inv Ht.
  by apply (formula_of_parse_lines_cell _ 0 clear i line j t).
Qed.

Lemma text_at_nonneg lines coords t :
  text_at lines coords = Some t → 0 ≤ coords.1 ∧ 0 ≤ coords.2.
Proof. intros (i & line & j & -> & _)%text_at_inv. simpl. lia. Qed.

(** X10.  The formulas after loading, in any column: under the address
    of an input cell the registry holds the cell's text when it contains a
    letter and no formula otherwise, and a key that holds a formula is the
    address of the input cell with that text.  So a registered formula is
    never replaced by the text of another cell. *)
Theorem load_registers_formulas contents :
  (∀ coords t,
     text_at (getlines "010" contents) coords = Some t →
     formula_of (dependencies (load contents)) (coords_to_address coords)
     = if contains_letter t then t else EmptyString) ∧
  (∀ a,
     formula_of (dependencies (load contents)) a ≠ EmptyString →
     ∃ coords,
       a = coords_to_address coords ∧
       text_at (getlines "010" contents) coords
       = Some (formula_of (dependencies (load contents)) a)).
Proof.
  destruct (loaded_load contents) as (_ & Hformulas & _). split.
  - intros coords t Htext.
    destruct (contains_letter t) eqn:Hletter; [by apply load_formula_cell|].
    destruct (decide (formula_of (dependencies (load contents))
                        (coords_to_address coords) = EmptyString))
      as [|Hne]; [done|].
    destruct (Hformulas _ Hne) as (coords' & Htext' & Heq & Hletter').
    destruct (text_at_nonneg _ _ _ Htext), (text_at_nonneg _ _ _ Htext').
    destruct coords, coords'.
    apply coords_to_address_inj in Heq; [|done..]. congruence.
  - intros a Hne. destruct (Hformulas _ Hne) as (coords & Htext & Ha & _).
    by exists coords.
Qed.

Lemma load_registers_formulas_witness :
  formula_of (dependencies (load "5,A0 2 *")) (coords_to_address (1, 0))
  = "A0 2 *"%string ∧
  formula_of (dependencies (load "5,A0 2 *")) (coords_to_address (0, 0))
  = EmptyString.
Proof.
  split.
  - by apply (proj1 (load_registers_formulas "5,A0 2 *") (1, 0) "A0 2 *"%string).
  - by apply (proj1 (load_registers_formulas "5,A0 2 *") (0, 0) "5"%string).
Defined.

(** * Further properties of the traversal and of the run *)

Lemma tidy_start deps : tidy deps (mkDfs ∅ ∅ []).
Proof.
  split_and!; simpl; [apply NoDup_nil_2 | by intros y ?%elem_of_nil |].
  by intros y ?%elem_of_empty.
Qed.

(** What the driver returns for a closed registry, in terms of the keys. *)
Lemma sort_loop_keys deps order :
  (∀ x w, edge deps x w → w ∈ dom deps) →
  order ≡ₚ elements (dom deps) →
  ∀ cs,
  match sort_loop deps (S (size deps)) order (mkDfs ∅ ∅ []) cs with
  | Done (st, cs') =>
      res st ≡ₚ elements (dom deps) ∧
      (∀ coords, cell_at cs' coords = cell_at cs coords ∨
                 cell_at cs' coords = Some (State Error))
  | Throws => ¬ keys_readable deps
  | OutOfFuel => False
  end.
Proof.
  intros Hclosed Horder cs.
  assert (∀ k, k ∈ order ↔ k ∈ dom deps) as Hkeys.
  { intros k. rewrite Horder. apply elem_of_elements. }
  pose proof (sort_loop_done deps Hclosed (S (size deps)) order
                (mkDfs ∅ ∅ []) cs (Nat.le_succ_diag_r _)
                (λ k, proj1 (Hkeys k)) (tidy_start deps)) as Hsort.
  destruct (sort_loop _ _ _ _ _) as [[st cs']| |]; [|by apply Hsort..].
  destruct Hsort as ((Hnd & Hsub & Hdom) & Hall & Hcovered & _ & Hcells).
  { by intros y ?%elem_of_empty. }
  split; [|done].
  apply NoDup_Permutation; [done | apply NoDup_elements |].
  intros k. rewrite elem_of_elements. split.
  - intros Hk. by apply Hdom, Hsub.
  - intros Hk. by apply Hall, Hcovered, Hkeys.
Qed.

(** X11.  Whatever the graph, with or without cycle, as long as every
    recorded dependent is a key: the driver ends (the recursion never needs
    more depth than there are keys) and returns every key of the registry
    exactly once; the registry is left as it was and a coordinate of the grid
    is as before or holds [Error].  An exception can leave it only when
    [std::stoi] cannot read the row of some key. *)
Theorem topological_sort_lists_every_key_once order s :
  (∀ x w, w ∈ dependents (dependencies s) x → w ∈ dom (dependencies s)) →
  order ≡ₚ keys_of s →
  match topological_sort_dependencies order s with
  | Done (sorted, s') =>
      sorted ≡ₚ keys_of s ∧ dependencies s' = dependencies s ∧
      (∀ coords, cell_at (cells s') coords = cell_at (cells s) coords ∨
                 cell_at (cells s') coords = Some (State Error))
  | Throws => ∃ k, k ∈ keys_of s ∧ address_to_coords k = None
  | OutOfFuel => False
  end.
Proof.
  intros Hclosed Horder. unfold topological_sort_dependencies.
  pose proof (sort_loop_keys (dependencies s) order Hclosed Horder (cells s))
    as Hsort.
  destruct (sort_loop _ _ _ _ _) as [[st cs']| |]; simpl; [|..|done].
  - by destruct Hsort.
  - destruct (decide (Forall (λ k, is_Some (address_to_coords k)) (keys_of s)))
      as [Hall|Hsome].
    + exfalso. apply Hsort. intros k Hk. rewrite Forall_forall in Hall.
      apply Hall. unfold keys_of. by apply elem_of_elements.
    + apply not_Forall_Exists in Hsome; [|apply _].
      apply Exists_exists in Hsome as (k & Hk & Hnone).
      exists k. split; [done|].
      destruct (address_to_coords k) as [p|] eqn:Hp; [|done].
      exfalso. apply Hnone. rewrite Hp. by exists p.
Qed.

Lemma topological_sort_lists_every_key_once_witness :
  ∃ sorted s',
    topological_sort_dependencies ["A0"; "B0"] (load "B0 1 +,A0 1 +")
    = Done (sorted, s') ∧
    sorted ≡ₚ keys_of (load "B0 1 +,A0 1 +") ∧
    dependencies s' = dependencies (load "B0 1 +,A0 1 +").
Proof.
  pose proof (topological_sort_lists_every_key_once ["A0"; "B0"]
                (load "B0 1 +,A0 1 +")) as Hsort.
  destruct (topological_sort_dependencies _ _) as [[sorted s']| |] eqn:Hrun;
    [|by vm_compute in Hrun..].
  exists sorted, s'. split; [done|].
  destruct Hsort as (Hperm & Hdeps & _); [| |done].
  - intros x w. apply (proj1 (registry_ok_load _)).
  - vm_compute. (reflexivity || apply perm_swap).
Defined.

Lemma keys_readableb_sound s :
  keys_readableb s = true → keys_readable (dependencies s).
Proof.
  unfold keys_readableb, keys_of. rewrite forallb_forall.
  intros Hall k Hk. apply elem_of_elements, list_elem_of_In, Hall in Hk.
  by apply bool_decide_eq_true in Hk.
Qed.

Lemma parse_input_returns_witness :
  ∃ s, parse_input ["B0"; "A0"; "C7"] "5,A0 C7 *" = Done s.
Proof.
  apply parse_input_returns.
  - by apply keys_readableb_sound.
  - vm_compute. solve_Permutation.
  - reflexivity.
Defined.

(** ** Rows that [std::stoi] cannot read *)

Lemma calculate_postfix_dependencies coords expression s :
  dependencies (calculate_postfix coords expression s) = dependencies s.
Proof. done. Qed.



Lemma string_existsb_app p a b :
  string_existsb p (a +:+ b) = string_existsb p a || string_existsb p b.
Proof.
  induction a as [|c a IH]; [done|].
  change (String c a +:+ b) with (String c (a +:+ b)). simpl.
  by rewrite IH, orb_assoc.
Qed.

Lemma tokens_from_existsb p s cur token :
  token ∈ tokens_from s cur → string_existsb p token = true →
  string_existsb p cur = true ∨ string_existsb p s = true.
Proof.
  revert cur. induction s as [|c s IH]; intros cur Hin Htoken; simpl in *.
  - destruct (string_empty cur); [by apply elem_of_nil in Hin|].
    apply list_elem_of_singleton in Hin as ->. by left.
  - destruct (isspace c).
    + destruct (string_empty cur).
      * destruct (IH _ Hin Htoken) as [?|Hs]; [done|].
        right. rewrite Hs. apply orb_true_r.
      * apply elem_of_cons in Hin as [->|Hin]; [by left|].
        destruct (IH _ Hin Htoken) as [?|Hs]; [done|].
        right. rewrite Hs. apply orb_true_r.
    + destruct (IH _ Hin Htoken) as [Hcur|Hs].
      * rewrite string_existsb_app in Hcur. simpl in Hcur.
        rewrite orb_false_r in Hcur.
        apply orb_prop in Hcur as [?|Hc]; [by left|].
        right. by rewrite Hc.
      * right. rewrite Hs. apply orb_true_r.
Qed.

Lemma is_letter_number_format_letter token :
  is_letter_number_format token = true → contains_letter token = true.
Proof.
  unfold is_letter_number_format, contains_letter.
  destruct token as [|c token]; [done|]. simpl.
  destruct (isalpha c); [done|]. done.
Qed.

(** A text with an address among its tokens contains a letter. *)
Lemma address_token_letter t token :
  token ∈ tokens t → is_letter_number_format token = true →
  contains_letter t = true.
Proof.
  intros Hin Hfmt. apply is_letter_number_format_letter in Hfmt.
  by destruct (tokens_from_existsb isalpha t EmptyString token Hin Hfmt).
Qed.



(** * The values of the formulas *)

Lemma substitute_all_set_cell is_address cs toks out p v :
  substitute_all is_address cs toks = Some out →
  (∀ n, cell_at cs p ≠ Some (Int n)) →
  substitute_all is_address (set_cell p v cs) toks = Some out.
Proof.
  intros Hout Hp. revert out Hout.
  induction toks as [|token rest IH]; intros out Hout; simpl in *; [done|].
  destruct (substitute_token is_address cs token) as [piece|] eqn:Hpiece;
    [|done].
  destruct (substitute_all is_address cs rest) as [out'|]; [|done].
  rewrite (IH out' eq_refl).
  enough (substitute_token is_address (set_cell p v cs) token = Some piece)
    as -> by done.
  unfold substitute_token in *. destruct (is_address token); [|done].
  destruct (address_to_coords token) as [q|]; [|done].
  destruct (cell_at cs q) as [[n|st]|] eqn:Hq; [|done..].
  rewrite cell_at_set_cell_ne, Hq; [done|]. intros ->. by destruct (Hp n).
Qed.

Lemma substituted_nonempty cs formula :
  tokens formula ≠ [] →
  string_empty (substituted is_letter_number_format cs formula) = false.
Proof.
  unfold substituted. destruct (tokens formula) as [|token rest]; [done|].
  intros _. simpl.
  destruct (substitute_token _ _ _); [|done].
  by destruct (substitute_all _ _ _).
Qed.

Lemma tokens_from_nonempty s cur :
  string_existsb isalpha s = true ∨ cur ≠ EmptyString →
  tokens_from s cur ≠ [].
Proof.
  revert cur. induction s as [|c s IH]; intros cur Hs; simpl.
  - destruct Hs as [?|Hcur]; [done|]. by destruct cur.
  - destruct (isspace c) eqn:Hc.
    + destruct cur as [|d cur]; simpl; [|done].
      apply IH. left. destruct Hs as [Hs|?]; [|done]. simpl in Hs.
      by rewrite (isspace_not_alpha _ Hc) in Hs.
    + apply IH. right. by destruct cur.
Qed.

Lemma tokens_nonempty t : contains_letter t = true → tokens t ≠ [].
Proof. intros Ht. apply tokens_from_nonempty. by left. Qed.

Section values.
Variable deps0 : gmap string (string * list string).
Variable cs0 : gmap Z (gmap Z CellValue).
Hypothesis keys_apart :
  ∀ k k' c,
    formula_of deps0 k ≠ EmptyString → formula_of deps0 k' ≠ EmptyString →
    address_to_coords k = Some c → address_to_coords k' = Some c → k = k'.
Hypothesis formula_tokens :
  ∀ k, formula_of deps0 k ≠ EmptyString → tokens (formula_of deps0 k) ≠ [].

Lemma resolve_cell_consistent k rest s s1 :
  k ∉ rest → consistent deps0 cs0 (k :: rest) s →
  resolve_cell k s = Some s1 → consistent deps0 cs0 rest s1.
Proof.
  intros Hfresh (Hform & Hpend & Hdone & Hother) Hrun.
  unfold resolve_cell in Hrun.
  destruct (resolve_references k s) as [sr|] eqn:Href; [|done].
  destruct (resolve_references_result _ _ _ Href) as (Hf & Hothers & Hcells).
  rewrite Hform in Hf by by left.
  assert (∀ k', k' ∈ rest →
                formula_of (dependencies sr) k' = formula_of deps0 k') as Hrest.
  { intros k' Hk'. rewrite Hothers by (intros ->; done).
    apply Hform. by right. }
  assert (∀ toks out,
            substitute_all is_letter_number_format (cells s) toks = Some out →
            substitute_all is_letter_number_format (cells sr) toks = Some out)
    as Hsame.
  { intros toks out <-. by apply substitute_all_ext. }
  destruct (decide (formula_of deps0 k = EmptyString)) as [Hnil|Hne].
  - rewrite Hf, Hnil in Hrun. injection Hrun as <-. split_and!.
    + done.
    + intros k2 ck n Hk2 Hne2 Hck. rewrite Hcells.
      apply (Hpend k2); [by right | done..].
    + intros k2 ck Hk2 Hne2 Hck.
      destruct (Hdone k2 ck) as (v & Hv & Hint); [|done..|].
      { intros [->|?]%elem_of_cons; done. }
      exists v. rewrite Hcells. split; [done|].
      intros n Hn. destruct (Hint n Hn) as (out & Hout & Hval).
      exists out. split; [by apply Hsame | done].
    + intros p Hp. rewrite Hcells. by apply Hother.
  - rewrite Hf, substituted_nonempty in Hrun by by apply formula_tokens.
    destruct (address_to_coords k) as [ck|] eqn:Hck; [|done].
    injection Hrun as <-.
    assert (∀ n, cell_at (cells sr) ck ≠ Some (Int n)) as Hnoint.
    { intros n. rewrite Hcells. apply (Hpend k); [by left | done..]. }
    split_and!; simpl.
    + done.
    + intros k2 c2 n Hk2 Hne2 Hc2.
      rewrite cell_at_set_cell_ne, Hcells.
      * apply (Hpend k2); [by right | done..].
      * intros ->. apply Hfresh.
        by rewrite (keys_apart k k2 c2 Hne Hne2 Hck Hc2).
    + intros k2 c2 Hk2 Hne2 Hc2. destruct (decide (k2 = k)) as [->|Hk2k].
      * simplify_eq. eexists. split; [apply cell_at_set_cell_eq|].
        intros n Hn. unfold substituted in Hn.
        destruct (substitute_all _ (cells s) _) as [out|] eqn:Hout;
          simpl in Hn; [|done].
        exists out. split; [|done].
        apply substitute_all_set_cell; [by apply Hsame | done].
      * destruct (Hdone k2 c2) as (v & Hv & Hint); [|done..|].
        { intros [->|?]%elem_of_cons; done. }
        exists v. split.
        { rewrite cell_at_set_cell_ne, Hcells; [done|]. intros ->.
          apply Hk2k. by apply (keys_apart k2 k c2). }
        intros n Hn. destruct (Hint n Hn) as (out & Hout & Hval).
        exists out. split; [|done].
        apply substitute_all_set_cell; [by apply Hsame | done].
    + intros p Hp. rewrite cell_at_set_cell_ne, Hcells; [by apply Hother|].
      intros ->. by apply (Hp k).
Qed.

Lemma resolve_loop_consistent l s s' :
  NoDup l → consistent deps0 cs0 l s → resolve_loop l s = Some s' →
  consistent deps0 cs0 [] s'.
Proof.
  revert s. induction l as [|k rest IH]; intros s Hnd Hs Hrun; simpl in Hrun.
  - by simplify_eq.
  - apply NoDup_cons in Hnd as [Hfresh Hnd].
    destruct (resolve_cell k s) as [s1|] eqn:Hcell; [|done].
    eapply IH; [done | | done]. by eapply resolve_cell_consistent.
Qed.
End values.

(** The state in which a run within columns A to Z ends. *)
Lemma parse_input_consistent contents order s :
  within_column_Z contents = true →
  order ≡ₚ keys_of (load contents) →
  parse_input order contents = Done s →
  ∃ cs0,
    (∀ coords, cell_at cs0 coords = cell_at (cells (load contents)) coords ∨
               cell_at cs0 coords = Some (State Error)) ∧
    consistent (dependencies (load contents)) cs0 [] s.
Proof.
  set (s0 := load contents). set (deps0 := dependencies s0).
  intros Hwithin Horder Hrun.
  unfold parse_input, resolve_dependencies, topological_sort_dependencies in Hrun.
  fold s0 deps0 in Hrun.
  pose proof (sort_loop_keys deps0 order (proj1 (registry_ok_load contents))
                Horder (cells s0)) as Hsort.
  destruct (sort_loop deps0 (S (size deps0)) order (mkDfs ∅ ∅ []) (cells s0))
    as [[st cs]| |]; [|done..].
  simpl in Hrun. destruct Hsort as [Hperm Hcells].
  destruct (resolve_loop (res st) (mkSpreadsheet cs deps0)) as [s'|] eqn:Hloop;
    simpl in Hrun; simplify_eq.
  exists cs. split; [done|].
  apply (resolve_loop_consistent deps0 cs) with (l := res st)
                                                (s := mkSpreadsheet cs deps0).
  - intros k k' c Hk Hk' Hc Hc'.
    destruct (formula_key_address contents k Hwithin Hk) as (ck & _ & -> & Hck & _).
    destruct (formula_key_address contents k' Hwithin Hk')
      as (ck' & _ & -> & Hck' & _).
    congruence.
  - intros k Hk.
    destruct (formula_key_address contents k Hwithin Hk) as (ck & _ & _ & _ & Hl).
    by apply tokens_nonempty.
  - rewrite Hperm. apply NoDup_elements.
  - split_and!; simpl.
    + done.
    + intros k ck n _ Hk Hck Hcell.
      destruct (formula_key_address contents k Hwithin Hk)
        as (ck' & Htext & _ & Hck' & Hletter).
      destruct (Hcells ck) as [Hsame|Herr]; [|congruence].
      rewrite Hsame in Hcell.
      destruct (loaded_load contents) as (_ & _ & Hgrid).
      destruct (Hgrid _ _ Hcell) as (t & Ht & Hplain & _).
      fold s0 deps0 in Htext, Hletter. congruence.
    + intros k ck Hk Hne. exfalso. apply Hk. rewrite Hperm.
      apply elem_of_elements, elem_of_dom. unfold formula_of in Hne.
      by destruct (deps0 !! k).
    + done.
  - done.
Qed.

(** The coordinate of a cell without letter is the coordinate of no
    formula. *)
Lemma plain_cell_no_formula contents coords :
  within_column_Z contents = true →
  (∀ t, text_at (getlines "010" contents) coords = Some t →
        contains_letter t = false) →
  ∀ k, formula_of (dependencies (load contents)) k ≠ EmptyString →
       address_to_coords k ≠ Some coords.
Proof.
  intros Hwithin Hplain k Hk Hcoords.
  destruct (formula_key_address contents k Hwithin Hk)
    as (ck & Htext & _ & Hck & Hletter).
  simplify_eq. apply Hplain in Htext. congruence.
Qed.

(** The address of a formula cell within columns A to Z. *)
Lemma formula_cell_key contents coords t :
  within_column_Z contents = true →
  text_at (getlines "010" contents) coords = Some t →
  contains_letter t = true →
  formula_of (dependencies (load contents)) (coords_to_address coords) = t ∧
  t ≠ EmptyString ∧
  address_to_coords (coords_to_address coords) = Some coords.
Proof.
  intros Hwithin Htext Hletter. split_and!.
  - by apply load_formula_cell.
  - intros ->. done.
  - destruct coords as [col row].
    destruct (text_at_within _ _ _ _ Hwithin Htext).
    by apply address_to_coords_to_address.
Qed.

(** X13.  Within columns A to Z, when the run ends normally, every cell
    of the input has a value in the grid, an integer or [Error]: no formula
    is left unevaluated.  A cell without letter keeps the value loading gave
    it, unless the cycle sweep has replaced it by [Error]. *)
Theorem every_input_cell_ends_with_a_value contents order s coords t :
  within_column_Z contents = true →
  order ≡ₚ keys_of (load contents) →
  parse_input order contents = Done s →
  text_at (getlines "010" contents) coords = Some t →
  ∃ v, cell_at (cells s) coords = Some v ∧
       ((∃ n, v = Int n) ∨ v = State Error) ∧
       (contains_letter t = false →
        v = postfix_value t ∨ v = State Error).
Proof.
  intros Hwithin Horder Hrun Htext.
  destruct (parse_input_consistent contents order s Hwithin Horder Hrun)
    as (cs0 & Hcs0 & _ & _ & Hdone & Hother).
  assert (no_empty (cells s)) as Hne
    by (eapply no_empty_resolve_dependencies; [done | apply no_empty_load]).
  assert (∀ v, cell_at (cells s) coords = Some v →
               (∃ n, v = Int n) ∨ v = State Error) as Hshape.
  { intros v Hv. specialize (Hne coords v Hv).
    destruct v as [n|[]]; [eauto | done | by right]. }
  destruct (contains_letter t) eqn:Hletter.
  - destruct (formula_cell_key contents coords t Hwithin Htext Hletter)
      as (Hf & Hnil & Hcoords).
    destruct (Hdone (coords_to_address coords) coords) as (v & Hv & _);
      [by intros ?%elem_of_nil | by rewrite Hf | done |].
    exists v. split_and!; [done | by apply Hshape | done].
  - assert (cell_at (cells s) coords = cell_at cs0 coords) as Hsame.
    { apply Hother, (plain_cell_no_formula contents coords Hwithin).
      intros t' Ht'. congruence. }
    pose proof (load_plain_cell contents coords t Htext Hletter) as Hload.
    destruct (Hcs0 coords) as [Heq|Herr].
    + exists (postfix_value t). rewrite Hsame, Heq.
      split_and!; [done | | by left].
      apply Hshape. by rewrite Hsame, Heq.
    + exists (State Error). rewrite Hsame.
      split_and!; [done | by right | by right].
Qed.

Lemma every_input_cell_ends_with_a_value_witness :
  ∃ s v, parse_input ["A0"; "B0"] "5,A0 2 *" = Done s ∧
         cell_at (cells s) (1, 0) = Some v ∧
         ((∃ n, v = Int n) ∨ v = State Error).
Proof.
  destruct (parse_input ["A0"; "B0"] "5,A0 2 *") as [s| |] eqn:Hrun;
    [|by vm_compute in Hrun..].
  destruct (every_input_cell_ends_with_a_value "5,A0 2 *" ["A0"; "B0"] s
              (1, 0) "A0 2 *"%string) as (v & Hv & Hshape & _);
    [reflexivity | vm_compute; (reflexivity || apply perm_swap) | done
    | reflexivity |].
  by exists s, v.
Defined.

(** X14.  Within columns A to Z, when the run ends normally, a coordinate
    where the input has no cell never holds an integer: it is absent from
    the grid, or the cycle sweep has stored [Error] there. *)
Theorem cells_without_input_hold_no_integer contents order s coords :
  within_column_Z contents = true →
  order ≡ₚ keys_of (load contents) →
  parse_input order contents = Done s →
  text_at (getlines "010" contents) coords = None →
  cell_at (cells s) coords = None ∨
  cell_at (cells s) coords = Some (State Error).
Proof.
  intros Hwithin Horder Hrun Htext.
  destruct (parse_input_consistent contents order s Hwithin Horder Hrun)
    as (cs0 & Hcs0 & _ & _ & _ & Hother).
  rewrite Hother.
  - destruct (Hcs0 coords) as [->|?]; [|by right].
    left. destruct (cell_at (cells (load contents)) coords) as [v|] eqn:Hv;
      [|done].
    destruct (loaded_load contents) as (_ & _ & Hgrid).
    destruct (Hgrid _ _ Hv) as (t & Ht & _). congruence.
  - apply (plain_cell_no_formula contents coords Hwithin).
    intros t Ht. congruence.
Qed.

Lemma cells_without_input_hold_no_integer_witness :
  ∃ s, parse_input ["A0"; "B5"] "B5 1 +" = Done s ∧
       (cell_at (cells s) (1, 5) = None ∨
        cell_at (cells s) (1, 5) = Some (State Error)).
Proof.
  destruct (parse_input ["A0"; "B5"] "B5 1 +") as [s| |] eqn:Hrun;
    [|by vm_compute in Hrun..].
  exists s. split; [done|].
  apply (cells_without_input_hold_no_integer "B5 1 +" ["A0"; "B5"]);
    [reflexivity | vm_compute; (reflexivity || apply perm_swap) | done
    | reflexivity].
Defined.

(** X15.  Within columns A to Z, when the run ends normally, an integer
    shown for a formula is the value of that formula in the final grid:
    every address of the text holds an integer at the end, and evaluating the
    text with each address replaced by that integer gives the integer of the
    cell.  This holds with or without cycles, in every order of the keys. *)
Theorem integer_of_formula_is_its_value contents order s coords t n :
  within_column_Z contents = true →
  order ≡ₚ keys_of (load contents) →
  parse_input order contents = Done s →
  text_at (getlines "010" contents) coords = Some t →
  contains_letter t = true →
  cell_at (cells s) coords = Some (Int n) →
  (∀ token, token ∈ tokens t → is_letter_number_format token = true →
            ∃ target m, address_to_coords token = Some target ∧
                        cell_at (cells s) target = Some (Int m)) ∧
  postfix_value (substituted is_letter_number_format (cells s) t) = Int n.
Proof.
  intros Hwithin Horder Hrun Htext Hletter Hcell.
  destruct (parse_input_consistent contents order s Hwithin Horder Hrun)
    as (cs0 & _ & _ & _ & Hdone & _).
  destruct (formula_cell_key contents coords t Hwithin Htext Hletter)
    as (Hf & Hnil & Hcoords).
  destruct (Hdone (coords_to_address coords) coords) as (v & Hv & Hint);
    [by intros ?%elem_of_nil | by rewrite Hf | done |].
  rewrite Hcell in Hv. injection Hv as <-.
  destruct (Hint n eq_refl) as (out & Hout & Hval). rewrite Hf in Hout.
  split; [|unfold substituted; by rewrite Hout].
  intros token Hin Hfmt.
  destruct (address_to_coords token) as [target|] eqn:Htarget.
  - destruct (cell_at (cells s) target) as [[m|st]|] eqn:Hm; [by eauto|..];
      rewrite (substitute_all_no_integer _ _ token target) in Hout;
      try done; intros m; by rewrite Hm.
  - clear Hint Hval. exfalso. revert out Hout.
    induction (tokens t) as [|tok toks IH]; intros out Hout;
      [by apply elem_of_nil in Hin|].
    simpl in Hout. apply elem_of_cons in Hin as [<-|Hin].
    + unfold substitute_token in Hout. by rewrite Hfmt, Htarget in Hout.
    + destruct (substitute_token _ _ tok); [|done].
      destruct (substitute_all _ _ toks) as [out'|]; [|done].
      by apply (IH Hin out').
Qed.

Lemma integer_of_formula_is_its_value_witness :
  ∃ s, parse_input ["A0"; "B0"] "5,A0 2 *" = Done s ∧
       postfix_value (substituted is_letter_number_format (cells s) "A0 2 *")
       = Int 10.
Proof.
  destruct (parse_input ["A0"; "B0"] "5,A0 2 *") as [s| |] eqn:Hrun;
    [|by vm_compute in Hrun..].
  exists s. split; [done|].
  apply (integer_of_formula_is_its_value "5,A0 2 *" ["A0"; "B0"] s (1, 0));
    [reflexivity | vm_compute; (reflexivity || apply perm_swap) | done
    | reflexivity | reflexivity |].
  vm_compute in Hrun. injection Hrun as <-. reflexivity.
Defined.

(** X16.  Within columns A to Z, when the run ends normally, errors spread
    along references: a formula that mentions an address whose cell does not
    end with an integer (it is undefined, it failed, or it lies on a cycle)
    ends with [Error]. *)
Theorem formula_over_non_integer_ends_as_error
    contents order s coords t token target :
  within_column_Z contents = true →
  order ≡ₚ keys_of (load contents) →
  parse_input order contents = Done s →
  text_at (getlines "010" contents) coords = Some t →
  token ∈ tokens t → is_letter_number_format token = true →
  address_to_coords token = Some target →
  (∀ m, cell_at (cells s) target ≠ Some (Int m)) →
  cell_at (cells s) coords = Some (State Error).
Proof.
  intros Hwithin Horder Hrun Htext Hin Hfmt Htarget Hnoint.
  pose proof (address_token_letter t token Hin Hfmt) as Hletter.
  destruct (parse_input_consistent contents order s Hwithin Horder Hrun)
    as (cs0 & _ & _ & _ & Hdone & _).
  destruct (formula_cell_key contents coords t Hwithin Htext Hletter)
    as (Hf & Hnil & Hcoords).
  destruct (Hdone (coords_to_address coords) coords) as (v & Hv & Hint);
    [by intros ?%elem_of_nil | by rewrite Hf | done |].
  rewrite Hv. f_equal.
  assert (no_empty (cells s)) as Hne
    by (eapply no_empty_resolve_dependencies; [done | apply no_empty_load]).
  specialize (Hne coords v Hv).
  destruct v as [n|[]]; [|done..].
  destruct (Hint n eq_refl) as (out & Hout & _). rewrite Hf in Hout.
  by rewrite (substitute_all_no_integer _ _ token target) in Hout.
Qed.

Lemma formula_over_non_integer_ends_as_error_witness :
  ∃ s, parse_input ["A0"; "B0"] "B0 1 +,0 1 /" = Done s ∧
       cell_at (cells s) (0, 0) = Some (State Error).
Proof.
  destruct (parse_input ["A0"; "B0"] "B0 1 +,0 1 /") as [s| |] eqn:Hrun;
    [|by vm_compute in Hrun..].
  exists s. split; [done|].
  apply (formula_over_non_integer_ends_as_error "B0 1 +,0 1 /" ["A0"; "B0"] s
           (0, 0) "B0 1 +"%string "B0"%string (1, 0));
    [reflexivity | vm_compute; (reflexivity || apply perm_swap) | done
    | reflexivity | by left | reflexivity | reflexivity |].
  vm_compute in Hrun. injection Hrun as <-. intros m. discriminate.
Defined.

(** * Sheets without cycle *)

Lemma canonical_refs_spec contents coords t token :
  canonical_refs contents = true →
  text_at (getlines "010" contents) coords = Some t →
  token ∈ tokens t → is_letter_number_format token = true →
  ∃ p, address_to_coords token = Some p ∧ coords_to_address p = token.
Proof.
  unfold canonical_refs. rewrite forallb_forall.
  intros Hall (i & line & j & -> & Hi & Hj)%text_at_inv Hin Hfmt.
  apply list_elem_of_lookup_2, list_elem_of_In, Hall in Hi.
  rewrite forallb_forall in Hi.
  apply list_elem_of_lookup_2, list_elem_of_In, Hi in Hj.
  rewrite forallb_forall in Hj.
  apply list_elem_of_In, Hj in Hin. rewrite Hfmt in Hin. simpl in Hin.
  destruct (address_to_coords token) as [p|]; [|done].
  exists p. split; [done|]. by apply String.eqb_eq.
Qed.

Lemma substitute_all_set_cell_unmentioned cs toks p v :
  (∀ token, token ∈ toks → is_letter_number_format token = true →
            address_to_coords token ≠ Some p) →
  substitute_all is_letter_number_format (set_cell p v cs) toks =
  substitute_all is_letter_number_format cs toks.
Proof.
  induction toks as [|token rest IH]; intros Hun; simpl; [done|].
  rewrite IH by (intros x Hx; apply Hun; by right).
  enough (substitute_token is_letter_number_format (set_cell p v cs) token
          = substitute_token is_letter_number_format cs token) as -> by done.
  unfold substitute_token.
  destruct (is_letter_number_format token) eqn:Hfmt; [|done].
  destruct (address_to_coords token) as [q|] eqn:Hq; [|done].
  rewrite cell_at_set_cell_ne; [done|]. intros ->.
  by apply (Hun token); [left|..].
Qed.

Section settling.
Variable deps0 : gmap string (string * list string).
Variable cs0 : gmap Z (gmap Z CellValue).
Hypothesis keys_apart :
  ∀ k k' c,
    formula_of deps0 k ≠ EmptyString → formula_of deps0 k' ≠ EmptyString →
    address_to_coords k = Some c → address_to_coords k' = Some c → k = k'.
Hypothesis formula_tokens :
  ∀ k, formula_of deps0 k ≠ EmptyString → tokens (formula_of deps0 k) ≠ [].
Hypothesis mention_edge :
  ∀ k2 token p k,
    references deps0 k2 token → address_to_coords token = Some p →
    formula_of deps0 k ≠ EmptyString → address_to_coords k = Some p →
    edge deps0 k k2.

Lemma resolve_cell_settled before k rest s s1 :
  NoDup (before ++ k :: rest) → (∀ w, edge deps0 k w → w ∈ rest) →
  settled deps0 cs0 before (k :: rest) s →
  resolve_cell k s = Some s1 → settled deps0 cs0 (before ++ [k]) rest s1.
Proof.
  intros Hnd Hedges (Hform & Hdone & Hother) Hrun.
  apply NoDup_app in Hnd as (_ & Hsep & [Hfresh _]%NoDup_cons).
  unfold resolve_cell in Hrun.
  destruct (resolve_references k s) as [sr|] eqn:Href; [|done].
  destruct (resolve_references_result _ _ _ Href) as (Hf & Hothers & Hcells).
  rewrite Hform in Hf by by left.
  assert (∀ k', k' ∈ rest →
                formula_of (dependencies sr) k' = formula_of deps0 k') as Hrest.
  { intros k' Hk'. rewrite Hothers by (intros ->; done).
    apply Hform. by right. }
  assert (∀ formula,
            substituted is_letter_number_format (cells sr) formula
            = substituted is_letter_number_format (cells s) formula) as Hsame.
  { intros formula. unfold substituted. f_equal.
    by apply substitute_all_ext. }
  destruct (decide (formula_of deps0 k = EmptyString)) as [Hnil|Hne].
  - rewrite Hf, Hnil in Hrun. injection Hrun as <-. split_and!.
    + done.
    + intros k2 c2 [Hk2|Hk2%list_elem_of_singleton]%elem_of_app Hne2 Hc2;
        [|by subst k2].
      rewrite Hcells, Hsame. by apply Hdone.
    + intros p Hp. rewrite Hcells. apply Hother.
      intros k2 Hk2. apply Hp, elem_of_app. by left.
  - rewrite Hf, substituted_nonempty in Hrun by by apply formula_tokens.
    destruct (address_to_coords k) as [ck|] eqn:Hck; [|done].
    injection Hrun as <-.
    assert (∀ k2 v, k2 ∈ before ∨ k2 = k →
              substituted is_letter_number_format
                (set_cell ck v (cells sr)) (formula_of deps0 k2)
              = substituted is_letter_number_format (cells s)
                  (formula_of deps0 k2)) as Hstable.
    { intros k2 v Hk2. rewrite <- Hsame. unfold substituted. f_equal.
      apply substitute_all_set_cell_unmentioned.
      intros token Hin Hfmt Htoken.
      assert (edge deps0 k k2) as Hedge
        by by apply (mention_edge k2 token ck k).
      apply Hedges in Hedge. destruct Hk2 as [Hk2|Hk2]; [|by subst k2].
      apply (Hsep k2 Hk2). by right. }
    split_and!; simpl.
    + done.
    + intros k2 c2 [Hk2|Hk2%list_elem_of_singleton]%elem_of_app Hne2 Hc2.
      * rewrite Hstable by by left.
        rewrite cell_at_set_cell_ne, Hcells; [by apply Hdone|].
        intros ->. apply (Hsep k2 Hk2), elem_of_cons. left.
        by apply (keys_apart k2 k c2).
      * subst k2. simplify_eq. rewrite Hstable by by right.
        apply cell_at_set_cell_eq.
    + intros p Hp. rewrite cell_at_set_cell_ne, Hcells.
      * apply Hother. intros k2 Hk2. apply Hp, elem_of_app. by left.
      * intros ->. apply (Hp k); [|done..].
        apply elem_of_app. right. by left.
Qed.

Lemma resolve_loop_settled before l s s' :
  NoDup (before ++ l) → topo_sorted deps0 l →
  settled deps0 cs0 before l s → resolve_loop l s = Some s' →
  settled deps0 cs0 (before ++ l) [] s'.
Proof.
  revert before s. induction l as [|k rest IH];
    intros before s Hnd Hsorted Hs Hrun; simpl in Hrun.
  - simplify_eq. by rewrite app_nil_r.
  - destruct Hsorted as [Hedges Hsorted].
    destruct (resolve_cell k s) as [s1|] eqn:Hcell; [|done].
    replace (before ++ k :: rest) with ((before ++ [k]) ++ rest) in *
      by by rewrite <- app_assoc.
    apply (IH (before ++ [k]) s1); try done.
    apply (resolve_cell_settled before k rest s); try done.
    by rewrite <- app_assoc in Hnd.
Qed.
End settling.

Lemma load_key contents k :
  k ∈ dom (dependencies (load contents)) →
  ∃ coords t,
    text_at (getlines "010" contents) coords = Some t ∧
    contains_letter t = true ∧
    (k = coords_to_address coords ∨
     (k ∈ tokens t ∧ is_letter_number_format k = true)).
Proof.
  unfold load. rewrite dom_parse_lines. intros [Hk|(coords & t & Ht & H)].
  - simpl in Hk. by rewrite dom_empty, elem_of_empty in Hk.
  - exists coords, t. by rewrite <- lines_cell_text_at.
Qed.

Lemma formula_keys_apart contents k k' c :
  within_column_Z contents = true →
  formula_of (dependencies (load contents)) k ≠ EmptyString →
  formula_of (dependencies (load contents)) k' ≠ EmptyString →
  address_to_coords k = Some c → address_to_coords k' = Some c → k = k'.
Proof.
  intros Hwithin Hk Hk' Hc Hc'.
  destruct (formula_key_address contents k Hwithin Hk) as (ck & _ & -> & Hck & _).
  destruct (formula_key_address contents k' Hwithin Hk')
    as (ck' & _ & -> & Hck' & _).
  congruence.
Qed.

Lemma formula_keys_tokens contents k :
  within_column_Z contents = true →
  formula_of (dependencies (load contents)) k ≠ EmptyString →
  tokens (formula_of (dependencies (load contents)) k) ≠ [].
Proof.
  intros Hwithin Hk.
  destruct (formula_key_address contents k Hwithin Hk) as (ck & _ & _ & _ & Hl).
  by apply tokens_nonempty.
Qed.

(** The run on a sheet without cycle whose references are canonical, as
    the embedding computes it: no exception leaves it.  (The embedding
    goes on past a division of [INT_MIN] by -1, where the program is
    killed; the statements below are about the runs that end normally.) *)
Lemma acyclic_sheet_solved contents order :
  within_column_Z contents = true →
  canonical_refs contents = true →
  acyclic (dependencies (load contents)) →
  order ≡ₚ keys_of (load contents) →
  ∃ s,
    parse_input order contents = Done s ∧
    evaluated contents (cells s).
Proof.
  set (s0 := load contents). set (deps0 := dependencies s0).
  set (lines := getlines "010" contents).
  intros Hwithin Hcanon Hacyclic Horder.
  destruct (registry_ok_load contents) as [Hclosed Hrefs].
  fold s0 deps0 in Hclosed, Hrefs.
  assert (∀ k, k ∈ order ↔ k ∈ dom deps0) as Hkeys.
  { intros k. rewrite Horder. unfold keys_of. apply elem_of_elements. }
  destruct (sort_loop_acyclic deps0 Hclosed Hacyclic (S (size deps0)) order
              (mkDfs ∅ ∅ []) (cells s0))
    as (st & Hsort & (Hm & Hnd & _ & Htopo & Hdom) & Hstack & _ & Hall).
  { lia. }
  { unfold dfs_inv. simpl. split_and!; try done.
    - set_solver.
    - apply NoDup_nil_2. }
  { done. }
  { intros k. apply Hkeys. }
  assert (∀ k, k ∈ res st ↔ k ∈ dom deps0) as Hres.
  { intros k. split.
    - intros Hk. apply Hdom, Hm. by left.
    - intros Hk. apply Hkeys, Hall, Hm in Hk as [Hk|Hk]; [done|].
      rewrite Hstack in Hk. by apply elem_of_empty in Hk. }
  assert (keys_readable deps0) as Hreadable.
  { intros k Hk.
    destruct (load_key contents k Hk) as (coords & t & Ht & Hl & [->|[Hin Hfmt]]).
    - destruct coords as [col row].
      destruct (text_at_within _ _ _ _ Hwithin Ht).
      rewrite address_to_coords_to_address by done. by eexists.
    - destruct (canonical_refs_spec contents coords t k Hcanon Ht Hin Hfmt)
        as (p & -> & _). by eexists. }
  destruct (resolve_loop_returns deps0 (res st) (mkSpreadsheet (cells s0) deps0))
    as [s Hloop]; try done.
  { intros c t Href. by destruct (Hrefs c t Href). }
  { intros k. apply Hres. }
  exists s. split.
  { unfold parse_input, resolve_dependencies, topological_sort_dependencies.
    fold s0 deps0. rewrite Hsort. simpl. by rewrite Hloop. }
  assert (∀ k2 token p k,
            references deps0 k2 token → address_to_coords token = Some p →
            formula_of deps0 k ≠ EmptyString → address_to_coords k = Some p →
            edge deps0 k k2) as Hmention.
  { intros k2 token p k Href Htoken Hk Hp.
    pose proof (references_formula_nonempty _ _ _ Href) as Hk2.
    destruct (formula_key_address contents k2 Hwithin Hk2)
      as (c2 & Htext2 & _).
    destruct Href as [Hin Hfmt].
    destruct (canonical_refs_spec contents c2 _ token Hcanon Htext2 Hin Hfmt)
      as (p' & Hp' & Hcanonical).
    destruct (formula_key_address contents k Hwithin Hk)
      as (ck & _ & Hkeq & Hck & _).
    assert (k = token) as -> by congruence.
    by apply Hrefs. }
  assert (settled deps0 (cells s0) ([] ++ res st) [] s)
    as (_ & Hdone & Hother).
  { apply (resolve_loop_settled deps0 (cells s0)
             (λ k k' c, formula_keys_apart contents k k' c Hwithin)
             (λ k, formula_keys_tokens contents k Hwithin) Hmention
             [] (res st) (mkSpreadsheet (cells s0) deps0) s); try done.
    split_and!; try done. by intros k ck ?%elem_of_nil. }
  simpl in Hdone, Hother. intros coords. fold lines.
  destruct (text_at lines coords) as [t|] eqn:Htext.
  - destruct (contains_letter t) eqn:Hletter.
    + destruct (formula_cell_key contents coords t Hwithin Htext Hletter)
        as (Hf & Hnil & Hcoords).
      fold s0 deps0 in Hf.
      rewrite (Hdone (coords_to_address coords) coords), Hf; try done.
      * apply Hres, elem_of_dom. unfold formula_of in Hf.
        destruct (deps0 !! coords_to_address coords); [done|].
        by subst t.
      * by rewrite Hf.
    + rewrite Hother.
      * by apply load_plain_cell.
      * intros k _. apply (plain_cell_no_formula contents coords Hwithin).
        intros t' Ht'. fold lines in Ht'. congruence.
  - rewrite Hother.
    + destruct (cell_at (cells s0) coords) as [v|] eqn:Hv; [|done].
      destruct (loaded_load contents) as (_ & _ & Hgrid).
      destruct (Hgrid _ _ Hv) as (t & Ht & _). fold lines in Ht. congruence.
    + intros k _. apply (plain_cell_no_formula contents coords Hwithin).
      intros t Ht. fold lines in Ht. congruence.
Qed.

Lemma substitute_all_agree g1 g2 toks :
  (∀ token p, token ∈ toks → is_letter_number_format token = true →
              address_to_coords token = Some p →
              cell_at g1 p = cell_at g2 p) →
  substitute_all is_letter_number_format g1 toks =
  substitute_all is_letter_number_format g2 toks.
Proof.
  induction toks as [|token toks IH]; intros Hagree; [done|].
  simpl. rewrite IH by (intros x p Hx; apply Hagree; by right).
  enough (substitute_token is_letter_number_format g1 token
          = substitute_token is_letter_number_format g2 token) as -> by done.
  unfold substitute_token.
  destruct (is_letter_number_format token) eqn:Hfmt; [|done].
  destruct (address_to_coords token) as [p|] eqn:Hp; [|done].
  rewrite (Hagree token p); [done | by left | done..].
Qed.

Lemma topo_sorted_closed deps l x w :
  topo_sorted deps l → x ∈ l → edge deps x w → w ∈ l.
Proof.
  intros Hsorted Hx Hedge.
  destruct (topo_sorted_precedes deps l x w Hsorted Hx Hedge)
    as (l1 & l2 & l3 & ->).
  apply elem_of_app. right. right. apply elem_of_app. right. by left.
Qed.

(** Two grids that both hold what the sheet prescribes agree on the
    formula cells, taken in the order of a list in which every address comes
    before its dependents. *)
Lemma evaluated_agree_along contents g1 g2 l :
  within_column_Z contents = true →
  canonical_refs contents = true →
  evaluated contents g1 → evaluated contents g2 →
  ∀ before,
    NoDup (before ++ l) → topo_sorted (dependencies (load contents)) l →
    (∀ k, k ∈ dom (dependencies (load contents)) → k ∈ before ++ l) →
    (∀ p t, text_at (getlines "010" contents) p = Some t →
            contains_letter t = true → coords_to_address p ∈ before →
            cell_at g1 p = cell_at g2 p) →
    ∀ p t, text_at (getlines "010" contents) p = Some t →
           contains_letter t = true → coords_to_address p ∈ before ++ l →
           cell_at g1 p = cell_at g2 p.
Proof.
  set (deps0 := dependencies (load contents)).
  set (lines := getlines "010" contents).
  intros Hwithin Hcanon Hg1 Hg2.
  destruct (registry_ok_load contents) as [Hclosed Hrefs].
  fold deps0 in Hclosed, Hrefs.
  induction l as [|k rest IH]; intros before Hnodup Hsorted Hcover Hbefore.
  { by rewrite app_nil_r. }
  destruct Hsorted as [Hedges Hsorted].
  replace (before ++ k :: rest) with ((before ++ [k]) ++ rest) in *
    by by rewrite <- app_assoc.
  apply IH; try done.
  intros p t Htext Hletter [Hp|Hp%list_elem_of_singleton]%elem_of_app;
    [by apply (Hbefore p t)|].
  destruct (formula_cell_key contents p t Hwithin Htext Hletter)
    as (Hf & Hnil & Hcoords).
  fold deps0 in Hf. rewrite Hp in Hf.
  rewrite (Hg1 p), (Hg2 p). fold lines. rewrite Htext, Hletter.
  do 2 f_equal. unfold substituted. f_equal.
  apply substitute_all_agree. intros token q Hin Hfmt Hq.
  destruct (text_at lines q) as [t'|] eqn:Htq;
    [|by rewrite (Hg1 q), (Hg2 q); fold lines; rewrite Htq].
  destruct (contains_letter t') eqn:Hlt;
    [|by rewrite (Hg1 q), (Hg2 q); fold lines; rewrite Htq, Hlt].
  destruct (canonical_refs_spec contents p t token Hcanon Htext Hin Hfmt)
    as (q' & Hq' & Hcanonical).
  assert (token = coords_to_address q) as -> by congruence.
  destruct (Hrefs k (coords_to_address q)) as [Hkey Hedge].
  { split; [by rewrite Hf | done]. }
  apply NoDup_app in Hnodup as (Hnd1 & Hsep & Hnd2).
  apply NoDup_app in Hnd1 as (_ & Hsep1 & _).
  apply Hcover, elem_of_app in Hkey as [Hkey|Hkey].
  - apply elem_of_app in Hkey as [Hkey|Hkey%list_elem_of_singleton].
    + by apply (Hbefore q t').
    + rewrite Hkey in Hedge. apply Hedges in Hedge.
      exfalso. apply (Hsep k); [|done]. apply elem_of_app. right. by left.
  - exfalso. apply (Hsep k).
    + apply elem_of_app. right. by left.
    + by apply (topo_sorted_closed deps0 rest (coords_to_address q) k).
Qed.

(** What such a sheet prescribes determines the grid. *)
Lemma evaluated_unique contents g1 g2 :
  within_column_Z contents = true →
  canonical_refs contents = true →
  acyclic (dependencies (load contents)) →
  evaluated contents g1 → evaluated contents g2 →
  ∀ coords, cell_at g1 coords = cell_at g2 coords.
Proof.
  set (s0 := load contents). set (deps0 := dependencies s0).
  set (lines := getlines "010" contents).
  intros Hwithin Hcanon Hacyclic Hg1 Hg2.
  destruct (registry_ok_load contents) as [Hclosed Hrefs].
  fold s0 deps0 in Hclosed, Hrefs.
  destruct (sort_loop_acyclic deps0 Hclosed Hacyclic (S (size deps0))
              (keys_of s0) (mkDfs ∅ ∅ []) (cells s0))
    as (st & _ & (Hm & Hnd & _ & Htopo & _) & Hstack & _ & Hall).
  { lia. }
  { unfold dfs_inv. simpl. split_and!; try done.
    - set_solver.
    - apply NoDup_nil_2. }
  { done. }
  { intros k Hk. unfold keys_of in Hk. by apply elem_of_elements in Hk. }
  assert (∀ k, k ∈ dom deps0 → k ∈ res st) as Hres.
  { intros k Hk. apply elem_of_elements in Hk.
    apply Hall, Hm in Hk as [Hk|Hk]; [done|].
    rewrite Hstack in Hk. by apply elem_of_empty in Hk. }
  intros coords.
  destruct (text_at lines coords) as [t|] eqn:Htext;
    [|by rewrite (Hg1 coords), (Hg2 coords); fold lines; rewrite Htext].
  destruct (contains_letter t) eqn:Hletter;
    [|by rewrite (Hg1 coords), (Hg2 coords); fold lines;
         rewrite Htext, Hletter].
  destruct (formula_cell_key contents coords t Hwithin Htext Hletter)
    as (Hf & Hnil & Hcoords).
  apply (evaluated_agree_along contents g1 g2 (res st) Hwithin Hcanon Hg1 Hg2
           [] Hnd Htopo Hres) with (t := t); try done.
  - by intros p t' _ _ ?%elem_of_nil.
  - simpl. apply Hres, elem_of_dom. fold s0 deps0 in Hf.
    unfold formula_of in Hf.
    destruct (deps0 !! coords_to_address coords); [done|]. by subst t.
Qed.

(** A run that ends normally on such a sheet ends in that grid. *)
Lemma acyclic_sheet_done_evaluated contents order s :
  within_column_Z contents = true →
  canonical_refs contents = true →
  acyclic (dependencies (load contents)) →
  order ≡ₚ keys_of (load contents) →
  parse_input order contents = Done s →
  evaluated contents (cells s).
Proof.
  intros Hwithin Hcanon Hacyclic Horder Hrun.
  destruct (acyclic_sheet_solved contents order) as (s0 & Hrun0 & Hs0);
    try done.
  rewrite Hrun in Hrun0. by injection Hrun0 as ->.
Qed.

(** X17.  A sheet within columns A to Z whose references are written in
    canonical form and whose dependency graph has no cycle is evaluated
    completely, in every order of the keys: when the run ends normally, in
    the final grid a cell without letter holds the value of its text, a
    formula cell holds the value of its text with every address replaced by
    the integer the grid holds for it ([Error] when some address holds
    none), and no other coordinate holds anything. *)
Theorem acyclic_sheet_is_evaluated contents order s :
  within_column_Z contents = true →
  canonical_refs contents = true →
  acyclic (dependencies (load contents)) →
  order ≡ₚ keys_of (load contents) →
  parse_input order contents = Done s →
  evaluated contents (cells s).
Proof.
  intros Hwithin Hcanon Hacyclic Horder Hrun.
  destruct (acyclic_sheet_solved contents order) as (s0 & Hrun0 & Hs0);
    try done.
  rewrite Hrun in Hrun0. by injection Hrun0 as ->.
Qed.

Lemma acyclic_sheet_is_evaluated_witness :
  ∃ s, parse_input ["A0"; "B0"] "5,A0 2 *" = Done s ∧
       cell_at (cells s) (1, 0) =
       Some (postfix_value
               (substituted is_letter_number_format (cells s) "A0 2 *")).
Proof.
  destruct (parse_input ["A0"; "B0"] "5,A0 2 *") as [s| |] eqn:Hrun;
    [|by vm_compute in Hrun..].
  exists s. split; [done|].
  apply (acyclic_sheet_is_evaluated "5,A0 2 *" ["A0"; "B0"] s); [..|done].
  - reflexivity.
  - reflexivity.
  - apply (ranked_acyclic _ (λ a, if String.eqb a "B0" then 1 else 0)%nat).
    reflexivity.
  - vm_compute. (reflexivity || apply perm_swap).
Defined.

(** X18.  For such a sheet the result does not depend on the order in
    which the keys of the registry are visited: two runs that end normally
    end with the same value, or the same absence of a value, at every
    coordinate. *)
Theorem acyclic_sheet_result_independent_of_order
    contents order order' s s' :
  within_column_Z contents = true →
  canonical_refs contents = true →
  acyclic (dependencies (load contents)) →
  order ≡ₚ keys_of (load contents) →
  order' ≡ₚ keys_of (load contents) →
  parse_input order contents = Done s →
  parse_input order' contents = Done s' →
  ∀ coords, cell_at (cells s) coords = cell_at (cells s') coords.
Proof.
  intros Hwithin Hcanon Hacyclic Horder Horder' Hrun Hrun'.
  apply (evaluated_unique contents); try done.
  - by apply (acyclic_sheet_done_evaluated contents order).
  - by apply (acyclic_sheet_done_evaluated contents order').
Qed.

Lemma acyclic_sheet_result_independent_of_order_witness :
  ∃ s s',
    parse_input ["A0"; "B0"] "5,A0 2 *" = Done s ∧
    parse_input ["B0"; "A0"] "5,A0 2 *" = Done s' ∧
    ∀ coords, cell_at (cells s) coords = cell_at (cells s') coords.
Proof.
  destruct (parse_input ["A0"; "B0"] "5,A0 2 *") as [s| |] eqn:Hrun;
    [|by vm_compute in Hrun..].
  destruct (parse_input ["B0"; "A0"] "5,A0 2 *") as [s'| |] eqn:Hrun';
    [|by vm_compute in Hrun'..].
  exists s, s'. split_and!; [done..|].
  apply (acyclic_sheet_result_independent_of_order "5,A0 2 *"
           ["A0"; "B0"] ["B0"; "A0"]); [..|done|done].
  - reflexivity.
  - reflexivity.
  - apply (ranked_acyclic _ (λ a, if String.eqb a "B0" then 1 else 0)%nat).
    reflexivity.
  - vm_compute. (reflexivity || apply perm_swap).
  - vm_compute. (reflexivity || apply perm_swap).
Defined.

(** * The printed table *)

Lemma print_cell_present cs col row :
  is_Some (cs !! col) →
  print_cell cs col row = shown (cell_at cs (col, row)) +:+ TAB.
Proof.
  intros [column Hcol]. unfold print_cell, cell_at. cbn [fst snd].
  rewrite Hcol. by destruct (column !! row) as [[n|[]]|].
Qed.

Lemma cell_at_column cs coords v :
  cell_at cs coords = Some v → is_Some (cs !! coords.1).
Proof. unfold cell_at. by destruct (cs !! coords.1). Qed.

Lemma count_char_app c a b :
  count_char c (a +:+ b) = (count_char c a + count_char c b)%nat.
Proof.
  induction a as [|d a IH]; [done|].
  change (String d a +:+ b) with (String d (a +:+ b)). simpl.
  rewrite IH. lia.
Qed.

Lemma count_char_none p c s :
  string_forallb p s = true → p c = false → count_char c s = 0%nat.
Proof.
  intros Hs Hc. induction s as [|d s IH]; [done|].
  simpl in *. apply andb_prop in Hs as [Hd Hs].
  destruct (Ascii.eqb_spec d c) as [->|_]; [congruence|]. by rewrite IH.
Qed.

Lemma count_char_to_string n : count_char "009" (to_string n) = 0%nat.
Proof.
  destruct n as [|p|p]; [done|..].
  - rewrite to_string_pos.
    by apply (count_char_none isdigit); [apply string_of_uint_digits|].
  - rewrite to_string_neg. simpl.
    by apply (count_char_none isdigit); [apply string_of_uint_digits|].
Qed.

Lemma count_char_shown v : count_char "009" (shown v) = 0%nat.
Proof. destruct v as [[n|[]]|]; try done. apply count_char_to_string. Qed.

Lemma count_char_foldr {A} c (f : A → string) e l n :
  (∀ x, x ∈ l → count_char c (f x) = n) →
  count_char c (foldr (λ x out, f x +:+ out) e l)
  = (length l * n + count_char c e)%nat.
Proof.
  induction l as [|x l IH]; intros Hl; [done|].
  simpl. rewrite count_char_app, (Hl x), IH; [lia| |by left].
  intros y Hy. apply Hl. by right.
Qed.

Lemma count_char_header max_col :
  count_char "009" (print_header max_col) = S (Z.to_nat (max_col + 1)).
Proof.
  unfold print_header. rewrite count_char_app.
  rewrite (count_char_foldr _ (λ col, coord_to_col col +:+ TAB) _ _ 1).
  - rewrite length_seqZ. simpl. lia.
  - intros col _. rewrite count_char_app.
    by rewrite (count_char_none isupper _ _ (coord_to_col_upper col)).
Qed.

Lemma max_col_of_cell lines m col :
  m < col ≤ max_col_of lines m →
  ∃ (i : nat) line,
    lines !! i = Some line ∧ col < Z.of_nat (length (getlines "," line)).
Proof.
  revert m. induction lines as [|line rest IH]; intros m Hcol; simpl in Hcol.
  - unfold max_col_of in Hcol. simpl in Hcol. lia.
  - change (max_col_of (line :: rest) m)
      with (max_col_of rest
              (Z.max m (Z.of_nat (length (getlines "," line)) - 1))) in Hcol.
    destruct (decide (col ≤ Z.of_nat (length (getlines "," line)) - 1))
      as [Hhere|Hlater].
    + exists 0%nat, line. split; [done | lia].
    + destruct (IH (Z.max m (Z.of_nat (length (getlines "," line)) - 1)))
        as (i & l & Hi & Hl); [lia|].
      by exists (S i), l.
Qed.

(** A sheet with a cell in column A has a cell in every column up to
    [max_col]. *)
Lemma column_has_cell contents col row0 t0 :
  text_at (getlines "010" contents) (0, row0) = Some t0 →
  0 ≤ col ≤ (dimensions contents).1 →
  ∃ row t, text_at (getlines "010" contents) (col, row) = Some t.
Proof.
  intros Hfirst Hcol. destruct (decide (col = 0)) as [->|Hpos]; [by eauto|].
  destruct (max_col_of_cell (getlines "010" contents) 0 col)
    as (i & line & Hi & Hlen); [simpl in Hcol; lia|].
  destruct (lookup_lt_is_Some_2 (getlines "," line) (Z.to_nat col))
    as [t Ht]; [lia|].
  exists (Z.of_nat i), t.
  replace col with (Z.of_nat (Z.to_nat col)) by lia.
  by apply (text_at_lookup _ i line).
Qed.

Lemma input_cell_has_value contents order s coords t :
  within_column_Z contents = true →
  order ≡ₚ keys_of (load contents) →
  parse_input order contents = Done s →
  text_at (getlines "010" contents) coords = Some t →
  is_Some (cell_at (cells s) coords).
Proof.
  intros Hwithin Horder Hrun Htext.
  destruct (parse_input_consistent contents order s Hwithin Horder Hrun)
    as (cs0 & Hcs0 & _ & _ & Hdone & Hother).
  destruct (contains_letter t) eqn:Hletter.
  - destruct (formula_cell_key contents coords t Hwithin Htext Hletter)
      as (Hf & Hnil & Hcoords).
    destruct (Hdone (coords_to_address coords) coords) as (v & Hv & _);
      [by intros ?%elem_of_nil | by rewrite Hf | done |].
    by exists v.
  - rewrite Hother.
    + destruct (Hcs0 coords) as [->| ->]; [|by eexists].
      rewrite (load_plain_cell contents coords t) by done. by eexists.
    + apply (plain_cell_no_formula contents coords Hwithin).
      intros t' Ht'. congruence.
Qed.

(** At the end of a run within columns A to Z on a sheet with a cell in
    column A, the grid has every column that [print_output] visits. *)
Lemma printed_column_present contents order s col row0 t0 :
  within_column_Z contents = true →
  order ≡ₚ keys_of (load contents) →
  parse_input order contents = Done s →
  text_at (getlines "010" contents) (0, row0) = Some t0 →
  0 ≤ col ≤ (dimensions contents).1 →
  is_Some (cells s !! col).
Proof.
  intros Hwithin Horder Hrun Hfirst Hcol.
  destruct (column_has_cell contents col row0 t0 Hfirst Hcol) as (row & t & Ht).
  destruct (input_cell_has_value contents order s _ _ Hwithin Horder Hrun Ht)
    as [v Hv].
  by apply (cell_at_column _ _ _ Hv).
Qed.

(** X19.  Within columns A to Z, when the run ends normally on a sheet
    with a cell in column A, [print_output] writes exactly one
    tab-terminated field for every column up to [max_col], in every row: the
    decimal integer that the grid holds there, [#ERR] for [Error], and an
    empty field when the grid holds nothing. *)
Theorem print_output_writes_one_field_per_column
    contents order s col row row0 t0 :
  within_column_Z contents = true →
  order ≡ₚ keys_of (load contents) →
  parse_input order contents = Done s →
  text_at (getlines "010" contents) (0, row0) = Some t0 →
  0 ≤ col ≤ (dimensions contents).1 →
  print_cell (cells s) col row =
  match cell_at (cells s) (col, row) with
  | Some (Int n) => to_string n +:+ TAB
  | Some (State Error) => "#ERR" +:+ TAB
  | _ => TAB
  end.
Proof.
  intros Hwithin Horder Hrun Hfirst Hcol.
  rewrite print_cell_present
    by by apply (printed_column_present contents order s col row0 t0).
  by destruct (cell_at (cells s) (col, row)) as [[n|[]]|].
Qed.

Lemma print_output_writes_one_field_per_column_witness :
  ∃ s, parse_input ["A0"; "B0"] "5,A0 2 *" = Done s ∧
       print_cell (cells s) 1 0 = "10" +:+ TAB.
Proof.
  destruct (parse_input ["A0"; "B0"] "5,A0 2 *") as [s| |] eqn:Hrun;
    [|by vm_compute in Hrun..].
  exists s. split; [done|].
  rewrite (print_output_writes_one_field_per_column "5,A0 2 *" ["A0"; "B0"]
             s 1 0 0 "5"%string);
    [| reflexivity | vm_compute; (reflexivity || apply perm_swap) | done
     | reflexivity | by vm_compute].
  vm_compute in Hrun. injection Hrun as <-. reflexivity.
Defined.

(** X20.  On such a run the printed table is rectangular: every row line
    holds as many tab characters as the header line, one after the row
    number and one after each of the columns up to [max_col]. *)
Theorem print_output_is_rectangular contents order s row row0 t0 :
  within_column_Z contents = true →
  order ≡ₚ keys_of (load contents) →
  parse_input order contents = Done s →
  text_at (getlines "010" contents) (0, row0) = Some t0 →
  count_char "009" (print_row (cells s) (dimensions contents).1 row)
  = count_char "009" (print_header (dimensions contents).1).
Proof.
  intros Hwithin Horder Hrun Hfirst.
  rewrite count_char_header. unfold print_row.
  rewrite !count_char_app, count_char_to_string.
  rewrite (count_char_foldr _ (λ col, print_cell (cells s) col row) _ _ 1).
  - rewrite length_seqZ. simpl. lia.
  - intros col Hcol%elem_of_seqZ.
    rewrite print_cell_present
      by (apply (printed_column_present contents order s col row0 t0);
          (done || lia)).
    by rewrite count_char_app, count_char_shown.
Qed.

Lemma print_output_is_rectangular_witness :
  ∃ s, parse_input ["A0"; "B0"] "5,A0 2 *
7" = Done s ∧
       count_char "009" (print_row (cells s) 1 1) = 3%nat.
Proof.
  destruct (parse_input ["A0"; "B0"] "5,A0 2 *
7") as [s| |] eqn:Hrun;
    [|by vm_compute in Hrun..].
  exists s. split; [done|].
  apply (print_output_is_rectangular "5,A0 2 *
7" ["A0"; "B0"] s 1 0 "5"%string);
    [reflexivity | vm_compute; (reflexivity || apply perm_swap) | done
    | reflexivity].
Defined.

Lemma foldr_append_ext {A} (f g : A → string) e l :
  (∀ x, x ∈ l → f x = g x) →
  foldr (λ x out, f x +:+ out) e l = foldr (λ x out, g x +:+ out) e l.
Proof.
  induction l as [|x l IH]; intros Hl; [done|].
  simpl. rewrite (Hl x), IH; [done| |by left].
  intros y Hy. apply Hl. by right.
Qed.

(** X21.  A sheet within columns A to Z with a cell in column A, canonical
    references and no cycle is printed the same way whatever the order in
    which the keys of the registry are visited: two runs that end normally
    print the same text. *)
Theorem acyclic_sheet_output_independent_of_order
    contents order order' row0 t0 s s' :
  within_column_Z contents = true →
  canonical_refs contents = true →
  acyclic (dependencies (load contents)) →
  order ≡ₚ keys_of (load contents) →
  order' ≡ₚ keys_of (load contents) →
  text_at (getlines "010" contents) (0, row0) = Some t0 →
  parse_input order contents = Done s →
  parse_input order' contents = Done s' →
  print_output (dimensions contents).1 (dimensions contents).2 (cells s)
  = print_output (dimensions contents).1 (dimensions contents).2 (cells s').
Proof.
  intros Hwithin Hcanon Hacyclic Horder Horder' Hfirst Hrun Hrun'.
  pose proof (acyclic_sheet_done_evaluated contents order s
                Hwithin Hcanon Hacyclic Horder Hrun) as Hs.
  pose proof (acyclic_sheet_done_evaluated contents order' s'
                Hwithin Hcanon Hacyclic Horder' Hrun') as Hs'.
  pose proof (evaluated_unique contents _ _ Hwithin Hcanon Hacyclic Hs Hs')
    as Hsame.
  unfold print_output. f_equal.
  apply (foldr_append_ext (λ row, print_row (cells s) _ row)
                          (λ row, print_row (cells s') _ row)).
  intros row _. unfold print_row. do 2 f_equal.
  apply (foldr_append_ext (λ col, print_cell (cells s) col row)
                          (λ col, print_cell (cells s') col row)).
  intros col Hcol%elem_of_seqZ.
  rewrite !print_cell_present, Hsame; [done|..].
  - apply (printed_column_present contents order' s' col row0 t0);
      (done || lia).
  - apply (printed_column_present contents order s col row0 t0);
      (done || lia).
Qed.

Lemma acyclic_sheet_output_independent_of_order_witness :
  ∃ s s',
    parse_input ["A0"; "B0"] "5,A0 2 *" = Done s ∧
    parse_input ["B0"; "A0"] "5,A0 2 *" = Done s' ∧
    print_output 1 0 (cells s) = print_output 1 0 (cells s').
Proof.
  destruct (parse_input ["A0"; "B0"] "5,A0 2 *") as [s| |] eqn:Hrun;
    [|by vm_compute in Hrun..].
  destruct (parse_input ["B0"; "A0"] "5,A0 2 *") as [s'| |] eqn:Hrun';
    [|by vm_compute in Hrun'..].
  exists s, s'. split_and!; [done..|].
  apply (acyclic_sheet_output_independent_of_order "5,A0 2 *"
           ["A0"; "B0"] ["B0"; "A0"] 0 "5"%string); [..|done|done].
  - reflexivity.
  - reflexivity.
  - apply (ranked_acyclic _ (λ a, if String.eqb a "B0" then 1 else 0)%nat).
    reflexivity.
  - vm_compute. (reflexivity || apply perm_swap).
  - vm_compute. (reflexivity || apply perm_swap).
  - reflexivity.
Defined.

(** * References outside canonical form *)

(** X22.  Evaluating the formula of a cell in one of the columns AA to ZZ
    stores its value 26 columns to the left of the cell, where
    [address_to_coords] places the cell's address; every other coordinate,
    the cell's own among them, is left as it was. *)
Theorem formula_past_column_Z_is_stored_26_columns_left s s' col row :
  26 ≤ col < 702 → 0 ≤ row ≤ INT_MAX →
  tokens (formula_of (dependencies s) (coords_to_address (col, row))) ≠ [] →
  resolve_cell (coords_to_address (col, row)) s = Some s' →
  cell_at (cells s') (col - 26, row) =
  Some (postfix_value
          (substituted is_letter_number_format (cells s)
             (formula_of (dependencies s) (coords_to_address (col, row))))) ∧
  ∀ other, other ≠ (col - 26, row) →
           cell_at (cells s') other = cell_at (cells s) other.
Proof.
  intros Hcol Hrow Htokens Hrun. unfold resolve_cell in Hrun.
  destruct (resolve_references _ s) as [sr|] eqn:Href; [|done].
  destruct (resolve_references_result _ _ _ Href) as (Hf & _ & Hcells).
  rewrite Hf, substituted_nonempty in Hrun by done.
  rewrite address_to_coords_to_address_two_letters in Hrun by done.
  injection Hrun as <-. simpl. split.
  - apply cell_at_set_cell_eq.
  - intros other Hother. by rewrite cell_at_set_cell_ne, Hcells.
Qed.

Lemma formula_past_column_Z_is_stored_26_columns_left_witness :
  ∃ s', resolve_cell (coords_to_address (26, 0))
          (parse_tokens (26, 0) "A1 1 +" (parse_tokens (0, 1) "4" clear))
        = Some s' ∧
        cell_at (cells s') (26 - 26, 0) = Some (Int 5) ∧
        cell_at (cells s') (26, 0) = None.
Proof.
  set (s := parse_tokens (26, 0) "A1 1 +" (parse_tokens (0, 1) "4" clear)).
  destruct (resolve_cell (coords_to_address (26, 0)) s) as [s'|] eqn:Hrun;
    [|by vm_compute in Hrun].
  destruct (formula_past_column_Z_is_stored_26_columns_left s s' 26 0)
    as [Hleft Hothers]; [lia | by vm_compute | done | done |].
  exists s'. split_and!; [done | exact Hleft | by rewrite Hothers].
Defined.

Lemma islower_isalpha c : islower c = true → isalpha c = true.
Proof. unfold isalpha. intros ->. apply orb_true_r. Qed.

(** A lowercase letter followed by a row number has the address format
    and is read as one of the columns 32 to 57. *)
Lemma address_to_coords_lowercase c row :
  islower c = true → 0 ≤ row ≤ INT_MAX →
  is_letter_number_format (String c (to_string row)) = true ∧
  address_to_coords (String c (to_string row))
  = Some (char_code c - 65, row) ∧
  32 ≤ char_code c - 65 ≤ 57.
Proof.
  intros Hc Hrow.
  pose proof (to_string_digits row (proj1 Hrow)) as Hdigits.
  pose proof (to_string_nonempty row) as Hne.
  assert (32 ≤ char_code c - 65 ≤ 57) as Hcode
    by (revert Hc; unfold islower; lia).
  split; [|split; [|done]].
  - unfold is_letter_number_format. cbn [span].
    rewrite (islower_isalpha c Hc), span_isalpha_digits by done.
    rewrite Hdigits. by destruct (to_string row).
  - unfold address_to_coords. cbn [span].
    rewrite (islower_isalpha c Hc), span_isalpha_digits by done.
    rewrite stoi_to_string by (unfold in_int, INT_MIN, INT_MAX in *; lia).
    unfold col_to_coord. cbn [col_to_coord_loop].
    rewrite wrap_int_fits by (unfold in_int, INT_MIN, INT_MAX; lia).
    f_equal; f_equal; lia.
Qed.

(** X23.  The address pattern accepts lowercase letters, but
    [col_to_coord] reads a lowercase letter as one of the columns 32 to 57
    and never as the column of that letter.  So in a sheet within columns A
    to Z a formula that mentions a one-letter lowercase address refers to no
    cell of the input, and ends with [Error] when the run ends normally. *)
Theorem lowercase_reference_ends_as_error contents order s coords t c row :
  within_column_Z contents = true →
  order ≡ₚ keys_of (load contents) →
  parse_input order contents = Done s →
  text_at (getlines "010" contents) coords = Some t →
  String c (to_string row) ∈ tokens t →
  islower c = true → 0 ≤ row ≤ INT_MAX →
  address_to_coords (String c (to_string row)) = Some (char_code c - 65, row) ∧
  32 ≤ char_code c - 65 ∧
  cell_at (cells s) coords = Some (State Error).
Proof.
  intros Hwithin Horder Hrun Htext Hin Hc Hrow.
  destruct (address_to_coords_lowercase c row Hc Hrow) as (Hfmt & Htarget & Hcode).
  split_and!; [done | lia |].
  pose proof (address_token_letter t _ Hin Hfmt) as Hletter.
  destruct (formula_cell_key contents coords t Hwithin Htext Hletter)
    as (Hf & Hnil & Hcoords).
  destruct (doomed_cells_end_as_error contents order s
              (coords_to_address coords) Hwithin Horder Hrun)
    as (coords' & Heq & Htext' & Herror).
  - apply (doomed_undefined _ _ _ (String c (to_string row))
             (char_code c - 65, row)); [|done|].
    + split; [by rewrite Hf | done].
    + destruct (text_at (getlines "010" contents) (char_code c - 65, row))
        as [t'|] eqn:Ht'; [|done].
      destruct (text_at_within _ _ _ _ Hwithin Ht'). lia.
  - destruct (text_at_nonneg _ _ _ Htext), (text_at_nonneg _ _ _ Htext').
    destruct coords, coords'.
    apply coords_to_address_inj in Heq; [|done..]. by rewrite Heq.
Qed.

Lemma lowercase_reference_ends_as_error_witness :
  ∃ s, parse_input ["B0"; "a0"] "5,a0 2 *" = Done s ∧
       address_to_coords "a0" = Some (32, 0) ∧
       cell_at (cells s) (1, 0) = Some (State Error).
Proof.
  destruct (parse_input ["B0"; "a0"] "5,a0 2 *") as [s| |] eqn:Hrun;
    [|by vm_compute in Hrun..].
  destruct (lowercase_reference_ends_as_error "5,a0 2 *" ["B0"; "a0"] s
              (1, 0) "a0 2 *"%string "a"%char 0)
    as (Hcoords & _ & Herror);
    [reflexivity | vm_compute; (reflexivity || apply perm_swap) | done
    | reflexivity | by left | reflexivity | by vm_compute |].
  by exists s.
Defined.

(** * Cells that the sweep cannot reach *)

Lemma mentioned_spec contents coords coords' t token :
  mentioned contents coords = false →
  text_at (getlines "010" contents) coords' = Some t →
  token ∈ tokens t → is_letter_number_format token = true →
  address_to_coords token ≠ Some coords.
Proof.
  intros Hno (i & line & j & -> & Hi & Hj)%text_at_inv Hin Hfmt Hcoords.
  enough (mentioned contents coords = true) by congruence.
  unfold mentioned. apply existsb_exists. exists line.
  split; [by eapply list_elem_of_In, list_elem_of_lookup_2|].
  apply existsb_exists. exists t.
  split; [by eapply list_elem_of_In, list_elem_of_lookup_2|].
  apply existsb_exists. exists token.
  split; [by apply list_elem_of_In|].
  rewrite Hfmt. by apply bool_decide_eq_true.
Qed.

Lemma mark_errors_swept l cs cs' :
  mark_errors l cs = Some cs' →
  ∀ coords, cell_at cs' coords = cell_at cs coords ∨
            ∃ k, k ∈ l ∧ address_to_coords k = Some coords.
Proof.
  revert cs. induction l as [|cell rest IH]; intros cs Hrun coords;
    simpl in Hrun.
  - simplify_eq. by left.
  - destruct (address_to_coords cell) as [p|] eqn:Hp; [|done].
    destruct (IH _ Hrun coords) as [Hsame|(k & Hk & Hcoords)].
    + rewrite Hsame, cell_at_set_cell. case_decide as Heq; [|by left].
      right. exists cell. split; [by left | congruence].
    + right. exists k. split; [by right | done].
Qed.

(** The driver changes the grid only at coordinates that
    [address_to_coords] reads from a key of the registry. *)
Lemma sort_loop_swept deps fuel order st cs st' cs' :
  (∀ x w, edge deps x w → w ∈ dom deps) →
  (size deps ≤ fuel)%nat →
  (∀ k, k ∈ order → k ∈ dom deps) →
  tidy deps st →
  sort_loop deps fuel order st cs = Done (st', cs') →
  ∀ coords, cell_at cs' coords = cell_at cs coords ∨
            ∃ k, k ∈ dom deps ∧ address_to_coords k = Some coords.
Proof.
  intros Hclosed Hfuel. revert st cs.
  induction order as [|key rest IH]; intros st cs Hkeys Htidy Hrun coords;
    simpl in Hrun.
  { simplify_eq. by left. }
  assert (∀ k, k ∈ rest → k ∈ dom deps) as Hrest
    by (intros k Hk; apply Hkeys; by right).
  destruct (decide (key ∈ marked st)) as [Hmk|Hmk]; [by apply (IH st cs)|].
  assert (key ∈ dom deps) as Hkey by (apply Hkeys; by left).
  assert ((unmarked deps st ≤ fuel)%nat) as Hunmarked
    by (etrans; [by apply unmarked_bound | done]).
  destruct (dfs_total deps Hclosed fuel key st Hkey Hmk Hunmarked Htidy)
    as (b & st1 & Hdfs & _ & Htidy1 & _).
  rewrite Hdfs in Hrun. destruct b; [|by apply (IH st1 cs)].
  destruct (mark_errors (res st1) cs) as [cs1|] eqn:Hmark; [|done].
  destruct (IH st1 cs1 Hrest Htidy1 Hrun coords) as [Hsame|?]; [|by right].
  rewrite Hsame.
  destruct (mark_errors_swept _ _ _ Hmark coords) as [?|(k & Hk & Hcoords)];
    [by left|].
  right. exists k. split; [|done].
  destruct Htidy1 as (_ & Hsub & Hdom). auto.
Qed.

(** The resolution loop starts in a consistent state. *)
Lemma consistent_start contents l cs :
  within_column_Z contents = true →
  l ≡ₚ keys_of (load contents) →
  (∀ p, cell_at cs p = cell_at (cells (load contents)) p ∨
        cell_at cs p = Some (State Error)) →
  consistent (dependencies (load contents)) cs l
    (mkSpreadsheet cs (dependencies (load contents))).
Proof.
  intros Hwithin Hperm Hcells. split_and!; simpl; [done| | |done].
  - intros k ck n _ Hk Hck Hcell.
    destruct (formula_key_address contents k Hwithin Hk)
      as (ck' & Htext' & _ & Hck' & Hletter).
    destruct (Hcells ck) as [Hsame|Herr]; [|congruence].
    rewrite Hsame in Hcell.
    destruct (loaded_load contents) as (_ & _ & Hgrid).
    destruct (Hgrid _ _ Hcell) as (t' & Ht' & Hplain' & _). congruence.
  - intros k ck Hk Hne. exfalso. apply Hk. rewrite Hperm. unfold keys_of.
    apply elem_of_elements, elem_of_dom. unfold formula_of in Hne.
    by destruct (dependencies (load contents) !! k).
Qed.

(** X25.  The cycle sweep cannot reach a cell that no formula mentions:
    within columns A to Z, when the run ends normally, a cell without letter
    whose coordinate is read from no address token of the input ends with the
    value of its text, with or without cycles elsewhere in the sheet and in
    every order of the keys. *)
Theorem unmentioned_cell_keeps_its_value contents order s coords t :
  within_column_Z contents = true →
  order ≡ₚ keys_of (load contents) →
  parse_input order contents = Done s →
  text_at (getlines "010" contents) coords = Some t →
  contains_letter t = false →
  mentioned contents coords = false →
  cell_at (cells s) coords = Some (postfix_value t).
Proof.
  set (s0 := load contents). set (deps0 := dependencies s0).
  intros Hwithin Horder Hrun Htext Hplain Hunmentioned.
  assert (∀ k, formula_of deps0 k ≠ EmptyString →
               address_to_coords k ≠ Some coords) as Hnoformula.
  { apply (plain_cell_no_formula contents coords Hwithin).
    intros t' Ht'. congruence. }
  unfold parse_input, resolve_dependencies, topological_sort_dependencies in Hrun.
  fold s0 deps0 in Hrun.
  destruct (registry_ok_load contents) as [Hclosed _]. fold s0 deps0 in Hclosed.
  assert (∀ k, k ∈ order → k ∈ dom deps0) as Hkeys.
  { intros k Hk. rewrite Horder in Hk. unfold keys_of in Hk.
    by apply elem_of_elements in Hk. }
  pose proof (sort_loop_keys deps0 order Hclosed Horder (cells s0)) as Hsort.
  destruct (sort_loop deps0 (S (size deps0)) order (mkDfs ∅ ∅ []) (cells s0))
    as [[st cs]| |] eqn:Hloop0; [|done..].
  simpl in Hrun. destruct Hsort as [Hperm _].
  destruct (resolve_loop (res st) (mkSpreadsheet cs deps0)) as [s'|] eqn:Hloop;
    simpl in Hrun; simplify_eq.
  assert (∀ p, cell_at cs p = cell_at (cells s0) p ∨
               ∃ k, k ∈ dom deps0 ∧ address_to_coords k = Some p) as Hswept.
  { apply (sort_loop_swept deps0 (S (size deps0)) order (mkDfs ∅ ∅ []) _ st);
      try done; [lia | apply tidy_start]. }
  assert (∀ p, cell_at cs p = cell_at (cells s0) p ∨
               cell_at cs p = Some (State Error)) as Hcells.
  { pose proof (sort_loop_keys deps0 order Hclosed Horder (cells s0)) as Hsort'.
    rewrite Hloop0 in Hsort'. apply Hsort'. }
  assert (consistent deps0 cs [] s) as (_ & _ & _ & Hother).
  { apply (resolve_loop_consistent deps0 cs
             (λ k k' c, formula_keys_apart contents k k' c Hwithin)
             (λ k, formula_keys_tokens contents k Hwithin)
             (res st) (mkSpreadsheet cs deps0) s); [| |done].
    - rewrite Hperm. apply NoDup_elements.
    - by apply consistent_start. }
  rewrite Hother by done.
  destruct (Hswept coords) as [->|(k & Hk & Hcoords)];
    [by apply load_plain_cell|].
  exfalso.
  destruct (load_key contents k Hk)
    as (coords' & t' & Ht' & Hl' & [->|[Hin Hfmt]]).
  - destruct (formula_cell_key contents coords' t' Hwithin Ht' Hl')
      as (_ & _ & Hback).
    congruence.
  - by apply (mentioned_spec contents coords coords' t' k).
Qed.

Lemma unmentioned_cell_keeps_its_value_witness :
  ∃ s, parse_input ["A0"; "B0"] "B0 1 +,A0 1 +,5" = Done s ∧
       cell_at (cells s) (2, 0) = Some (Int 5).
Proof.
  destruct (parse_input ["A0"; "B0"] "B0 1 +,A0 1 +,5") as [s| |] eqn:Hrun;
    [|by vm_compute in Hrun..].
  exists s. split; [done|].
  apply (unmentioned_cell_keeps_its_value "B0 1 +,A0 1 +,5" ["A0"; "B0"] s
           (2, 0) "5"%string);
    [reflexivity | vm_compute; (reflexivity || apply perm_swap) | done
    | reflexivity | reflexivity | reflexivity].
Defined.

(** X26.  In a sheet within columns A to Z whose dependency graph has no
    cycle nothing is swept: when the run ends normally, every cell without
    letter ends with the value of its text, whether formulas mention it or
    not. *)
Theorem acyclic_sheet_keeps_plain_values contents order s coords t :
  within_column_Z contents = true →
  acyclic (dependencies (load contents)) →
  order ≡ₚ keys_of (load contents) →
  parse_input order contents = Done s →
  text_at (getlines "010" contents) coords = Some t →
  contains_letter t = false →
  cell_at (cells s) coords = Some (postfix_value t).
Proof.
  set (s0 := load contents). set (deps0 := dependencies s0).
  intros Hwithin Hacyclic Horder Hrun Htext Hplain.
  destruct (registry_ok_load contents) as [Hclosed _]. fold s0 deps0 in Hclosed.
  assert (∀ k, k ∈ order → k ∈ dom deps0) as Hkeys.
  { intros k Hk. rewrite Horder in Hk. unfold keys_of in Hk.
    by apply elem_of_elements in Hk. }
  destruct (sort_loop_acyclic deps0 Hclosed Hacyclic (S (size deps0)) order
              (mkDfs ∅ ∅ []) (cells s0)) as (st & Hsort & _).
  { lia. }
  { unfold dfs_inv. simpl. split_and!; try done.
    - set_solver.
    - apply NoDup_nil_2. }
  { done. }
  { done. }
  pose proof (sort_loop_keys deps0 order Hclosed Horder (cells s0)) as Hperm.
  rewrite Hsort in Hperm. destruct Hperm as [Hperm _].
  unfold parse_input, resolve_dependencies, topological_sort_dependencies in Hrun.
  fold s0 deps0 in Hrun. rewrite Hsort in Hrun. simpl in Hrun.
  destruct (resolve_loop (res st) (mkSpreadsheet (cells s0) deps0))
    as [s'|] eqn:Hloop; simpl in Hrun; simplify_eq.
  assert (consistent deps0 (cells s0) [] s) as (_ & _ & _ & Hother).
  { apply (resolve_loop_consistent deps0 (cells s0)
             (λ k k' c, formula_keys_apart contents k k' c Hwithin)
             (λ k, formula_keys_tokens contents k Hwithin)
             (res st) (mkSpreadsheet (cells s0) deps0) s); [| |done].
    - rewrite Hperm. apply NoDup_elements.
    - apply consistent_start; [done..|]. by left. }
  rewrite Hother; [by apply load_plain_cell|].
  apply (plain_cell_no_formula contents coords Hwithin).
  intros t' Ht'. congruence.
Qed.

Lemma acyclic_sheet_keeps_plain_values_witness :
  ∃ s, parse_input ["A0"; "B0"; "A00"] "5,A0 A00 *" = Done s ∧
       cell_at (cells s) (0, 0) = Some (Int 5).
Proof.
  destruct (parse_input ["A0"; "B0"; "A00"] "5,A0 A00 *") as [s| |] eqn:Hrun;
    [|by vm_compute in Hrun..].
  exists s. split; [done|].
  apply (acyclic_sheet_keeps_plain_values "5,A0 A00 *" ["A0"; "B0"; "A00"] s
           (0, 0) "5"%string);
    [reflexivity | | vm_compute; solve_Permutation | done
    | reflexivity | reflexivity].
  apply (ranked_acyclic _ (λ a, if String.eqb a "B0" then 1 else 0)%nat).
  reflexivity.
Defined.

(** * Defects in the handling of references *)

(** C4.  The registry is keyed by the spelling of an address, the grid by
    the coordinate that [address_to_coords] reads from it.  In the row
    [B00 1 +,C0 1 +,5] the formula of A0 reads the cell B0 through the
    token [B00]; the dependency graph has no cycle, its only edges being
    from [B00] to A0 and from C0 to B0, so nothing orders A0 after B0.
    When the keys are visited in the order C0, B0, B00, A0 the driver
    returns B00, A0, C0, B0: A0 is evaluated while the cell it reads has
    no value yet and ends with [Error].  Visited from A0 the same sheet
    gives 7. *)
Theorem formula_evaluated_before_the_cell_it_reads :
  let contents := "B00 1 +,C0 1 +,5"%string in
  let deps := dependencies (load contents) in
  acyclic deps ∧
  (formula_of deps "A0" = "B00 1 +"%string ∧
   formula_of deps "B0" = "C0 1 +"%string ∧
   address_to_coords "B00" = Some (1, 0) ∧
   address_to_coords "B0" = Some (1, 0)) ∧
  (dependents deps "B00" = ["A0"] ∧ dependents deps "C0" = ["B0"] ∧
   dependents deps "B0" = [] ∧ dependents deps "A0" = []) ∧
  (["C0"; "B0"; "B00"; "A0"] ≡ₚ keys_of (load contents) ∧
   ["A0"; "B00"; "B0"; "C0"] ≡ₚ keys_of (load contents)) ∧
  (∃ s1 s,
     topological_sort_dependencies ["C0"; "B0"; "B00"; "A0"] (load contents)
     = Done (["B00"; "A0"; "C0"; "B0"], s1) ∧
     parse_input ["C0"; "B0"; "B00"; "A0"] contents = Done s ∧
     cell_at (cells s) (0, 0) = Some (State Error) ∧
     cell_at (cells s) (1, 0) = Some (Int 6) ∧
     cell_at (cells s) (2, 0) = Some (Int 5)) ∧
  (∃ s1 s,
     topological_sort_dependencies ["A0"; "B00"; "B0"; "C0"] (load contents)
     = Done (["C0"; "B0"; "B00"; "A0"], s1) ∧
     parse_input ["A0"; "B00"; "B0"; "C0"] contents = Done s ∧
     cell_at (cells s) (0, 0) = Some (Int 7) ∧
     cell_at (cells s) (1, 0) = Some (Int 6) ∧
     cell_at (cells s) (2, 0) = Some (Int 5)).
Proof.
  intros contents deps. split_and!; try reflexivity.
  - apply (ranked_acyclic _
             (λ a, if String.eqb a "A0" || String.eqb a "B0" then 1 else 0)%nat).
    reflexivity.
  - change (keys_of (load contents)) with ["C0"; "A0"; "B00"; "B0"].
    solve_Permutation.
  - change (keys_of (load contents)) with ["C0"; "A0"; "B00"; "B0"].
    solve_Permutation.
  - eexists _, _. split; [vm_compute; reflexivity|].
    split; [vm_compute; reflexivity|]. split_and!; reflexivity.
  - eexists _, _. split; [vm_compute; reflexivity|].
    split; [vm_compute; reflexivity|]. split_and!; reflexivity.
Qed.

(** C6.  [resolve_references] does not look up "the referenced cell" of
    an uppercase address.  The pattern it tests accepts lowercase letters:
    in the formula [a0 1 +], which holds no uppercase address and should be
    copied through, [a0] is looked up (in column 32) and the result is the
    sentinel.  And the cell looked up for an address past column Z is not
    the cell of that address: in a row where A0 holds 5 and AA0, the cell at
    column 26, holds 7, the formula [AA0 1 +] of B0 becomes [ 5 1 +]. *)
Theorem resolve_references_looks_up_other_cells :
  (let s := load "a0 1 +" in
   is_upper_address "a0" = false ∧
   is_letter_number_format "a0" = true ∧
   address_to_coords "a0" = Some (32, 0) ∧
   ∃ s', resolve_references "A0" s = Some s' ∧
         formula_of (dependencies s') "A0" = "#ERR"%string) ∧
  (let s :=
     load "5,AA0 1 +,1,1,1,1,1,1,1,1,1,1,1,1,1,1,1,1,1,1,1,1,1,1,1,1,7" in
   coords_to_address (26, 0) = "AA0"%string ∧
   cell_at (cells s) (26, 0) = Some (Int 7) ∧
   cell_at (cells s) (0, 0) = Some (Int 5) ∧
   formula_of (dependencies s) "B0" = "AA0 1 +"%string ∧
   ∃ s', resolve_references "B0" s = Some s' ∧
         formula_of (dependencies s') "B0" = " 5 1 +"%string).
Proof.
  split.
  - intros s. split_and!; try reflexivity.
    eexists. split; [vm_compute; reflexivity | reflexivity].
  - intros s. split_and!; try reflexivity.
    eexists. split; [vm_compute; reflexivity | reflexivity].
Qed.

(** C9.  A cell that was never written does not always stay absent, and
    the referring cell is not always the one that gets [Error].  In the
    sheet [B0 1 +,A0 1 +,B1 1 +] / [7] the formula of C0 mentions B1, which
    the input does not define, and A0 and B0 form a cycle.  When the keys
    are visited in the order B1, C0, B0, A0, the list [res] holds B1 when
    the cycle is found and the sweep stores [Error] at B1, which is then
    printed as [#ERR]; visited from A0, B1 stays absent.  And when the
    referring formula stands in column AA, [Error] is stored over A0 and
    the referring cell stays absent. *)
Theorem undefined_cell_is_swept_to_error :
  (let contents := "B0 1 +,A0 1 +,B1 1 +
7"%string in
   let deps := dependencies (load contents) in
   (formula_of deps "C0" = "B1 1 +"%string ∧
    address_to_coords "B1" = Some (1, 1) ∧
    text_at (getlines "010" contents) (1, 1) = None ∧
    cell_at (cells (load contents)) (1, 1) = None) ∧
   (["B1"; "C0"; "B0"; "A0"] ≡ₚ keys_of (load contents) ∧
    ["A0"; "B0"; "C0"; "B1"] ≡ₚ keys_of (load contents)) ∧
   (∃ s, parse_input ["B1"; "C0"; "B0"; "A0"] contents = Done s ∧
         cell_at (cells s) (2, 0) = Some (State Error) ∧
         cell_at (cells s) (1, 1) = Some (State Error) ∧
         print_cell (cells s) 1 1 = "#ERR" +:+ TAB) ∧
   (∃ s, parse_input ["A0"; "B0"; "C0"; "B1"] contents = Done s ∧
         cell_at (cells s) (2, 0) = Some (State Error) ∧
         cell_at (cells s) (1, 1) = None ∧
         print_cell (cells s) 1 1 = TAB)) ∧
  (let contents :=
     "1,1,1,1,1,1,1,1,1,1,1,1,1,1,1,1,1,1,1,1,1,1,1,1,1,1,B5 1 +"%string in
   let deps := dependencies (load contents) in
   (coords_to_address (26, 0) = "AA0"%string ∧
    formula_of deps "AA0" = "B5 1 +"%string ∧
    address_to_coords "B5" = Some (1, 5) ∧
    text_at (getlines "010" contents) (1, 5) = None ∧
    cell_at (cells (load contents)) (0, 0) = Some (Int 1)) ∧
   ∀ order,
     order ≡ₚ keys_of (load contents) →
     ∃ s, parse_input order contents = Done s ∧
          cell_at (cells s) (26, 0) = None ∧
          cell_at (cells s) (0, 0) = Some (State Error) ∧
          cell_at (cells s) (1, 5) = None).
Proof.
  split.
  - intros contents deps. split_and!; try reflexivity.
    + change (keys_of (load contents)) with ["C0"; "A0"; "B1"; "B0"].
      solve_Permutation.
    + change (keys_of (load contents)) with ["C0"; "A0"; "B1"; "B0"].
      solve_Permutation.
    + eexists. split; [vm_compute; reflexivity|]. split_and!; reflexivity.
    + eexists. split; [vm_compute; reflexivity|]. split_and!; reflexivity.
  - intros contents deps. split_and!; try reflexivity.
    intros order Horder.
    two_orders Horder;
      (eexists; split; [vm_compute; reflexivity|]); split_and!; reflexivity.
Qed.
